(** * ChartGPU: viewport / resampling pipeline

    A shallow embedding of the zoom-window state, the touch gesture
    handlers of [createInsideZoom], the render scheduler, the sorted-range
    slicer and the aggregate downsampler of [sampleSeries.ts], with the
    properties the specification states about them. *)

From Stdlib Require Import String.
From Stdlib Require Import ZArith QArith Qround Qreduction Qabs.
From Stdlib Require Import List Bool Lia Lqa Sorted.
From Equations Require Import Equations.
Import ListNotations.

(** * JavaScript numbers

    A JavaScript [number] is modelled as an exact rational or one of the
    three IEEE special values.  The special values behave as in IEEE 754
    (so [Number.isFinite], [NaN] comparisons and division by zero are as
    in the source); finite arithmetic is exact: rounding is not modelled,
    and the two zeros are one value. *)

Module Num.

Inductive num : Type :=
| NaN
| PInf
| NInf
| Fin (q : Q).

Definition ofZ (z : Z) : num := Fin (inject_Z z).

Definition zero : num := Fin 0.
Definition one : num := Fin 1.

(** [Number.isFinite(v)] *)
Definition isFinite (v : num) : bool :=
  match v with Fin _ => true | _ => false end.

Definition Qlt_bool (a b : Q) : bool := negb (Qle_bool b a).

Definition Qsgn (q : Q) : Z := Z.sgn (Qnum q).

(** unary minus *)
Definition neg (a : num) : num :=
  match a with
  | NaN => NaN
  | PInf => NInf
  | NInf => PInf
  | Fin q => Fin (Qred (- q))
  end.

(** [a + b] *)
Definition add (a b : num) : num :=
  match a, b with
  | NaN, _ | _, NaN => NaN
  | PInf, NInf | NInf, PInf => NaN
  | PInf, _ | _, PInf => PInf
  | NInf, _ | _, NInf => NInf
  | Fin x, Fin y => Fin (Qred (x + y))
  end.

(** [a - b] *)
Definition sub (a b : num) : num :=
  match a, b with
  | NaN, _ | _, NaN => NaN
  | PInf, PInf | NInf, NInf => NaN
  | PInf, _ | _, NInf => PInf
  | NInf, _ | _, PInf => NInf
  | Fin x, Fin y => Fin (Qred (x - y))
  end.

(** an infinity of the sign of [s], or [NaN] when [s] is zero *)
Definition inf_of_sign (s : Z) : num :=
  match s with
  | Z0 => NaN
  | Zpos _ => PInf
  | Zneg _ => NInf
  end.

Definition sign (a : num) : Z :=
  match a with
  | NaN => 0
  | PInf => 1
  | NInf => -1
  | Fin q => Qsgn q
  end.

(** [a * b] *)
Definition mul (a b : num) : num :=
  match a, b with
  | NaN, _ | _, NaN => NaN
  | Fin x, Fin y => Fin (Qred (x * y))
  | _, _ => inf_of_sign (sign a * sign b)
  end.

(** [a / b]; a finite value over zero is an infinity of the sign of the
    numerator, [0 / 0] is [NaN]. *)
Definition div (a b : num) : num :=
  match a, b with
  | NaN, _ | _, NaN => NaN
  | Fin x, Fin y =>
      if Qeq_bool y 0 then inf_of_sign (Qsgn x) else Fin (Qred (x / y))
  | Fin _, _ => Fin 0
  | _, Fin y => if Qlt_bool y 0 then neg a else a
  | _, _ => NaN
  end.

(** [a < b]; every comparison with [NaN] is false. *)
Definition ltb (a b : num) : bool :=
  match a, b with
  | NaN, _ | _, NaN => false
  | _, NInf => false
  | PInf, _ => false
  | NInf, _ => true
  | _, PInf => true
  | Fin x, Fin y => Qlt_bool x y
  end.

(** [a <= b] *)
Definition leb (a b : num) : bool :=
  match a, b with
  | NaN, _ | _, NaN => false
  | NInf, _ => true
  | _, PInf => true
  | _, NInf => false
  | PInf, _ => false
  | Fin x, Fin y => Qle_bool x y
  end.

(** [a > b] and [a >= b] *)
Definition gtb (a b : num) : bool := ltb b a.
Definition geb (a b : num) : bool := leb b a.

(** [a === b] on numbers *)
Definition eqb (a b : num) : bool :=
  match a, b with
  | PInf, PInf | NInf, NInf => true
  | Fin x, Fin y => Qeq_bool x y
  | _, _ => false
  end.

(** [Math.floor(v)] *)
Definition floor (v : num) : num :=
  match v with
  | Fin q => Fin (inject_Z (Qfloor q))
  | _ => v
  end.

(** [Math.min(a, b)] and [Math.max(a, b)]: [NaN] when either is [NaN]. *)
Definition min (a b : num) : num :=
  match a, b with
  | NaN, _ | _, NaN => NaN
  | _, _ => if ltb b a then b else a
  end.

Definition max (a b : num) : num :=
  match a, b with
  | NaN, _ | _, NaN => NaN
  | _, _ => if ltb a b then b else a
  end.

(** Square root of a non-negative rational: exact when the argument is the
    square of a rational, and otherwise cut after 52 binary digits. *)
Definition Qsqrt (q : Q) : Q :=
  let r := Qred q in
  let s := Z.pow 2 52 in
  Qred (Qmake (Z.sqrt (Qnum r * Zpos (Qden r) * (s * s)))
              (Qden r * Z.to_pos s)).

(** [Math.hypot(a, b)]: an infinite argument gives [+Infinity] even next to
    a [NaN]. *)
Definition hypot (a b : num) : num :=
  match a, b with
  | PInf, _ | NInf, _ | _, PInf | _, NInf => PInf
  | NaN, _ | _, NaN => NaN
  | Fin x, Fin y => Fin (Qsqrt (x * x + y * y))
  end.

End Num.

Import Num.

Declare Scope num_scope.
Delimit Scope num_scope with num.
Bind Scope num_scope with num.
Notation "a + b" := (Num.add a b) : num_scope.
Notation "a - b" := (Num.sub a b) : num_scope.
Notation "a * b" := (Num.mul a b) : num_scope.
Notation "a / b" := (Num.div a b) : num_scope.
Notation "- a" := (Num.neg a) : num_scope.
Notation "a <? b" := (Num.ltb a b) : num_scope.
Notation "a <=? b" := (Num.leb a b) : num_scope.
Notation "a >? b" := (Num.gtb a b) : num_scope.
Notation "a >=? b" := (Num.geb a b) : num_scope.
Notation "a =? b" := (Num.eqb a b) : num_scope.

(** Modelled from the spec: the [clamp(v, lo, hi)] helper the pinch block
    calls is not among the sources; it has the meaning the specification
    gives it in the render budget of section 3, [v] brought into
    [[lo, hi]]. *)
Definition clamp (v lo hi : num) : num := Num.min hi (Num.max lo v).

(** * Touch gestures of [createInsideZoom]

    The two blocks the gesture plan adds to the touch [pointermove]
    handler: the single-finger pan ([activePointers.size === 1]) and the
    pinch ([activePointers.size === 2]). *)

(** [ZoomRange] of [createZoomState.ts]. *)
Record ZoomRange : Type := mkRange { rstart : num; rend : num }.

(** The [ZoomState] interface the handlers receive. *)
Class ZoomState (ZS : Type) : Type := {
  getRange : ZS -> ZoomRange;
  setRange : num -> num -> ZS -> ZS;
  zoomIn : num -> num -> ZS -> ZS;
  zoomOut : num -> num -> ZS -> ZS;
  pan : num -> ZS -> ZS
}.

(** A call issued on the zoom state. *)
Inductive Call : Type :=
| CPan (delta : num)
| CZoomIn (center factor : num)
| CZoomOut (center factor : num).

Definition isZoomIn (c : Call) : bool :=
  match c with CZoomIn _ _ => true | _ => false end.
Definition isZoomOut (c : Call) : bool :=
  match c with CZoomOut _ _ => true | _ => false end.
Definition isPan (c : Call) : bool :=
  match c with CPan _ => true | _ => false end.

(** [createMockZoomState] of the gesture tests: the range only changes
    through [setRange]; the other calls are recorded. *)
Record MockZoomState : Type := mkMock {
  range : ZoomRange;
  panCalls : list num;
  zoomInCalls : list (num * num);
  zoomOutCalls : list (num * num)
}.

#[export] Instance MockZoomState_ops : ZoomState MockZoomState := {
  getRange m := range m;
  setRange s e m :=
    mkMock (mkRange s e) (panCalls m) (zoomInCalls m) (zoomOutCalls m);
  zoomIn center factor m :=
    mkMock (range m) (panCalls m) (zoomInCalls m ++ [(center, factor)])
           (zoomOutCalls m);
  zoomOut center factor m :=
    mkMock (range m) (panCalls m) (zoomInCalls m)
           (zoomOutCalls m ++ [(center, factor)]);
  pan delta m :=
    mkMock (range m) (panCalls m ++ [delta]) (zoomInCalls m) (zoomOutCalls m)
}.

Definition createMockZoomState (initial : ZoomRange) : MockZoomState :=
  mkMock initial [] [] [].

(** A tracked pointer position, [{ x, y }]. *)
Record Pointer : Type := mkPointer { px : num; py : num }.

(** The fields of the last event-manager payload the handlers read. *)
Record LastPointer : Type := mkLastPointer {
  lp_x : num;
  lp_gridX : num;
  lp_plotWidthCss : num
}.

(** The fields of a [PointerEvent] the handlers read. *)
Record PointerEvent : Type := mkEvent {
  pointerId : Z;
  clientX : num;
  clientY : num
}.

(** [Map<number, {x, y}>]: keys in insertion order, as [values()] yields
    them. *)
Definition PointerMap : Type := list (Z * Pointer).

Fixpoint map_get (m : PointerMap) (k : Z) : option Pointer :=
  match m with
  | [] => None
  | (k', v) :: m' => if Z.eqb k' k then Some v else map_get m' k
  end.

(** [Map.set]: an existing key keeps its place, a new key goes last. *)
Fixpoint map_set (m : PointerMap) (k : Z) (v : Pointer) : PointerMap :=
  match m with
  | [] => [(k, v)]
  | (k', v') :: m' =>
      if Z.eqb k' k then (k, v) :: m' else (k', v') :: map_set m' k v
  end.

Definition map_has (m : PointerMap) (k : Z) : bool :=
  match map_get m k with Some _ => true | None => false end.

Definition map_values (m : PointerMap) : list Pointer := map snd m.

Definition map_size (m : PointerMap) : Z := Z.of_nat (length m).

Section Gestures.

Context {ZS : Type} `{ZoomState ZS}.

(** The closure state of [createInsideZoom] the touch handlers use, the
    canvas rectangle they query, and the calls issued so far on
    [zoomState] (oldest first). *)
Record TouchState : Type := mkTouch {
  activePointers : PointerMap;
  previousPinchDist : num;
  previousPinchMidX : num;
  lastPointer : option LastPointer;
  rectLeft : num;
  rectWidth : num;
  zoomState : ZS;
  issued : list Call
}.

Definition perform (c : Call) (z : ZS) : ZS :=
  match c with
  | CPan d => pan d z
  | CZoomIn c f => zoomIn c f z
  | CZoomOut c f => zoomOut c f z
  end.

Definition call (c : Call) (st : TouchState) : TouchState :=
  mkTouch (activePointers st) (previousPinchDist st) (previousPinchMidX st)
          (lastPointer st) (rectLeft st) (rectWidth st)
          (perform c (zoomState st)) (issued st ++ [c]).

Definition setPointers (m : PointerMap) (st : TouchState) : TouchState :=
  mkTouch m (previousPinchDist st) (previousPinchMidX st)
          (lastPointer st) (rectLeft st) (rectWidth st)
          (zoomState st) (issued st).

Definition setPinchRef (d m : num) (st : TouchState) : TouchState :=
  mkTouch (activePointers st) d m
          (lastPointer st) (rectLeft st) (rectWidth st)
          (zoomState st) (issued st).

(** The pan delta of the single-finger block. *)
Definition panDelta (dxCss plotWidthCss span : num) : num :=
  (- (dxCss / plotWidthCss) * span)%num.

(** [lastPointer?.plotWidthCss ?? 0] and the span of the current range. *)
Definition panPlotWidth (st : TouchState) : num :=
  match lastPointer st with
  | Some lp => lp_plotWidthCss lp
  | None => zero
  end.

Definition viewSpan (st : TouchState) : num :=
  let r := getRange (zoomState st) in (rend r - rstart r)%num.

(** Single-finger pan.  [None]: [activePointers.size === 1] is false and
    the block is skipped; [Some st']: the block ran and returned. *)
Definition touchPan (e : PointerEvent) (st : TouchState)
  : option TouchState :=
  if Z.eqb (map_size (activePointers st)) 1 then
    Some
      match map_get (activePointers st) (pointerId e) with
      | None => st
      | Some prev =>
          let dxCss := (clientX e - px prev)%num in
          let st1 :=
            setPointers
              (map_set (activePointers st) (pointerId e)
                       (mkPointer (clientX e) (clientY e))) st in
          if negb (isFinite dxCss) || (dxCss =? zero)%num then st1 else
          let plotWidthCss := panPlotWidth st in
          if negb (plotWidthCss >? zero)%num then st1 else
          let span := viewSpan st in
          if negb (isFinite span) || (span =? zero)%num then st1 else
          let deltaPct := panDelta dxCss plotWidthCss span in
          if negb (isFinite deltaPct) || (deltaPct =? zero)%num then st1 else
          call (CPan deltaPct) st1
      end
  else None.

(** The guards of the single-finger block that stop it before the pan
    delta is computed. *)
Definition panRefused (e : PointerEvent) (st : TouchState) : Prop :=
  match map_get (activePointers st) (pointerId e) with
  | None => True
  | Some prev =>
      let dxCss := (clientX e - px prev)%num in
      isFinite dxCss = false \/ (dxCss =? zero)%num = true \/
      (panPlotWidth st >? zero)%num = false \/
      isFinite (viewSpan st) = false \/ (viewSpan st =? zero)%num = true
  end.

(** The distance and the midpoint of the first two tracked pointers. *)
Definition pinchDist (m : PointerMap) : num :=
  match map_values m with
  | p1 :: p2 :: _ => hypot (px p1 - px p2)%num (py p1 - py p2)%num
  | _ => NaN
  end.

Definition pinchMidX (m : PointerMap) : num :=
  match map_values m with
  | p1 :: p2 :: _ => ((px p1 + px p2) / Fin 2)%num
  | _ => NaN
  end.

(** The pinch centre: the midpoint mapped into percent space. *)
Definition pinchCenterPct (midX : num) (st : TouchState) : num :=
  let gridLeft :=
    match lastPointer st with
    | Some lp => (lp_x lp - lp_gridX lp)%num
    | None => zero
    end in
  let plotWidthCss :=
    match lastPointer st with
    | Some lp => lp_plotWidthCss lp
    | None => rectWidth st
    end in
  let r := clamp ((midX - rectLeft st - gridLeft) / plotWidthCss)%num
                 zero one in
  let rg := getRange (zoomState st) in
  let span := (rend rg - rstart rg)%num in
  clamp (rstart rg + r * span)%num zero (Fin 100).

Definition pinchPlotWidth (st : TouchState) : num :=
  match lastPointer st with
  | Some lp => lp_plotWidthCss lp
  | None => rectWidth st
  end.

(** The zoom call of a pinch frame with a reference. *)
Definition pinchZoom (factor centerPct : num) (st : TouchState)
  : TouchState :=
  if (factor >? one)%num then call (CZoomOut centerPct factor) st
  else if (factor <? one)%num
       then call (CZoomIn centerPct (one / factor)%num) st
  else st.

(** The simultaneous pan of a pinch frame, from the midpoint shift. *)
Definition pinchPan (midX plotWidthCss span : num) (st : TouchState)
  : TouchState :=
  if (plotWidthCss >? zero)%num then
    let prevMidX := previousPinchMidX st in
    if isFinite prevMidX then
      let dxCss := (midX - prevMidX)%num in
      if isFinite dxCss && negb (dxCss =? zero)%num
         && isFinite span && (span >? zero)%num then
        let d := panDelta dxCss plotWidthCss span in
        if isFinite d && negb (d =? zero)%num then call (CPan d) st else st
      else st
    else st
  else st.

(** Pinch-to-zoom.  [None]: [activePointers.size === 2] is false. *)
Definition touchPinch (e : PointerEvent) (st : TouchState)
  : option TouchState :=
  if Z.eqb (map_size (activePointers st)) 2 then
    let st1 :=
      setPointers
        (map_set (activePointers st) (pointerId e)
                 (mkPointer (clientX e) (clientY e))) st in
    let currentDist := pinchDist (activePointers st1) in
    let midX := pinchMidX (activePointers st1) in
    let st2 :=
      if (previousPinchDist st1 >? zero)%num && (currentDist >? zero)%num then
        let factor := (previousPinchDist st1 / currentDist)%num in
        let centerPct := pinchCenterPct midX st1 in
        let rg := getRange (zoomState st1) in
        let span := (rend rg - rstart rg)%num in
        pinchPan midX (pinchPlotWidth st1) span
                 (pinchZoom factor centerPct st1)
      else st1 in
    Some (setPinchRef currentDist midX st2)
  else None.

(** The touch [pointerdown] listener on a touch that starts inside the
    grid, as the plan describes it (task 1, step 3, and the reset rule of
    task 3): the pointer is tracked, and adding a pointer resets the pinch
    reference to its initial values, [0] and [NaN]. *)
Definition touchPointerDown (e : PointerEvent) (st : TouchState)
  : TouchState :=
  setPinchRef zero NaN
    (setPointers
       (map_set (activePointers st) (pointerId e)
                (mkPointer (clientX e) (clientY e))) st).

(** A run of [pointermove] events through the pinch block; an event that
    finds the block disabled leaves the state as it is. *)
Fixpoint pinchMoves (es : list PointerEvent) (st : TouchState)
  : TouchState :=
  match es with
  | [] => st
  | e :: es' =>
      match touchPinch e st with
      | Some st' => pinchMoves es' st'
      | None => pinchMoves es' st
      end
  end.

(** The inter-contact distance after each event of a run. *)
Fixpoint pinchDists (es : list PointerEvent) (m : PointerMap) : list num :=
  match es with
  | [] => []
  | e :: es' =>
      let m' := map_set m (pointerId e) (mkPointer (clientX e) (clientY e)) in
      pinchDist m' :: pinchDists es' m'
  end.

End Gestures.

Arguments TouchState : clear implicits.

Definition countCalls (p : Call -> bool) (cs : list Call) : nat :=
  length (filter p cs).

(** The calls a step (or a run) added to those issued before it. *)
Definition newCalls {ZS : Type} (st st' : TouchState ZS) : list Call :=
  skipn (length (issued st)) (issued st').

Definition isZoom (c : Call) : bool := isZoomIn c || isZoomOut c.

(** The zoom call of a pinch frame with a reference, as a list. *)
Definition zoomCalls (factor centerPct : num) : list Call :=
  if (factor >? one)%num then [CZoomOut centerPct factor]
  else if (factor <? one)%num then [CZoomIn centerPct (one / factor)%num]
  else [].


(** The pointer map after the handler recorded the position of [e]. *)
Definition moved {ZS : Type} (e : PointerEvent) (st : TouchState ZS)
  : PointerMap :=
  map_set (activePointers st) (pointerId e)
          (mkPointer (clientX e) (clientY e)).

(** The centre a pinch frame zooms around. *)
Definition pinchCenter {ZS : Type} `{ZoomState ZS}
  (e : PointerEvent) (st : TouchState ZS) : num :=
  pinchCenterPct (pinchMidX (moved e st)) (setPointers (moved e st) st).

(** The scale factor of a pinch frame,
    [previousPinchDist / currentDist]. *)
Definition pinchFactor {ZS : Type} (e : PointerEvent) (st : TouchState ZS)
  : num :=
  (previousPinchDist st / pinchDist (moved e st))%num.

(** A previous-frame reference exists and the fingers are apart. *)
Definition hasReference {ZS : Type} (e : PointerEvent) (st : TouchState ZS)
  : Prop :=
  (previousPinchDist st >? zero)%num = true /\
  (pinchDist (moved e st) >? zero)%num = true.

(** The reading of the pinch step with [zoomIn] on a factor above one and
    [zoomOut] on a factor below one. *)
Definition zoomInOnFactorAboveOne {ZS : Type} `{ZoomState ZS}
  (e : PointerEvent) (st : TouchState ZS) : Prop :=
  forall st', touchPinch e st = Some st' -> hasReference e st ->
    ((pinchFactor e st >? one)%num = true <->
     existsb isZoomIn (newCalls st st') = true) /\
    ((pinchFactor e st <? one)%num = true <->
     existsb isZoomOut (newCalls st st') = true).

(** Chains of distances. *)
Fixpoint increasing (l : list num) : bool :=
  match l with
  | a :: (b :: _) as t => (a <? b)%num && increasing t
  | _ => true
  end.

Fixpoint decreasing (l : list num) : bool :=
  match l with
  | a :: (b :: _) as t => (a >? b)%num && decreasing t
  | _ => true
  end.

(** Every event of a run moves a contact that is tracked. *)
Definition tracked (es : list PointerEvent) (m : PointerMap) : Prop :=
  Forall (fun e => map_has m (pointerId e) = true) es.

(** A two-contact gesture: both contacts are down, the pinch reference is
    fresh, every event moves one of the two contacts, and the distance
    goes from [d0] to [d1] through the chain the events produce. *)
Definition twoContactRun {ZS : Type} (es : list PointerEvent)
  (st : TouchState ZS) (d0 d1 : num) : Prop :=
  map_size (activePointers st) = 2%Z /\
  previousPinchDist st = zero /\
  tracked es (activePointers st) /\
  (pinchDist (activePointers st) =? d0)%num = true /\
  (last (pinchDists es (activePointers st)) d0 =? d1)%num = true.

Definition spreading {ZS : Type} (es : list PointerEvent)
  (st : TouchState ZS) : Prop :=
  twoContactRun es st (Fin 100) (Fin 200) /\
  increasing (Fin 100 :: pinchDists es (activePointers st)) = true.

Definition pinching {ZS : Type} (es : list PointerEvent)
  (st : TouchState ZS) : Prop :=
  twoContactRun es st (Fin 200) (Fin 100) /\
  decreasing (Fin 200 :: pinchDists es (activePointers st)) = true.

(** The reading of a spreading gesture as always zooming in. *)
Definition spreadZoomsIn {ZS : Type} `{ZoomState ZS}
  (es : list PointerEvent) (st : TouchState ZS) : Prop :=
  spreading es st ->
  (1 <= countCalls isZoomIn (newCalls st (pinchMoves es st)))%nat /\
  countCalls isZoomOut (newCalls st (pinchMoves es st)) = 0%nat.

(** ** The scenes of the plan's gesture tests *)

Module GestureTests.

(** [makePayload()] as the event manager last reported it. *)
Definition payload : LastPointer :=
  mkLastPointer (Fin 400) (Fin 340) (Fin 720).

(** The state after [enable()] and one [mousemove], with the mock zoom
    state at [{ start: 20, end: 80 }]. *)
Definition idle : TouchState MockZoomState :=
  mkTouch [] zero NaN (Some payload) (Fin 0) (Fin 800)
          (createMockZoomState (mkRange (Fin 20) (Fin 80))) [].

Definition touch (id : Z) (x y : Z) : PointerEvent :=
  mkEvent id (ofZ x) (ofZ y).

(** Two fingers down 100px apart, and two fingers down 200px apart. *)
Definition down100 : TouchState MockZoomState :=
  touchPointerDown (touch 2 450 300)
    (touchPointerDown (touch 1 350 300) idle).

Definition down200 : TouchState MockZoomState :=
  touchPointerDown (touch 2 500 300)
    (touchPointerDown (touch 1 300 300) idle).

(** "zooms in when fingers spread apart": 100px to 200px in two events. *)
Definition spreadMoves : list PointerEvent :=
  [touch 1 300 300; touch 2 500 300].

(** "zooms out when fingers pinch together": 200px to 100px. *)
Definition pinchTogether : list PointerEvent :=
  [touch 1 350 300; touch 2 450 300].

(** The second finger alone moves out, 100px to 200px in one event. *)
Definition spreadAtOnce : list PointerEvent := [touch 2 550 300].

(** The pinching gesture after its first event: the reference frame is
    recorded (150px), and the second finger is about to move in. *)
Definition closing : TouchState MockZoomState :=
  pinchMoves [touch 1 350 300] down200.

Definition closingMove : PointerEvent := touch 2 450 300.

(** "pans on single-finger horizontal drag": one finger down at x = 400,
    about to move 30px to the right. *)
Definition oneFinger : TouchState MockZoomState :=
  touchPointerDown (touch 1 400 300) idle.

Definition dragRight : PointerEvent := touch 1 430 300.

End GestureTests.

(** * Aggregate downsampling ([sampleSeries.ts]) *)

(** A [DataPoint] is a tuple [[x, y, size?]] or an object
    [{ x, y, size? }]. *)
Inductive DataPoint : Type :=
| PTuple (x y : num) (size : option num)
| PObject (x y : num) (size : option num).

Definition getXY (point : DataPoint) : num * num :=
  match point with
  | PTuple x y _ => (x, y)
  | PObject x y _ => (x, y)
  end.

Definition getSize (point : DataPoint) : option num :=
  match point with
  | PTuple _ _ s => s
  | PObject _ _ s => s
  end.

Definition pointX (p : DataPoint) : num := fst (getXY p).
Definition pointY (p : DataPoint) : num := snd (getXY p).

(** [Math.floor(targetPoints)], or [0] when that is not finite. *)
Definition clampTargetPoints (targetPoints : num) : Z :=
  match Num.floor targetPoints with
  | Fin t => Qfloor t
  | _ => 0
  end.

Inductive BucketMode : Type := Average | Max | Min.

(** [data[i]!]: reading outside the array yields [undefined], on which
    [getXY] throws; the model fails with [None]. *)
Definition at_ (data : list DataPoint) (i : Z) : option DataPoint :=
  if (i <? 0)%Z then None else nth_error data (Z.to_nat i).

(** The indices [lo, lo + 1, ..., hi - 1] a [for] loop visits. *)
Definition zrange (lo hi : Z) : list Z :=
  map (fun k => (lo + Z.of_nat k)%Z) (seq 0 (Z.to_nat (hi - lo))).

Definition bind {A B : Type} (a : option A) (f : A -> option B) : option B :=
  match a with
  | Some x => f x
  | None => None
  end.

Notation "x <- a ;; b" := (bind a (fun x => b))
  (at level 61, a at next level, right associativity).

(** A loop whose body may throw. *)
Fixpoint foldM {A S : Type} (f : S -> A -> option S) (l : list A) (s : S)
  : option S :=
  match l with
  | [] => Some s
  | a :: l' => s' <- f s a ;; foldM f l' s'
  end.

Fixpoint mapM {A B : Type} (f : A -> option B) (l : list A)
  : option (list B) :=
  match l with
  | [] => Some []
  | a :: l' => b <- f a ;; bs <- mapM f l' ;; Some (b :: bs)
  end.

(** The index range [[rangeStart, rangeEndExclusive)] of a bucket. *)
Definition bucketRange (n threshold bucket : Z) : Z * Z :=
  let lastIndex := (n - 1)%Z in
  let bucketSize : Q := inject_Z (n - 2) / inject_Z (threshold - 2) in
  let rangeStart := (Qfloor (bucketSize * inject_Z bucket) + 1)%Z in
  let rangeEndExclusive :=
    Z.min (Qfloor (bucketSize * inject_Z (bucket + 1)) + 1) lastIndex in
  if (rangeStart >=? rangeEndExclusive)%Z then
    let rangeStart' := Z.min rangeStart (lastIndex - 1) in
    (rangeStart', Z.min (rangeStart' + 1) lastIndex)
  else (rangeStart, rangeEndExclusive).

(** The running sums of the [average] loop. *)
Record AvgAcc : Type := mkAvg {
  sumX : num;
  sumY : num;
  sumSize : num;
  count : Z;
  sizeCount : Z
}.

Definition avgInit : AvgAcc := mkAvg zero zero zero 0 0.

Definition avgPoint (acc : AvgAcc) (p : DataPoint) : AvgAcc :=
  let (x, y) := getXY p in
  if negb (isFinite x) || negb (isFinite y) then acc
  else
    let sx := (sumX acc + x)%num in
    let sy := (sumY acc + y)%num in
    let c := (count acc + 1)%Z in
    match getSize p with
    | Some size =>
        if isFinite size
        then mkAvg sx sy (sumSize acc + size)%num c (sizeCount acc + 1)%Z
        else mkAvg sx sy (sumSize acc) c (sizeCount acc)
    | None => mkAvg sx sy (sumSize acc) c (sizeCount acc)
    end.

Definition avgStep (data : list DataPoint) (acc : AvgAcc) (i : Z)
  : option AvgAcc :=
  p <- at_ data i ;; Some (avgPoint acc p).

Definition avgChosen (acc : AvgAcc) : option DataPoint :=
  if (count acc >? 0)%Z then
    let avgX := (sumX acc / ofZ (count acc))%num in
    let avgY := (sumY acc / ofZ (count acc))%num in
    if (sizeCount acc >? 0)%Z
    then Some (PTuple avgX avgY (Some (sumSize acc / ofZ (sizeCount acc))%num))
    else Some (PTuple avgX avgY None)
  else None.

(** The state of the [max] / [min] loop: [bestY] and [chosen]. *)
Definition ExtAcc : Type := (num * option DataPoint)%type.

Definition extInit (mode : BucketMode) : ExtAcc :=
  match mode with
  | Max => (NInf, None)
  | _ => (PInf, None)
  end.

Definition extPoint (mode : BucketMode) (acc : ExtAcc) (p : DataPoint)
  : ExtAcc :=
  let y := snd (getXY p) in
  if negb (isFinite y) then acc
  else
    match mode with
    | Max => if (y >? fst acc)%num then (y, Some p) else acc
    | _ => if (y <? fst acc)%num then (y, Some p) else acc
    end.

Definition extStep (mode : BucketMode) (data : list DataPoint)
  (acc : ExtAcc) (i : Z) : option ExtAcc :=
  p <- at_ data i ;; Some (extPoint mode acc p).

(** [chosen] after the loop over one bucket. *)
Definition bucketChosen (data : list DataPoint) (mode : BucketMode)
  (rangeStart rangeEndExclusive : Z) : option (option DataPoint) :=
  match mode with
  | Average =>
      acc <- foldM (avgStep data) (zrange rangeStart rangeEndExclusive)
                   avgInit ;;
      Some (avgChosen acc)
  | _ =>
      acc <- foldM (extStep mode data) (zrange rangeStart rangeEndExclusive)
                   (extInit mode) ;;
      Some (snd acc)
  end.

(** [out[bucket + 1]]: [chosen ?? data[rangeStart]!]. *)
Definition bucketOut (data : list DataPoint) (n threshold : Z)
  (mode : BucketMode) (bucket : Z) : option DataPoint :=
  let (rangeStart, rangeEndExclusive) := bucketRange n threshold bucket in
  chosen <- bucketChosen data mode rangeStart rangeEndExclusive ;;
  match chosen with
  | Some p => Some p
  | None => at_ data rangeStart
  end.

Definition sampleByBuckets (data : list DataPoint) (targetPoints : num)
  (mode : BucketMode) : option (list DataPoint) :=
  let n := Z.of_nat (length data) in
  let threshold := clampTargetPoints targetPoints in
  if (threshold <=? 0)%Z || (n =? 0)%Z then Some []
  else if (threshold =? 1)%Z then
    p <- at_ data 0 ;; Some [p]
  else if (threshold =? 2)%Z then
    if (n >=? 2)%Z
    then p <- at_ data 0 ;; q <- at_ data (n - 1) ;; Some [p; q]
    else p <- at_ data 0 ;; Some [p]
  else if (n <=? threshold)%Z then Some data
  else
    let lastIndex := (n - 1)%Z in
    first <- at_ data 0 ;;
    last <- at_ data lastIndex ;;
    mids <- mapM (bucketOut data n threshold mode)
                 (zrange 0 (threshold - 2)) ;;
    Some (first :: mids ++ [last]).

Inductive SeriesSampling : Type :=
| SNone
| SLttb
| SAverage
| SMax
| SMin
| SOther.

Section SampleSeries.

(** [lttbSample] lives in [lttbSample.ts], which is not among the
    sources: it is a parameter of the entry point. *)
Variable lttbSample : list DataPoint -> num -> option (list DataPoint).

Definition sampleSeriesDataPoints (data : list DataPoint)
  (sampling : SeriesSampling) (samplingThreshold : num)
  : option (list DataPoint) :=
  let threshold := clampTargetPoints samplingThreshold in
  match sampling with
  | SNone => Some data
  | _ =>
      if negb (threshold >? 0)%Z then Some data
      else if (Z.of_nat (length data) <=? threshold)%Z then Some data
      else
        match sampling with
        | SLttb => lttbSample data (ofZ threshold)
        | SAverage => sampleByBuckets data (ofZ threshold) Average
        | SMax => sampleByBuckets data (ofZ threshold) Max
        | SMin => sampleByBuckets data (ofZ threshold) Min
        | _ => Some data
        end
  end.

End SampleSeries.

(** ** What a bucket yields, as a function of its points *)

(** The points [data[from]], ..., [data[to - 1]]. *)
Definition slice (data : list DataPoint) (from to : Z) : list DataPoint :=
  firstn (Z.to_nat (to - from)) (skipn (Z.to_nat from) data).

(** [chosen] for a bucket holding the points [pts]. *)
Definition chosenOf (mode : BucketMode) (pts : list DataPoint)
  : option DataPoint :=
  match mode with
  | Average => avgChosen (fold_left avgPoint pts avgInit)
  | _ => snd (fold_left (extPoint mode) pts (extInit mode))
  end.

(** A point the bucket loop skips. *)
Definition excluded (mode : BucketMode) (p : DataPoint) : bool :=
  match mode with
  | Average => negb (isFinite (pointX p)) || negb (isFinite (pointY p))
  | _ => negb (isFinite (pointY p))
  end.

(** The points of a bucket the [average] loop does not skip. *)
Definition contributing (pts : list DataPoint) : list DataPoint :=
  filter (fun p => negb (excluded Average p)) pts.

(** [a] is at least as good as [b] for the mode, and strictly better:
    larger for [max], smaller for [min]. *)
Definition atLeast (mode : BucketMode) (a b : num) : bool :=
  match mode with
  | Max => (b <=? a)%num
  | _ => (a <=? b)%num
  end.

Definition better (mode : BucketMode) (a b : num) : bool :=
  match mode with
  | Max => (b <? a)%num
  | _ => (a <? b)%num
  end.

(** The point a bucket contributes to the output: [chosen], or the point
    at the start of its range. *)
Definition bucketPoint (data : list DataPoint) (n threshold : Z)
  (mode : BucketMode) (fallback : DataPoint) (bucket : Z) : DataPoint :=
  let (rangeStart, rangeEndExclusive) := bucketRange n threshold bucket in
  match chosenOf mode (slice data rangeStart rangeEndExclusive) with
  | Some p => p
  | None => nth (Z.to_nat rangeStart) data fallback
  end.

(** [p], at index [i], is the first of the best points of the index
    range [[from, to)]: its y is finite, no finite y of the range is
    better, and every finite y before it is strictly worse. *)
Definition firstBest (mode : BucketMode) (data : list DataPoint)
  (from to i : Z) (p : DataPoint) : Prop :=
  (from <= i < to)%Z /\ at_ data i = Some p /\
  isFinite (pointY p) = true /\
  forall j q, (from <= j < to)%Z -> at_ data j = Some q ->
    isFinite (pointY q) = true ->
    atLeast mode (pointY p) (pointY q) = true /\
    ((j < i)%Z -> better mode (pointY p) (pointY q) = true).

(** The same on the list of the points of a bucket. *)
Definition extremeOf (mode : BucketMode) (pts : list DataPoint)
  (i : nat) (p : DataPoint) : Prop :=
  nth_error pts i = Some p /\ isFinite (pointY p) = true /\
  forall j q, nth_error pts j = Some q -> isFinite (pointY q) = true ->
    atLeast mode (pointY p) (pointY q) = true /\
    ((j < i)%nat -> better mode (pointY p) (pointY q) = true).

(** The finite magnitudes among [sizes], and the mean of a list as the
    [average] loop computes it. *)
Definition finiteSizes (sizes : list (option num)) : list num :=
  flat_map (fun s => match s with
                     | Some v => if isFinite v then [v] else []
                     | None => []
                     end) sizes.

Definition mean (l : list num) : option num :=
  match l with
  | [] => None
  | _ => Some (fold_left Num.add l zero / ofZ (Z.of_nat (length l)))%num
  end.

(** The bucket mode of an aggregate sampling. *)
Definition aggregate (sampling : SeriesSampling) : option BucketMode :=
  match sampling with
  | SAverage => Some Average
  | SMax => Some Max
  | SMin => Some Min
  | _ => None
  end.

(** ** The reading of the degenerate targets *)

(** "A target of at most one returns only the first source point." *)
Definition firstPointBelowTwo
  (sample : list DataPoint -> num -> option (list DataPoint))
  (data : list DataPoint) (targetPoints : num) : Prop :=
  (clampTargetPoints targetPoints <= 1)%Z ->
  sample data targetPoints = Some (firstn 1 data).

(** A stand-in for [lttbSample] where the aggregate modes are sampled. *)
Definition noLttb (data : list DataPoint) (threshold : num)
  : option (list DataPoint) := None.

(** ** The data of the acceptance checks ([sampling-config.ts]) *)

Module SamplingConfig.

Definition xy (k : Z) : DataPoint := PTuple (ofZ k) (ofZ k) None.
Definition xys (k : Z) : DataPoint :=
  PTuple (ofZ k) (ofZ k) (Some (ofZ (k + 1))).

(** [[0, 0], [1, 1], ..., [9, 9]] *)
Definition plain : list DataPoint := map xy (zrange 0 10).

(** [[0, 0, 1], [1, 1, 2], ..., [9, 9, 10]] *)
Definition sized : list DataPoint := map xys (zrange 0 10).

(** The ten points [(k, k)] with the given sizes attached. *)
Definition withSizes (sizes : list (option num)) : list DataPoint :=
  map (fun ks => PTuple (ofZ (fst ks)) (ofZ (fst ks)) (snd ks))
      (combine (zrange 0 10) sizes).

(** The ten points with the y of the points 1 and 2 missing. *)
Definition gap : list DataPoint :=
  map (fun k => if ((k =? 1) || (k =? 2))%Z
                then PTuple (ofZ k) NaN None else xy k) (zrange 0 10).

(** Ten points whose y rises and falls, with a tie and a missing value. *)
Definition ridge : list DataPoint :=
  map (fun ky => PObject (ofZ (fst ky)) (snd ky) None)
      (combine (zrange 0 10)
         [Fin 0; Fin 4; Fin 4; NaN; Fin 7; Fin 7; Fin 2; Fin 5; PInf; Fin 1]).

End SamplingConfig.

(** * The zoom window ([createZoomState]) *)

Module ViewportState.

(** Modelled from the spec: [createZoomState.ts] is not among the sources;
    [set_range] follows section 4.1 of the specification word for word:
    malformed input leaves the range unchanged; otherwise both bounds are
    clamped into [[0, 100]], reordered, and a span below [MIN_SPAN] is
    expanded symmetrically around the requested centre, the window being
    shifted inward where the expansion would leave [[0, 100]].  The change
    notification fires unless the resulting range is identical to the
    previous one. *)
Record State : Type := mkState {
  current : ZoomRange;
  minSpan : num;
  notified : nat
}.

Definition DEFAULT_MIN_SPAN : num := Fin (1 # 2).

Definition create (start end_ : num) : State :=
  mkState (mkRange start end_) DEFAULT_MIN_SPAN 0.

Definition get_range (st : State) : ZoomRange := current st.

(** Modelled from the spec: "reorders if [start > end]". *)
Definition ordered (s e : num) : num * num :=
  if (s >? e)%num then (e, s) else (s, e).

(** Modelled from the spec: "enforces minimum span by symmetrically
    expanding around the requested center if the requested span is below
    [MIN_SPAN]; if the expansion would exceed [[0, 100]], the window is
    shifted inward instead of clamped-and-shrunk". *)
Definition withMinSpan (m : num) (se : num * num) : num * num :=
  let (s, e) := se in
  if (e - s <? m)%num then
    let center := ((s + e) / Fin 2)%num in
    let half := (m / Fin 2)%num in
    let lo := (center - half)%num in
    let hi := (center + half)%num in
    if (lo <? zero)%num then (zero, m)
    else if (hi >? Fin 100)%num then ((Fin 100 - m)%num, Fin 100)
    else (lo, hi)
  else (s, e).

(** Modelled from the spec: "bit-identical to the previous one". *)
Definition sameRange (a b : ZoomRange) : bool :=
  (rstart a =? rstart b)%num && (rend a =? rend b)%num.

(** Modelled from the spec: [set_range(start, end)] of section 4.1. *)
Definition set_range (start end_ : num) (st : State) : State :=
  if negb (isFinite start) || negb (isFinite end_) then st
  else
    let (s, e) :=
      withMinSpan (minSpan st)
        (ordered (clamp start zero (Fin 100)) (clamp end_ zero (Fin 100))) in
    let next := mkRange s e in
    if sameRange next (current st) then st
    else mkState next (minSpan st) (S (notified st)).

(** The names the chart instance exposes (section 6). *)
Definition get_viewport : State -> ZoomRange := get_range.
Definition set_viewport : num -> num -> State -> State := set_range.

(** The range invariant of section 3, for a state whose range is as the
    comparison [===] sees it. *)
Definition rangeOk (m : num) (r : ZoomRange) : Prop :=
  (rend r - rstart r >=? m)%num = true /\
  (zero <=? rstart r)%num = true /\ (rstart r <=? Fin 100)%num = true /\
  (zero <=? rend r)%num = true /\ (rend r <=? Fin 100)%num = true.

(** A configured minimum span is a positive share of the domain. *)
Definition minSpanOk (m : num) : Prop :=
  (zero <? m)%num = true /\ (m <=? Fin 100)%num = true.

End ViewportState.

(** * The render scheduler ([RenderScheduler]) *)

Module FrameCoalescer.

(** Modelled from the spec: [RenderScheduler.ts] is not among the sources;
    the model follows section 4.3 and the design note of section 9:
    "schedule at most one pending wake-up; additional requests before it
    fires are no-ops; the wake-up, when it fires, clears the pending flag
    before running the callback so a callback-triggered re-request
    schedules a genuinely new wake-up".  [scheduled] counts the wake-ups
    asked of the host, [passes] the recomputation passes run. *)
Record State : Type := mkState {
  running : bool;
  pending : bool;
  scheduled : nat;
  passes : nat
}.

Definition create : State := mkState false false 0 0.

Definition start (st : State) : State :=
  mkState true (pending st) (scheduled st) (passes st).

(** [stop] cancels the pending wake-up and makes later passes inert. *)
Definition stop (st : State) : State :=
  mkState false false (scheduled st) (passes st).

(** Modelled from the spec: [request()], a no-op while a wake-up is
    pending. *)
Definition request (st : State) : State :=
  if pending st then st
  else mkState (running st) true (S (scheduled st)) (passes st).

(** [k] calls of [request()] in a row. *)
Fixpoint requests (k : nat) (st : State) : State :=
  match k with
  | O => st
  | S k' => requests k' (request st)
  end.

(** Modelled from the spec: one display refresh.  A pending wake-up
    fires: the flag is cleared, then the pass runs; the pass itself calls
    [request()] [again] times.  Nothing happens on a refresh without a
    pending wake-up, and a stopped scheduler runs no pass. *)
Definition tick (again : nat) (st : State) : State :=
  if pending st then
    let st1 := mkState (running st) false (scheduled st) (passes st) in
    if running st1 then
      requests again
        (mkState (running st1) (pending st1) (scheduled st1) (S (passes st1)))
    else st1
  else st.

End FrameCoalescer.

(** * The sorted-range slicer ([sliceVisibleRangeByOHLC]) *)

Module RangeSlicer.

(** Modelled from the spec: the slicer and its bound searches
    ([lowerBoundTimestampTuple], [upperBoundTimestampTuple], ...) are in
    [createRenderCoordinator.ts], which is not among the sources; the
    model follows section 4.4: a linear scan verifies that the series is
    non-decreasing (and finite) in x; if it is, a binary search finds the
    first index with [x >= min] and the first index with [x > max] and the
    half-open index range is returned; if it is not, a linear scan
    collects the indices whose x falls in [[min, max]]. *)
Fixpoint isMonotonicNonDecreasingFinite (xs : list num) : bool :=
  match xs with
  | [] => true
  | x :: rest =>
      isFinite x &&
      match rest with
      | [] => true
      | y :: _ => (x <=? y)%num
      end &&
      isMonotonicNonDecreasingFinite rest
  end.

(** Modelled from the spec: the binary search loop of the two bound
    searches, which halves [[lo, hi)] until it is empty; for a [p] that
    holds on a prefix it ends at the first index at which [p] no longer
    holds. *)
Equations? search (p : nat -> bool) (lo hi : nat) : nat
  by wf (hi - lo)%nat lt :=
  search p lo hi with lt_dec lo hi := {
    | left _ with p ((lo + hi) / 2)%nat := {
        | true => search p (S ((lo + hi) / 2)) hi
        | false => search p lo ((lo + hi) / 2)%nat }
    | right _ => lo }.
Proof.
  all: change (fst (Nat.divmod (lo + hi) 1 0 1)) with ((lo + hi) / 2)%nat;
    pose proof (Nat.div_mod_eq (lo + hi) 2) as Hd;
    pose proof (Nat.mod_upper_bound (lo + hi) 2 ltac:(lia)) as Hm; lia.
Qed.

(** Modelled from the spec: the lower bound, the first index with
    [x >= min]. *)
Definition lowerBound (xs : list num) (min : num) : nat :=
  search (fun i => (nth i xs NaN <? min)%num) 0 (length xs).

(** Modelled from the spec: the upper bound, the first index with
    [x > max]. *)
Definition upperBound (xs : list num) (max : num) : nat :=
  search (fun i => (nth i xs NaN <=? max)%num) 0 (length xs).

(** The result: a half-open index range, or an explicit index list. *)
Inductive Visible : Type :=
| VRange (from to : nat)
| VIndices (idx : list nat).

Definition inWindow (min max x : num) : bool :=
  (min <=? x)%num && (x <=? max)%num.

Fixpoint scan (min max : num) (xs : list num) (i : nat) : list nat :=
  match xs with
  | [] => []
  | x :: rest =>
      if inWindow min max x then i :: scan min max rest (S i)
      else scan min max rest (S i)
  end.

(** Modelled from the spec: the slicer of section 4.4 on the x column of
    the series. *)
Definition sliceVisible (xs : list num) (min max : num) : Visible :=
  if isMonotonicNonDecreasingFinite xs
  then VRange (lowerBound xs min) (upperBound xs max)
  else VIndices (scan min max xs 0).

(** The points a result selects from the series. *)
Definition select {A : Type} (series : list A) (v : Visible) : list A :=
  match v with
  | VRange from to => skipn from (firstn to series)
  | VIndices idx =>
      flat_map (fun i => match nth_error series i with
                         | Some a => [a]
                         | None => []
                         end) idx
  end.

(** Seven stamps with ties at 100 and at 200. *)
Definition stamps : list num :=
  [Fin 0; Fin 100; Fin 100; Fin 150; Fin 200; Fin 200; Fin 250].

End RangeSlicer.

(** ** Where the buckets lie, and the order of a series in x *)

(** [rangeStart] of a bucket as the loop computes it first:
    [Math.floor(bucketSize * bucket) + 1]. *)
Definition bucketStart (n threshold bucket : Z) : Z :=
  (Qfloor (inject_Z (n - 2) / inject_Z (threshold - 2) * inject_Z bucket)
   + 1)%Z.

(** The x of the points never decreases along the series. *)
Definition leX (p q : DataPoint) : Prop :=
  (pointX p <=? pointX q)%num = true.

Definition ascendingX (l : list DataPoint) : Prop := StronglySorted leX l.

(** The same as a test on neighbours. *)
Fixpoint ascendingXb (l : list DataPoint) : bool :=
  match l with
  | [] => true
  | p :: rest =>
      match rest with
      | [] => true
      | q :: _ => (pointX p <=? pointX q)%num
      end && ascendingXb rest
  end.

(** The output reads the series at the indices [idx], in this order. *)
Definition readsAt (data : list DataPoint) (idx : list Z)
  (out : list DataPoint) : Prop :=
  Forall2 (fun i p => at_ data i = Some p) idx out.

(** * The zoom reset button ([createZoomResetButton.ts]) *)

Module ZoomResetButton.

(** The fields of [ThemeConfig] the button reads. *)
Record ThemeConfig : Type := mkTheme {
  backgroundColor : String.string;
  textColor : String.string
}.

(** [el.style.display], which the button sets to ['none'] or ['flex']. *)
Inductive Display : Type := DisplayNone | DisplayFlex.

Definition isFullRange (start end_ : num) : bool :=
  (start <=? Fin (1 # 100))%num && (end_ >=? Fin (9999 # 100))%num.

(** The button with the zoom state it is attached to.  The zoom state is
    [createMockZoomState] of the button's tests: [range], [lastSetRange]
    and the subscribers, of which the button's callback is the only one;
    the rest is the closure of [createZoomResetButton] ([disposed],
    [touchCapable]) and what it does to the DOM: the style of [el], the
    click listener, and [el] being a child of the container. *)
Record World : Type := mkWorld {
  range : ZoomRange;
  lastSetRange : option ZoomRange;
  subscribed : bool;
  disposed : bool;
  touchCapable : bool;
  display : Display;
  background : String.string;
  color : String.string;
  listening : bool;
  attached : bool
}.

Definition setDisplay (d : Display) (w : World) : World :=
  mkWorld (range w) (lastSetRange w) (subscribed w) (disposed w)
          (touchCapable w) d (background w) (color w) (listening w)
          (attached w).

(** [applyTheme] *)
Definition applyTheme (t : ThemeConfig) (w : World) : World :=
  mkWorld (range w) (lastSetRange w) (subscribed w) (disposed w)
          (touchCapable w) (display w)
          (String.append (backgroundColor t) "cc") (textColor t)
          (listening w) (attached w).

(** [updateVisibility] *)
Definition updateVisibility (w : World) : World :=
  if negb (touchCapable w) then setDisplay DisplayNone w
  else
    let r := range w in
    setDisplay (if isFullRange (rstart r) (rend r)
                then DisplayNone else DisplayFlex) w.

(** The callback the button passes to [zoomState.onChange]. *)
Definition onChange (w : World) : World :=
  if disposed w then w else updateVisibility w.

(** [subs.forEach(cb => cb(range))] of the mock. *)
Definition notify (w : World) : World :=
  if subscribed w then onChange w else w.

(** [triggerChange(r)] and [setRange(s, e)] of the mock. *)
Definition triggerChange (r : ZoomRange) (w : World) : World :=
  notify
    (mkWorld r (lastSetRange w) (subscribed w) (disposed w)
             (touchCapable w) (display w) (background w) (color w)
             (listening w) (attached w)).

Definition setRange (s e : num) (w : World) : World :=
  notify
    (mkWorld (mkRange s e) (Some (mkRange s e)) (subscribed w) (disposed w)
             (touchCapable w) (display w) (background w) (color w)
             (listening w) (attached w)).

(** [onClick], and a click on [el], which runs it while the listener is
    registered. *)
Definition onClick (w : World) : World :=
  if disposed w then w else setRange zero (Fin 100) w.

Definition click (w : World) : World :=
  if listening w then onClick w else w.

(** [update(theme)] and [dispose()] of the returned object. *)
Definition update (t : ThemeConfig) (w : World) : World :=
  if disposed w then w else applyTheme t w.

Definition dispose (w : World) : World :=
  if disposed w then w
  else mkWorld (range w) (lastSetRange w) false true (touchCapable w)
               (display w) (background w) (color w) false false.

(** [createZoomResetButton(container, zoomState, theme)] on a mock zoom
    state at [initial], on a device that is touch capable or not. *)
Definition createZoomResetButton (touch : bool) (initial : ZoomRange)
  (theme : ThemeConfig) : World :=
  let el :=
    mkWorld initial None false false touch DisplayNone
            String.EmptyString String.EmptyString false false in
  let themed := updateVisibility (applyTheme theme el) in
  mkWorld (range themed) (lastSetRange themed) true (disposed themed)
          (touchCapable themed) (display themed) (background themed)
          (color themed) true true.

(** What can happen to the button and its zoom state. *)
Inductive Event : Type :=
| Click
| Update (t : ThemeConfig)
| Dispose
| SetRange (s e : num)
| TriggerChange (r : ZoomRange).

Definition step (w : World) (ev : Event) : World :=
  match ev with
  | Click => click w
  | Update t => update t w
  | Dispose => dispose w
  | SetRange s e => setRange s e w
  | TriggerChange r => triggerChange r w
  end.

Definition run (evs : list Event) (w : World) : World :=
  fold_left step evs w.

(** What the button should show for a range. *)
Definition shown (touch : bool) (r : ZoomRange) : Display :=
  if touch && negb (isFullRange (rstart r) (rend r))
  then DisplayFlex else DisplayNone.

(** The events that come from the button's own interface. *)
Definition ofButton (ev : Event) : bool :=
  match ev with
  | Click | Update _ | Dispose => true
  | _ => false
  end.

End ZoomResetButton.

(** * Packing points for the GPU ([packDataPoints.ts]) *)

Module PackDataPoints.

(** The JavaScript values the packers meet at run time: they validate
    their input, so a point need not be a [DataPoint].  A coordinate is
    [undefined], [null], a number, or some other value; a point is
    [null], [undefined], an array, an object, or some other value; the
    argument is [null], [undefined], another falsy value, an array, or
    some other truthy value. *)
Inductive Value : Type :=
| VUndefined
| VNull
| VNumber (v : num)
| VOther.

Inductive Point : Type :=
| PNull
| PUndefined
| PArray (elems : list Value)
| PObject (fields : list (string * Value))
| POther.

Inductive Input : Type :=
| INull
| IUndefined
| IFalsy
| INotArray
| IArray (points : list Point).

(** [typeof v === 'number'] ([NaN] and the infinities are numbers). *)
Definition isNumber (v : Value) : bool :=
  match v with VNumber _ => true | _ => false end.

(** [Array.isArray(point)] *)
Definition isArray (point : Point) : bool :=
  match point with PArray _ => true | _ => false end.

(** [!points] *)
Definition falsy (points : Input) : bool :=
  match points with
  | INull | IUndefined | IFalsy => true
  | _ => false
  end.

Fixpoint lookup (fields : list (string * Value)) (name : string) : Value :=
  match fields with
  | [] => VUndefined
  | (k, v) :: rest => if String.eqb k name then v else lookup rest name
  end.

(** [point[i]] and [point.name] on a point that is neither [null] nor
    [undefined]: a missing element or property is [undefined]. *)
Definition index (point : Point) (i : nat) : Value :=
  match point with
  | PArray elems => nth i elems VUndefined
  | _ => VUndefined
  end.

Definition prop (point : Point) (name : string) : Value :=
  match point with
  | PObject fields => lookup fields name
  | _ => VUndefined
  end.

(** What the packers throw. *)
Inductive Exception : Type :=
| TypeError_required
| TypeError_notArray
| RangeError_tooLarge (length : nat)
| TypeError_point (i : nat)
| TypeError_coordinates (i : nat)
| TypeError_tuple (i : nat) (length : nat)
| TypeError_values (i : nat).

Definition isRangeError (e : Exception) : bool :=
  match e with RangeError_tooLarge _ => true | _ => false end.

Inductive Result (A : Type) : Type :=
| Ok (a : A)
| Throw (e : Exception).

Arguments Ok {A} a.
Arguments Throw {A} e.

(** A [for (let i = 0; i < n; i++)] loop whose body may throw. *)
Fixpoint forLoop {S : Type} (body : S -> nat -> Result S) (i count : nat)
  (s : S) : Result S :=
  match count with
  | O => Ok s
  | Datatypes.S count' =>
      match body s i with
      | Ok s' => forLoop body (Datatypes.S i) count' s'
      | Throw e => Throw e
      end
  end.

(** [f32[k] = v]: a write outside a typed array is ignored. *)
Fixpoint write (f32 : list num) (k : nat) (v : num) : list num :=
  match f32, k with
  | [], _ => []
  | _ :: rest, O => v :: rest
  | a :: rest, Datatypes.S k' => a :: write rest k' v
  end.

Definition MAX_POINTS_XY : Z := 268435456.
Definition MAX_POINTS_OHLC : Z := 107374182.

Section Packers.

(** The rounding of a number stored into a [Float32Array]
    ([Math.fround]), which the number model does not define. *)
Variable fround : num -> num.

Definition numberOf (v : Value) : num :=
  match v with VNumber n => n | _ => NaN end.

(** The body of the loop of [packDataPoints]. *)
Definition packPoint (points : list Point) (f32 : list num) (i : nat)
  : Result (list num) :=
  let point := nth i points PUndefined in
  match point with
  | PNull | PUndefined => Throw (TypeError_point i)
  | _ =>
      let x := if isArray point then index point 0 else prop point "x" in
      let y := if isArray point then index point 1 else prop point "y" in
      if negb (isNumber x) || negb (isNumber y)
      then Throw (TypeError_coordinates i)
      else
        Ok (write (write f32 (i * 2 + 0) (fround (numberOf x)))
                  (i * 2 + 1) (fround (numberOf y)))
  end.

Definition packDataPoints (points : Input) : Result (list num) :=
  if falsy points then Throw TypeError_required
  else
    match points with
    | IArray pts =>
        if Nat.eqb (length pts) 0 then Ok []
        else if (Z.of_nat (length pts) >? MAX_POINTS_XY)%Z
        then Throw (RangeError_tooLarge (length pts))
        else
          let f32 := repeat zero (length pts * 2 * 4 / 4) in
          forLoop (packPoint pts) 0 (length pts) f32
    | _ => Throw TypeError_notArray
    end.

(** The body of the loop of [packOHLCDataPoints]. *)
Definition packOHLCPoint (points : list Point) (f32 : list num) (i : nat)
  : Result (list num) :=
  let point := nth i points PUndefined in
  let store (timestamp open high low close : Value) :=
    write (write (write (write (write f32
      (i * 5 + 0) (fround (numberOf timestamp)))
      (i * 5 + 1) (fround (numberOf open)))
      (i * 5 + 2) (fround (numberOf high)))
      (i * 5 + 3) (fround (numberOf low)))
      (i * 5 + 4) (fround (numberOf close)) in
  match point with
  | PNull | PUndefined => Throw (TypeError_point i)
  | PArray elems =>
      if negb (Nat.eqb (length elems) 5)
      then Throw (TypeError_tuple i (length elems))
      else
        let timestamp := index point 0 in
        let open := index point 1 in
        let close := index point 2 in
        let low := index point 3 in
        let high := index point 4 in
        if negb (isNumber timestamp) || negb (isNumber open)
           || negb (isNumber close) || negb (isNumber low)
           || negb (isNumber high)
        then Throw (TypeError_values i)
        else Ok (store timestamp open high low close)
  | _ =>
      let timestamp := prop point "timestamp" in
      let open := prop point "open" in
      let high := prop point "high" in
      let low := prop point "low" in
      let close := prop point "close" in
      if negb (isNumber timestamp) || negb (isNumber open)
         || negb (isNumber high) || negb (isNumber low)
         || negb (isNumber close)
      then Throw (TypeError_values i)
      else Ok (store timestamp open high low close)
  end.

Definition packOHLCDataPoints (points : Input) : Result (list num) :=
  if falsy points then Throw TypeError_required
  else
    match points with
    | IArray pts =>
        if Nat.eqb (length pts) 0 then Ok []
        else if (Z.of_nat (length pts) >? MAX_POINTS_OHLC)%Z
        then Throw (RangeError_tooLarge (length pts))
        else
          let f32 := repeat zero (length pts * 5 * 4 / 4) in
          forLoop (packOHLCPoint pts) 0 (length pts) f32
    | _ => Throw TypeError_notArray
    end.

End Packers.

(** ** What the packers accept *)

(** A point [packDataPoints] accepts, and its two coordinates. *)
Definition xyOf (point : Point) : option (num * num) :=
  match point with
  | PArray (VNumber x :: VNumber y :: _) => Some (x, y)
  | PObject fields =>
      match lookup fields "x", lookup fields "y" with
      | VNumber x, VNumber y => Some (x, y)
      | _, _ => None
      end
  | _ => None
  end.

(** A candle [packOHLCDataPoints] accepts, as
    [(timestamp, open, high, low, close)]. *)
Definition ohlcOf (point : Point) : option (num * num * num * num * num) :=
  match point with
  | PArray [VNumber t; VNumber o; VNumber c; VNumber l; VNumber h] =>
      Some (t, o, h, l, c)
  | PObject fields =>
      match lookup fields "timestamp", lookup fields "open",
            lookup fields "high", lookup fields "low",
            lookup fields "close" with
      | VNumber t, VNumber o, VNumber h, VNumber l, VNumber c =>
          Some (t, o, h, l, c)
      | _, _, _, _, _ => None
      end
  | _ => None
  end.

Definition accepted {A : Type} (f : Point -> option A) (point : Point)
  : bool :=
  match f point with Some _ => true | None => false end.

(** The index of the first point that is not accepted. *)
Fixpoint firstRejected {A : Type} (f : Point -> option A)
  (points : list Point) : option nat :=
  match points with
  | [] => None
  | p :: rest =>
      if accepted f p then option_map Datatypes.S (firstRejected f rest)
      else Some 0%nat
  end.

(** What the loop throws at a point it does not accept. *)
Definition rejectionXY (point : Point) (i : nat) : Exception :=
  match point with
  | PNull | PUndefined => TypeError_point i
  | _ => TypeError_coordinates i
  end.

Definition rejectionOHLC (point : Point) (i : nat) : Exception :=
  match point with
  | PNull | PUndefined => TypeError_point i
  | PArray elems =>
      if Nat.eqb (length elems) 5 then TypeError_values i
      else TypeError_tuple i (length elems)
  | _ => TypeError_values i
  end.

(** The floats of one accepted point. *)
Definition floatsXY (fround : num -> num) (point : Point) : list num :=
  match xyOf point with
  | Some (x, y) => [fround x; fround y]
  | None => []
  end.

Definition floatsOHLC (fround : num -> num) (point : Point) : list num :=
  match ohlcOf point with
  | Some (t, o, h, l, c) => [fround t; fround o; fround h; fround l; fround c]
  | None => []
  end.

(** Consecutive writes, starting at slot [k]. *)
Fixpoint writeAll (f32 : list num) (k : nat) (vs : list num) : list num :=
  match vs with
  | [] => f32
  | v :: vs' => writeAll (write f32 k v) (S k) vs'
  end.

End PackDataPoints.

(** ** Example inputs *)

Module PackExamples.

Import PackDataPoints.

(** The points of the documentation of [packDataPoints], the second one
    as a tuple with a size. *)
Definition twoPoints : list Point :=
  [PObject [("x"%string, VNumber (Fin 0)); ("y"%string, VNumber (Fin 10))];
   PArray [VNumber (Fin 1); VNumber (Fin 20); VNumber (Fin 3)]].

(** A series whose point at index 1 has no [y]. *)
Definition missingY : list Point :=
  [PArray [VNumber (Fin 0); VNumber (Fin 1)];
   PObject [("x"%string, VNumber (Fin 1))];
   PNull].

(** The candle of the documentation, as an object and as a tuple. *)
Definition candleObject : Point :=
  PObject [("timestamp"%string, VNumber (Fin 1000));
           ("open"%string, VNumber (Fin 100));
           ("high"%string, VNumber (Fin 110));
           ("low"%string, VNumber (Fin 95));
           ("close"%string, VNumber (Fin 105))].

Definition candleTuple : Point :=
  PArray [VNumber (Fin 1000); VNumber (Fin 100); VNumber (Fin 105);
          VNumber (Fin 95); VNumber (Fin 110)].

End PackExamples.

(** * Hit testing of annotations ([createAnnotationHitTester]) *)

Module AnnotationHitTester.

(** ** The chart as the hit tester reads it *)

(** An OHLC point as a tuple or as an object; the hit tester reads the
    elements 0, 2 and 3 of a tuple as timestamp, high and low. *)
Inductive OHLCPoint : Type :=
| OHLCTuple (e0 e1 e2 e3 e4 : num)
| OHLCObject (timestamp open close low high : num).

Definition getPointX (p : DataPoint) : num := fst (getXY p).
Definition getPointY (p : DataPoint) : num := snd (getXY p).

Definition getOHLCTimestamp (p : OHLCPoint) : num :=
  match p with
  | OHLCTuple e0 _ _ _ _ => e0
  | OHLCObject timestamp _ _ _ _ => timestamp
  end.

Definition getOHLCHigh (p : OHLCPoint) : num :=
  match p with
  | OHLCTuple _ _ e2 _ _ => e2
  | OHLCObject _ _ _ _ high => high
  end.

Definition getOHLCLow (p : OHLCPoint) : num :=
  match p with
  | OHLCTuple _ _ _ e3 _ => e3
  | OHLCObject _ _ _ low _ => low
  end.

(** A series: [type === 'pie'], [type === 'candlestick'] with its
    candles, or any other type with its points. *)
Inductive Series : Type :=
| PieSeries
| CandlestickSeries (data : list OHLCPoint)
| CartesianSeries (data : list DataPoint).

(** The fields of an axis configuration the hit tester reads; [category]
    tells [type === 'category'], and [data] is [Some] when
    [Array.isArray(xAxis.data)]. *)
Record Axis : Type := mkAxis {
  category : bool;
  data : option (list string);
  min : option num;
  max : option num
}.

Record Grid : Type := mkGrid {
  left : option num;
  right : option num;
  top : option num;
  bottom : option num
}.

Inductive Space : Type := SpacePlot | SpaceData | SpaceOther.

Record Position : Type := mkPosition {
  space : Space;
  pos_x : num;
  pos_y : num
}.

Inductive Annotation : Type :=
| LineX (x : option num)
| LineY (y : option num)
| PointMark (x y : option num)
| Text (position : Position).

Record Options : Type := mkOptions {
  grid : option Grid;
  xAxis : option Axis;
  yAxis : option Axis;
  series : option (list Series);
  annotations : option (list Annotation)
}.

(** The chart and the canvas: [chart.options], [chart.getZoomRange()]
    and the size of [canvas.getBoundingClientRect()]. *)
Record Chart : Type := mkChart {
  options : Options;
  zoomRange : option ZoomRange;
  canvasWidth : num;
  canvasHeight : num
}.

(** ** Numbers *)

(** [Math.abs] and [Math.sqrt]. *)
Definition abs (v : num) : num :=
  match v with
  | NInf => PInf
  | Fin q => Fin (Qred (Qabs q))
  | _ => v
  end.

Definition sqrt (v : num) : num :=
  match v with
  | NaN | NInf => NaN
  | PInf => PInf
  | Fin q => if Num.Qlt_bool q 0 then NaN else Fin (Num.Qsqrt q)
  end.

(** [v || d] on numbers: [d] when [v] is [0] or [NaN]. *)
Definition orElse (v d : num) : num :=
  match v with
  | NaN => d
  | _ => if (v =? zero)%num then d else v
  end.

(** [o ?? d] *)
Definition withDefault {A : Type} (o : option A) (d : A) : A :=
  match o with Some a => a | None => d end.

(** ** Domains *)

(** The running extremes of the loops over the data. *)
Definition lower (acc v : num) : num := if (v <? acc)%num then v else acc.
Definition upper (acc v : num) : num := if (v >? acc)%num then v else acc.

Definition scanSeries (fromOHLC : OHLCPoint -> num)
  (fromPoint : DataPoint -> num) (step : num -> num -> num)
  (acc : num) (s : Series) : num :=
  match s with
  | PieSeries => acc
  | CandlestickSeries data => fold_left (fun a p => step a (fromOHLC p)) data acc
  | CartesianSeries data => fold_left (fun a p => step a (fromPoint p)) data acc
  end.

Definition dataXMin (ss : list Series) : num :=
  fold_left (scanSeries getOHLCTimestamp getPointX lower) ss PInf.
Definition dataXMax (ss : list Series) : num :=
  fold_left (scanSeries getOHLCTimestamp getPointX upper) ss NInf.
Definition dataYMin (ss : list Series) : num :=
  fold_left (scanSeries getOHLCLow getPointY lower) ss PInf.
Definition dataYMax (ss : list Series) : num :=
  fold_left (scanSeries getOHLCHigh getPointY upper) ss NInf.

(** [opts.xAxis?.min] *)
Definition axisMin (a : option Axis) : option num :=
  match a with Some ax => min ax | None => None end.
Definition axisMax (a : option Axis) : option num :=
  match a with Some ax => max ax | None => None end.

(** The domain before zoom: the explicit bounds, or the extremes of the
    data, or [0] and [100] where the data has no finite extreme. *)
Definition baseXDomain (opts : Options) : num * num :=
  let ss := withDefault (series opts) [] in
  let lo := dataXMin ss in
  let hi := dataXMax ss in
  (withDefault (axisMin (xAxis opts)) (if isFinite lo then lo else zero),
   withDefault (axisMax (xAxis opts)) (if isFinite hi then hi else Fin 100)).

Definition computeXDomain (chart : Chart) : num * num :=
  let (xMin, xMax) := baseXDomain (options chart) in
  match zoomRange chart with
  | Some z =>
      let span := (xMax - xMin)%num in
      ((xMin + (rstart z / Fin 100) * span)%num,
       (xMin + (rend z / Fin 100) * span)%num)
  | None => (xMin, xMax)
  end.

Definition computeYDomain (chart : Chart) : num * num :=
  let opts := options chart in
  let ss := withDefault (series opts) [] in
  let lo := dataYMin ss in
  let hi := dataYMax ss in
  (withDefault (axisMin (yAxis opts)) (if isFinite lo then lo else zero),
   withDefault (axisMax (yAxis opts)) (if isFinite hi then hi else Fin 100)).

(** ** From data and plot space to the canvas *)

(** The plot rectangle: [plotLeft], [plotTop], [plotWidth],
    [plotHeight] and [plotBottom]. *)
Record Plot : Type := mkPlot {
  plotLeft : num;
  plotTop : num;
  plotRight : num;
  plotBottom : num;
  plotWidth : num;
  plotHeight : num
}.

Definition plotOf (chart : Chart) : Plot :=
  let g := withDefault (grid (options chart))
             (mkGrid (Some (Fin 60)) (Some (Fin 20)) (Some (Fin 40))
                     (Some (Fin 40))) in
  let plotLeft := withDefault (left g) (Fin 60) in
  let plotRight := (canvasWidth chart - withDefault (right g) (Fin 20))%num in
  let plotTop := withDefault (top g) (Fin 40) in
  let plotBottom :=
    (canvasHeight chart - withDefault (bottom g) (Fin 40))%num in
  mkPlot plotLeft plotTop plotRight plotBottom
         (plotRight - plotLeft)%num (plotBottom - plotTop)%num.

(** [data.indexOf(s)], from index [i] on. *)
Fixpoint indexOf (l : list string) (s : string) (i : Z) : Z :=
  match l with
  | [] => (-1)%Z
  | a :: rest => if String.eqb a s then i else indexOf rest s (i + 1)
  end.

Section Tester.

(** [String(x)] on a number, which the number model does not define. *)
Variable toString : num -> string.

Definition dataToCanvas (chart : Chart) (x y : option num) : num * num :=
  let p := plotOf chart in
  let canvasX :=
    match x, xAxis (options chart) with
    | Some x, Some ax =>
        match category ax, data ax with
        | true, Some labels =>
            let index := indexOf labels (toString x) 0 in
            if (index >=? 0)%Z then
              let fraction :=
                (ofZ index
                 / orElse (ofZ (Z.of_nat (length labels)) - one) one)%num in
              (plotLeft p + fraction * plotWidth p)%num
            else zero
        | _, _ =>
            let (min, max) := computeXDomain chart in
            let fraction := ((x - min) / orElse (max - min) one)%num in
            (plotLeft p + fraction * plotWidth p)%num
        end
    | _, _ => zero
    end in
  let canvasY :=
    match y, yAxis (options chart) with
    | Some y, Some _ =>
        let (min, max) := computeYDomain chart in
        let fraction := ((y - min) / orElse (max - min) one)%num in
        (plotBottom p - fraction * plotHeight p)%num
    | _, _ => zero
    end in
  (canvasX, canvasY).

Definition plotToCanvas (chart : Chart) (x y : num) : num * num :=
  let p := plotOf chart in
  ((plotLeft p + x * plotWidth p)%num, (plotTop p + y * plotHeight p)%num).

(** ** The caches *)

Record CachedAnnotationBounds : Type := mkBounds {
  canvasX : option num;
  canvasY : option num
}.

(** The attributes of a [DOMRect] the hit tester reads. *)
Record DOMRect : Type := mkRect {
  rect_left : num;
  rect_top : num;
  rect_right : num;
  rect_bottom : num;
  rect_width : num;
  rect_height : num
}.

(** The closure of [createAnnotationHitTester]: the tolerances and the
    caches.  [boundsCache] maps the indices [0 .. length - 1] to bounds;
    [textBoundsCache] maps some indices to rectangles. *)
Record Tester : Type := mkTester {
  lineTolerance : num;
  textTolerance : num;
  pointTolerance : num;
  boundsCache : list CachedAnnotationBounds;
  textBoundsCache : list (nat * DOMRect);
  cacheValid : bool
}.

Record AnnotationHitTesterOptions : Type := mkTesterOptions {
  opt_lineTolerance : option num;
  opt_textTolerance : option num;
  opt_pointTolerance : option num
}.

Definition createAnnotationHitTester (o : AnnotationHitTesterOptions)
  : Tester :=
  mkTester (withDefault (opt_lineTolerance o) (Fin 20))
           (withDefault (opt_textTolerance o) (Fin 8))
           (withDefault (opt_pointTolerance o) (Fin 16))
           [] [] false.

(** The bounds [updateCache] computes for one annotation. *)
Definition boundsOf (chart : Chart) (a : Annotation)
  : CachedAnnotationBounds :=
  match a with
  | LineX (Some x) =>
      mkBounds (Some (fst (dataToCanvas chart (Some x) None))) None
  | LineY (Some y) =>
      mkBounds None (Some (snd (dataToCanvas chart None (Some y))))
  | PointMark (Some x) (Some y) =>
      let c := dataToCanvas chart (Some x) (Some y) in
      mkBounds (Some (fst c)) (Some (snd c))
  | Text pos =>
      match space pos with
      | SpacePlot =>
          let c := plotToCanvas chart (pos_x pos) (pos_y pos) in
          mkBounds (Some (fst c)) (Some (snd c))
      | SpaceData =>
          let c := dataToCanvas chart (Some (pos_x pos)) (Some (pos_y pos)) in
          mkBounds (Some (fst c)) (Some (snd c))
      | SpaceOther => mkBounds None None
      end
  | _ => mkBounds None None
  end.

Definition updateCache (chart : Chart) (anns : list Annotation)
  (t : Tester) : Tester :=
  mkTester (lineTolerance t) (textTolerance t) (pointTolerance t)
           (map (boundsOf chart) anns) (textBoundsCache t) true.

(** ** Distances *)

Definition distanceToLine (pointerX pointerY : num) (lineX lineY : option num)
  : num :=
  match lineX, lineY with
  | Some lx, _ => abs (pointerX - lx)%num
  | None, Some ly => abs (pointerY - ly)%num
  | None, None => PInf
  end.

Definition distanceToPoint (pointerX pointerY pointX pointY : num) : num :=
  let dx := (pointerX - pointX)%num in
  let dy := (pointerY - pointY)%num in
  sqrt (dx * dx + dy * dy)%num.

Definition isInsideRect (pointerX pointerY : num) (rect : DOMRect)
  (tolerance : num) : bool :=
  (pointerX >=? rect_left rect - tolerance)%num
  && (pointerX <=? rect_right rect + tolerance)%num
  && (pointerY >=? rect_top rect - tolerance)%num
  && (pointerY <=? rect_bottom rect + tolerance)%num.

(** ** The hit test *)

Inductive HitType : Type := HitLine | HitText | HitPoint | HitLabel.

Record AnnotationHitTestResult : Type := mkHit {
  annotationIndex : nat;
  annotation : Annotation;
  hitType : HitType;
  distanceCssPx : num
}.

(** [closestHit] and [closestDistance]. *)
Definition Closest : Type := (option AnnotationHitTestResult * num)%type.

(** [if (... && distance < closestDistance) { ... }] *)
Definition offer (ok : bool) (i : nat) (a : Annotation) (ty : HitType)
  (distance : num) (c : Closest) : Closest :=
  if ok && (distance <? snd c)%num
  then (Some (mkHit i a ty distance), distance)
  else c.

Fixpoint textRectOf (cache : list (nat * DOMRect)) (i : nat)
  : option DOMRect :=
  match cache with
  | [] => None
  | (k, r) :: rest => if Nat.eqb k i then Some r else textRectOf rest i
  end.

(** The body of the first loop: lines. *)
Definition testLine (t : Tester) (px py : num) (c : Closest)
  (ia : nat * Annotation) : Closest :=
  let (i, a) := ia in
  match nth_error (boundsCache t) i with
  | None => c
  | Some bounds =>
      match a, canvasX bounds, canvasY bounds with
      | LineX _, Some bx, _ =>
          let distance := distanceToLine px py (Some bx) None in
          offer (distance <=? lineTolerance t)%num i a HitLine distance c
      | LineY _, _, Some by_ =>
          let distance := distanceToLine px py None (Some by_) in
          offer (distance <=? lineTolerance t)%num i a HitLine distance c
      | _, _, _ => c
      end
  end.

(** The body of the second loop: text. *)
Definition testText (t : Tester) (px py : num) (c : Closest)
  (ia : nat * Annotation) : Closest :=
  let (i, a) := ia in
  match a, textRectOf (textBoundsCache t) i with
  | Text _, Some textRect =>
      if isInsideRect px py textRect (textTolerance t) then
        let centerX := (rect_left textRect + rect_width textRect / Fin 2)%num in
        let centerY := (rect_top textRect + rect_height textRect / Fin 2)%num in
        let distance := distanceToPoint px py centerX centerY in
        offer true i a HitText distance c
      else c
  | _, _ => c
  end.

(** The body of the third loop: points. *)
Definition testPoint (t : Tester) (px py : num) (c : Closest)
  (ia : nat * Annotation) : Closest :=
  let (i, a) := ia in
  match nth_error (boundsCache t) i, a with
  | Some bounds, PointMark _ _ =>
      match canvasX bounds, canvasY bounds with
      | Some bx, Some by_ =>
          let distance := distanceToPoint px py bx by_ in
          offer (distance <=? pointTolerance t)%num i a HitPoint distance c
      | _, _ => c
      end
  | _, _ => c
  end.

(** The pairs [(i, annotations[i])] the loops visit. *)
Definition indexed (anns : list Annotation) : list (nat * Annotation) :=
  combine (seq 0 (length anns)) anns.

(** The three loops on the caches as they are. *)
Definition scanHits (t : Tester) (anns : list Annotation) (px py : num)
  : Closest :=
  let c1 := fold_left (testLine t px py) (indexed anns) (None, PInf) in
  let c2 := fold_left (testText t px py) (indexed anns) c1 in
  fold_left (testPoint t px py) (indexed anns) c2.

(** [hitTest(canvasX, canvasY)]: the hit, and the tester afterwards. *)
Definition hitTest (chart : Chart) (t : Tester) (px py : num)
  : option AnnotationHitTestResult * Tester :=
  let anns := withDefault (annotations (options chart)) [] in
  if Nat.eqb (length anns) 0 then (None, t)
  else
    let t' := if cacheValid t then t else updateCache chart anns t in
    (fst (scanHits t' anns px py), t').

Definition updateTextBounds (textBounds : list (nat * DOMRect)) (t : Tester)
  : Tester :=
  mkTester (lineTolerance t) (textTolerance t) (pointTolerance t)
           (boundsCache t) textBounds (cacheValid t).

Definition invalidateCache (t : Tester) : Tester :=
  mkTester (lineTolerance t) (textTolerance t) (pointTolerance t)
           (boundsCache t) (textBoundsCache t) false.

Definition dispose (t : Tester) : Tester :=
  mkTester (lineTolerance t) (textTolerance t) (pointTolerance t)
           [] [] (cacheValid t).

End Tester.

(** ** The x values a domain is derived from *)

(** The x values [computeXDomain] reads from a series. *)
Definition seriesXs (s : Series) : list num :=
  match s with
  | PieSeries => []
  | CandlestickSeries data => map getOHLCTimestamp data
  | CartesianSeries data => map getPointX data
  end.

Definition allXs (ss : list Series) : list num := flat_map seriesXs ss.

(** ** The candidates of a hit test *)

(** The hits the three loops offer, in the order in which they offer
    them: a line within the line tolerance, a text whose padded
    rectangle holds the pointer, a point within the point tolerance. *)
Definition lineOffer (t : Tester) (px py : num) (ia : nat * Annotation)
  : list AnnotationHitTestResult :=
  let (i, a) := ia in
  match nth_error (boundsCache t) i with
  | None => []
  | Some bounds =>
      match a, canvasX bounds, canvasY bounds with
      | LineX _, Some bx, _ =>
          let distance := abs (px - bx)%num in
          if (distance <=? lineTolerance t)%num
          then [mkHit i a HitLine distance] else []
      | LineY _, _, Some by_ =>
          let distance := abs (py - by_)%num in
          if (distance <=? lineTolerance t)%num
          then [mkHit i a HitLine distance] else []
      | _, _, _ => []
      end
  end.

Definition textOffer (t : Tester) (px py : num) (ia : nat * Annotation)
  : list AnnotationHitTestResult :=
  let (i, a) := ia in
  match a, textRectOf (textBoundsCache t) i with
  | Text _, Some r =>
      if isInsideRect px py r (textTolerance t)
      then [mkHit i a HitText
              (distanceToPoint px py
                 (rect_left r + rect_width r / Fin 2)%num
                 (rect_top r + rect_height r / Fin 2)%num)]
      else []
  | _, _ => []
  end.

Definition pointOffer (t : Tester) (px py : num) (ia : nat * Annotation)
  : list AnnotationHitTestResult :=
  let (i, a) := ia in
  match nth_error (boundsCache t) i, a with
  | Some bounds, PointMark _ _ =>
      match canvasX bounds, canvasY bounds with
      | Some bx, Some by_ =>
          let distance := distanceToPoint px py bx by_ in
          if (distance <=? pointTolerance t)%num
          then [mkHit i a HitPoint distance] else []
      | _, _ => []
      end
  | _, _ => []
  end.

Definition candidates (t : Tester) (anns : list Annotation) (px py : num)
  : list AnnotationHitTestResult :=
  flat_map (lineOffer t px py) (indexed anns)
  ++ flat_map (textOffer t px py) (indexed anns)
  ++ flat_map (pointOffer t px py) (indexed anns).

(** A candidate replaces the closest hit when it is strictly closer. *)
Definition take (c : Closest) (h : AnnotationHitTestResult) : Closest :=
  if (distanceCssPx h <? snd c)%num then (Some h, distanceCssPx h) else c.

End AnnotationHitTester.

(** ** An example chart *)

Module HitExamples.

Import AnnotationHitTester.

(** An 800 by 600 canvas with the default grid, both axes from 0 to 100,
    a vertical line at [x = 50], a point at [(50, 50)] on that line and a
    point at [(60, 50)]. *)
Definition axis : Axis := mkAxis false None (Some (Fin 0)) (Some (Fin 100)).

Definition marks : list Annotation :=
  [LineX (Some (Fin 50)); PointMark (Some (Fin 50)) (Some (Fin 50));
   PointMark (Some (Fin 60)) (Some (Fin 50))].

Definition chart : Chart :=
  mkChart (mkOptions None (Some axis) (Some axis) None (Some marks))
          None (Fin 800) (Fin 600).

(** The same chart zoomed to the left half. *)
Definition zoomed : Chart :=
  mkChart (options chart) (Some (mkRange (Fin 0) (Fin 50)))
          (Fin 800) (Fin 600).

Definition label (v : num) : string := EmptyString.

(** A chart without explicit axis bounds: a line with a gap, a pie, and
    two candles. *)
Definition autoChart : Chart :=
  mkChart
    (mkOptions None (Some (mkAxis false None None None))
       (Some (mkAxis false None None None))
       (Some [CartesianSeries
                [PTuple (Fin 3) (Fin 1) None; PTuple NaN NaN None;
                 PObject (Fin 7) (Fin 2) None];
              PieSeries;
              CandlestickSeries
                [OHLCTuple (Fin 1) (Fin 10) (Fin 12) (Fin 9) (Fin 11);
                 OHLCObject (Fin 9) (Fin 11) (Fin 12) (Fin 10) (Fin 13)]])
       None)
    None (Fin 800) (Fin 600).

Definition tester : Tester :=
  createAnnotationHitTester (mkTesterOptions None None None).

End HitExamples.

(** * Axis titles ([axisLabelStyling]) and the candlestick budget *)

(** [Math.round(v)]: the nearest integer, a tie going up. *)
Definition mathRound (v : num) : num :=
  match v with
  | Fin q => Fin (inject_Z (Qfloor (q + (1 # 2))))
  | _ => v
  end.

(** [getAxisTitleFontSize(baseFontSize)]; [1.15] is the decimal
    fraction. *)
Definition getAxisTitleFontSize (baseFontSize : num) : num :=
  Num.max (baseFontSize + one)%num
          (mathRound (baseFontSize * Fin (115 # 100))%num).

Module CandlestickBudget.

(** [v | 0] on a number: [ToInt32], the integer part taken modulo
    [2^32] into [[-2^31, 2^31)]; [0] for [NaN] and the infinities. *)
Definition truncate (q : Q) : Z :=
  if Num.Qlt_bool q 0 then (- Qfloor (- q))%Z else Qfloor q.

Definition wrapInt32 (z : Z) : Z :=
  ((z + 2147483648) mod 4294967296 - 2147483648)%Z.

Definition toInt32 (v : num) : num :=
  match v with
  | Fin q => ofZ (wrapInt32 (truncate q))
  | _ => zero
  end.

(** The zoom multiplier policy of the candlestick resampling: "up to
    32x" and "200,000 points". *)
Definition MAX_TARGET_MULTIPLIER : num := Fin 32.
Definition MAX_TARGET_POINTS_ABS : num := Fin 200000.

Section Resampling.

(** [MIN_TARGET_POINTS], [clampInt] and [ohlcSample] are defined in
    files that are not among the sources. *)
Variable MIN_TARGET_POINTS : num.
Variable clampInt : num -> num -> num -> num.
Variable OHLC : Type.
Variable ohlcSample : list OHLC -> num -> list OHLC.

Definition baseT (baseThreshold : num) : num :=
  if isFinite baseThreshold
  then Num.max one (toInt32 baseThreshold) else one.

Definition maxTarget (baseThreshold : num) : num :=
  Num.min MAX_TARGET_POINTS_ABS
    (Num.max MIN_TARGET_POINTS
       (baseT baseThreshold * MAX_TARGET_MULTIPLIER)%num).

Definition target (baseThreshold spanFracSafe : num) : num :=
  clampInt (mathRound (baseT baseThreshold / spanFracSafe)%num)
           MIN_TARGET_POINTS (maxTarget baseThreshold).

(** The data of a candlestick series after [recomputeRenderSeries];
    [ohlc] tells [sampling === 'ohlc']. *)
Definition resample (ohlc : bool) (baseThreshold spanFracSafe : num)
  (visibleOHLC : list OHLC) : list OHLC :=
  let t := target baseThreshold spanFracSafe in
  if ohlc && (ofZ (Z.of_nat (length visibleOHLC)) >? t)%num
  then ohlcSample visibleOHLC t
  else visibleOHLC.

End Resampling.

End CandlestickBudget.

(** * The rate trackers of the streaming example ([worker-streaming]) *)

Module WorkerStreaming.

(** [FPSTracker]: the time stamps of the last frames, oldest first. *)
Record FPSTracker : Type := mkFPS { frames : list num }.

Definition maxSamples : nat := 60.

Definition newFPSTracker : FPSTracker := mkFPS [].

(** [update()], [now] being [performance.now()]. *)
Definition updateFPS (now : num) (t : FPSTracker) : FPSTracker :=
  let pushed := frames t ++ [now] in
  if Nat.ltb maxSamples (length pushed) then mkFPS (tl pushed)
  else mkFPS pushed.

Definition getFPS (t : FPSTracker) : num :=
  if Nat.ltb (length (frames t)) 2 then zero
  else
    let delta := (last (frames t) NaN - hd NaN (frames t))%num in
    (ofZ (Z.of_nat (length (frames t) - 1)) / (delta / Fin 1000))%num.

(** [DataRateTracker]: sizes and time stamps of the samples in the
    window. *)
Record DataRateTracker : Type := mkRate {
  bytes : list num;
  times : list num
}.

Definition windowMs : num := Fin 1000.

Definition newDataRateTracker : DataRateTracker := mkRate [] [].

(** The [while] loop of [update]: samples older than the window are
    shifted out, oldest first, until one is young enough. *)
Fixpoint dropOld (now : num) (bs ts : list num) : DataRateTracker :=
  match ts with
  | [] => mkRate bs []
  | t0 :: ts' =>
      if (now - t0 >? windowMs)%num then dropOld now (tl bs) ts'
      else mkRate bs ts
  end.

Definition updateRate (size now : num) (t : DataRateTracker)
  : DataRateTracker :=
  dropOld now (bytes t ++ [size]) (times t ++ [now]).

Definition getBytesPerSecond (t : DataRateTracker) : num :=
  if Nat.ltb (length (times t)) 2 then zero
  else
    let deltaMs := (last (times t) NaN - hd NaN (times t))%num in
    if (deltaMs =? zero)%num then zero
    else
      let totalBytes := fold_left Num.add (bytes t) zero in
      (totalBytes / deltaMs * Fin 1000)%num.

(** A run of frames, and a run of samples [(size, now)]. *)
Definition runFPS (stamps : list num) : FPSTracker :=
  fold_left (fun t now => updateFPS now t) stamps newFPSTracker.

Definition runRate (samples : list (num * num)) : DataRateTracker :=
  fold_left (fun t s => updateRate (fst s) (snd s) t) samples
            newDataRateTracker.

(** Frames at a fixed interval: [t0], [t0 + d], [t0 + 2 d], ... *)
Definition evenly (t0 d : Q) (n : nat) : list num :=
  map (fun k => Fin (t0 + inject_Z (Z.of_nat k) * d)) (seq 0 n).

(** The time stamps of the samples are finite and the clock does not
    run backwards. *)
Fixpoint clockOrdered (samples : list (num * num)) : bool :=
  match samples with
  | [] => true
  | s :: rest =>
      isFinite (snd s)
      && forallb (fun r => (snd s <=? snd r)%num) rest
      && clockOrdered rest
  end.

(** A sample whose time stamp is within the window before [now]. *)
Definition young (now : num) (sample : num * num) : bool :=
  (now - snd sample <=? windowMs)%num.

(** The [while] loop on the samples as pairs [(size, time)]. *)
Fixpoint dropWhileOld (now : num) (ps : list (num * num))
  : list (num * num) :=
  match ps with
  | [] => []
  | p :: rest =>
      if (now - snd p >? windowMs)%num then dropWhileOld now rest else ps
  end.

(** The time of the latest sample. *)
Definition latest (samples : list (num * num)) : num :=
  last (map snd samples) NaN.

End WorkerStreaming.

(** * The point generator of the scatter examples ([createPoints]) *)

Module ScatterExample.

(** ** 32-bit integers *)

(** [ToInt32] and [ToUint32] on an integer. *)
Definition int32 (z : Z) : Z := CandlestickBudget.wrapInt32 z.
Definition uint32 (z : Z) : Z := (z mod 4294967296)%Z.

(** [a ^ b], [a | b], [a >>> k] and [Math.imul(a, b)]. *)
Definition xor32 (a b : Z) : Z := int32 (Z.lxor (int32 a) (int32 b)).
Definition or32 (a b : Z) : Z := int32 (Z.lor (int32 a) (int32 b)).
Definition shru32 (a k : Z) : Z := Z.shiftr (uint32 a) k.
Definition imul (a b : Z) : Z := int32 (int32 a * int32 b).

(** ** [mulberry32] *)

(** [let a = seed | 0] *)
Definition seedState (seed : num) : Z :=
  match seed with
  | Fin q => int32 (CandlestickBudget.truncate q)
  | _ => 0%Z
  end.

(** One call of the generator: the new state and the number returned. *)
Definition nextRandom (a : Z) : Z * num :=
  let a := int32 a in
  let a := int32 (a + 1831565813) in
  let t := imul (xor32 a (shru32 a 15)) (or32 1 a) in
  let t := xor32 t (t + imul (xor32 t (shru32 t 7)) (or32 61 t)) in
  (a, (ofZ (uint32 (xor32 t (shru32 t 14))) / Fin 4294967296)%num).

(** ** [createPoints] *)

Record PointOptions : Type := mkPointOptions {
  xMin : num;
  xMax : num;
  yMin : num;
  yMax : num;
  includeSize : bool;
  sizeMin : option num;
  sizeMax : option num
}.

(** The body of the loop: one point, and the state of the generator
    after it. *)
Definition makePoint (opts : PointOptions) (a : Z) : Z * DataPoint :=
  let xSpan := (xMax opts - xMin opts)%num in
  let ySpan := (yMax opts - yMin opts)%num in
  let smin := match sizeMin opts with Some s => s | None => Fin 1 end in
  let smax := match sizeMax opts with Some s => s | None => Fin 8 end in
  let sizeSpan := (smax - smin)%num in
  let (a1, r1) := nextRandom a in
  let x := (xMin opts + r1 * xSpan)%num in
  let (a2, r2) := nextRandom a1 in
  let y := (yMin opts + r2 * ySpan)%num in
  if includeSize opts then
    let (a3, r3) := nextRandom a2 in
    (a3, PTuple x y (Some (smin + r3 * sizeSpan)%num))
  else (a2, PTuple x y None).

Fixpoint makePoints (opts : PointOptions) (n : nat) (a : Z)
  : list DataPoint :=
  match n with
  | O => []
  | S n' =>
      let (a', p) := makePoint opts a in p :: makePoints opts n' a'
  end.

(** [out.sort((a, b) => a[0] - b[0])]: the sort is stable; a point goes
    behind the points that do not compare greater. *)
Fixpoint insertByX (p : DataPoint) (sorted : list DataPoint)
  : list DataPoint :=
  match sorted with
  | [] => [p]
  | q :: rest =>
      if (pointX q - pointX p >? zero)%num then p :: q :: rest
      else q :: insertByX p rest
  end.

Definition sortByX (l : list DataPoint) : list DataPoint :=
  fold_left (fun sorted p => insertByX p sorted) l [].

(** [new Array(n)] throws a [RangeError] unless [n] is an integer in
    [[0, 2^32)]: the model then has no result. *)
Definition arrayLength (n : num) : option nat :=
  match n with
  | Fin q =>
      if Qeq_bool (inject_Z (Qfloor q)) q
         && Qle_bool 0 q && Num.Qlt_bool q 4294967296
      then Some (Z.to_nat (Qfloor q)) else None
  | _ => None
  end.

Definition createPoints (count seed : num) (opts : PointOptions)
  : option (list DataPoint) :=
  match arrayLength (Num.max zero (Num.floor count)) with
  | Some n => Some (sortByX (makePoints opts n (seedState seed)))
  | None => None
  end.

(** A point with a finite x. *)
Definition finiteX (p : DataPoint) : Prop := isFinite (pointX p) = true.

(** A point inside the requested box. *)
Definition inBox (opts : PointOptions) (p : DataPoint) : bool :=
  (xMin opts <=? pointX p)%num && (pointX p <=? xMax opts)%num
  && (yMin opts <=? pointY p)%num && (pointY p <=? yMax opts)%num.

(** The options of the first series of the example. *)
Definition fixedOptions : PointOptions :=
  mkPointOptions (Fin 0) (Fin 100) (Fin 0) (Fin 100) false None None.

End ScatterExample.
(** * Facts about the number model *)

Lemma Some_eq {A : Type} (a b : A) : Some a = Some b -> a = b.
Proof. intro E. injection E as E. exact E. Qed.

Lemma bool_eq_iff (a b : bool) : (a = true <-> b = true) -> a = b.
Proof. destruct a, b; intuition congruence. Qed.

Example hypot_axis : hypot (Fin (-100)) (Fin 0) = Fin 100.
Proof. vm_compute. reflexivity. Qed.

Example hypot_345 : hypot (Fin 3) (Fin (4 # 1)) = Fin 5.
Proof. vm_compute. reflexivity. Qed.

Example div_half : (Fin 5 / Fin 2)%num = Fin (5 # 2).
Proof. reflexivity. Qed.

Lemma Qlt_bool_iff a b : Qlt_bool a b = true <-> (a < b)%Q.
Proof.
  unfold Qlt_bool. rewrite negb_true_iff.
  split; intro Hx.
  - apply Qnot_le_lt. intro Hle. apply Qle_bool_iff in Hle. congruence.
  - destruct (Qle_bool b a) eqn:E; [|reflexivity].
    apply Qle_bool_iff in E. exfalso. apply (Qlt_not_le _ _ Hx E).
Qed.

Lemma Qlt_bool_false a b : Qlt_bool a b = false <-> (b <= a)%Q.
Proof.
  unfold Qlt_bool. rewrite negb_false_iff. apply Qle_bool_iff.
Qed.

Lemma Qle_bool_false a b : Qle_bool a b = false <-> (b < a)%Q.
Proof.
  rewrite <- Qlt_bool_iff. unfold Qlt_bool.
  destruct (Qle_bool a b); simpl; intuition congruence.
Qed.

Lemma Qeq_bool_false a b : Qeq_bool a b = false <-> ~ (a == b)%Q.
Proof.
  split.
  - intros E Hq. apply Qeq_bool_iff in Hq. congruence.
  - intro Hn. destruct (Qeq_bool a b) eqn:E; [|reflexivity].
    apply Qeq_bool_iff in E. contradiction.
Qed.

(** Turn the boolean tests on rationals in the context and the goal into
    propositions, and forget [Qred]. *)
Ltac qprop :=
  repeat match goal with
  | H : Qlt_bool _ _ = true |- _ => apply Qlt_bool_iff in H
  | H : Qlt_bool _ _ = false |- _ => apply Qlt_bool_false in H
  | H : Qle_bool _ _ = true |- _ => apply Qle_bool_iff in H
  | H : Qle_bool _ _ = false |- _ => apply Qle_bool_false in H
  | H : Qeq_bool _ _ = true |- _ => apply Qeq_bool_iff in H
  | H : Qeq_bool _ _ = false |- _ => apply Qeq_bool_false in H
  | |- Qlt_bool _ _ = true => apply Qlt_bool_iff
  | |- Qlt_bool _ _ = false => apply Qlt_bool_false
  | |- Qle_bool _ _ = true => apply Qle_bool_iff
  | |- Qle_bool _ _ = false => apply Qle_bool_false
  | |- Qeq_bool _ _ = true => apply Qeq_bool_iff
  | |- Qeq_bool _ _ = false => apply Qeq_bool_false
  end;
  repeat match goal with
  | H : context [Qred ?q] |- _ => rewrite (Qred_correct q) in H
  | |- context [Qred ?q] => rewrite (Qred_correct q)
  end.

Ltac qconst t :=
  let v := eval vm_compute in t in
  match v with
  | true => change t with true
  | false => change t with false
  end.

Ltac qcase :=
  match goal with
  | |- context [Qlt_bool ?a ?b] =>
      first [qconst (Qlt_bool a b) | destruct (Qlt_bool a b) eqn:?]
  | |- context [Qle_bool ?a ?b] =>
      first [qconst (Qle_bool a b) | destruct (Qle_bool a b) eqn:?]
  | |- context [Qeq_bool ?a ?b] =>
      first [qconst (Qeq_bool a b) | destruct (Qeq_bool a b) eqn:?]
  end.

(** Unfold the number operations, but not the rationals below them. *)
Ltac nsimpl :=
  cbn -[Qred Qplus Qminus Qmult Qdiv Qopp Qinv Qle_bool Qeq_bool Qlt_bool
        Qfloor inject_Z Z.sqrt Qsqrt] in *.

(** * The zoom window keeps its invariant *)

Section ViewportFacts.

Import ViewportState.


Lemma withMinSpan_ok m s e :
  (0 < m)%Q -> (m <= 100)%Q -> (0 <= s)%Q -> (s <= e)%Q -> (e <= 100)%Q ->
  exists s' e', withMinSpan (Fin m) (Fin s, Fin e) = (Fin s', Fin e') /\
    (m <= e' - s')%Q /\ (0 <= s')%Q /\ (e' <= 100)%Q.
Proof.
  intros Hm Hm' Hs Hse He.
  unfold withMinSpan. nsimpl.
  repeat (qcase; nsimpl); eexists; eexists; (split; [reflexivity|]); qprop;
    unfold Qdiv in *; change (/ 2)%Q with (1 # 2)%Q in *;
    repeat split; lra.
Qed.

Lemma clamp_percent v :
  exists c, clamp (Fin v) zero (Fin 100) = Fin c /\ (0 <= c)%Q /\ (c <= 100)%Q.
Proof.
  unfold clamp. nsimpl.
  repeat (qcase; nsimpl); eexists; (split; [reflexivity|]); qprop; lra.
Qed.

Lemma ordered_ok a b :
  (0 <= a <= 100)%Q -> (0 <= b <= 100)%Q ->
  exists s e, ordered (Fin a) (Fin b) = (Fin s, Fin e) /\
    (0 <= s)%Q /\ (s <= e)%Q /\ (e <= 100)%Q.
Proof.
  intros Ha Hb. unfold ordered. nsimpl.
  qcase; eexists; eexists; (split; [reflexivity|]); qprop; lra.
Qed.

Lemma eqb_Fin_l q b :
  (Fin q =? b)%num = true -> exists q', b = Fin q' /\ (q == q')%Q.
Proof.
  destruct b; nsimpl; try discriminate.
  intro E. eexists; split; [reflexivity|]. now apply Qeq_bool_iff.
Qed.

Lemma rangeOk_Fin m s e :
  (m <= e - s)%Q -> (0 <= s)%Q -> (e <= 100)%Q -> (0 < m)%Q ->
  rangeOk (Fin m) (mkRange (Fin s) (Fin e)).
Proof.
  intros. unfold rangeOk. nsimpl. repeat split; qprop; lra.
Qed.


End ViewportFacts.


Example set_viewport_narrow :
  ViewportState.get_viewport
    (ViewportState.set_viewport (Fin 40) (Fin (401 # 10))
       (ViewportState.create zero (Fin 100)))
  = mkRange (Fin (199 # 5)) (Fin (403 # 10)).
Proof. vm_compute. reflexivity. Qed.

Example set_viewport_at_edge :
  ViewportState.get_viewport
    (ViewportState.set_viewport (Fin 100) (Fin 250)
       (ViewportState.create zero (Fin 100)))
  = mkRange (Fin (199 # 2)) (Fin 100).
Proof. vm_compute. reflexivity. Qed.

Example set_viewport_malformed :
  ViewportState.set_viewport NaN (Fin 50) (ViewportState.create zero (Fin 100))
  = ViewportState.create zero (Fin 100).
Proof. reflexivity. Qed.

(** * The single-finger pan is guarded *)

Section PanFacts.

Context {ZS : Type} `{ZoomState ZS}.

(** C10: the single-finger handler either leaves the viewport alone or
    issues exactly one [pan], whose delta is [-(dx / plotWidth) * span],
    finite and non-zero, computed with a strictly positive plot width;
    whenever there is no previous position, the movement is zero or not
    finite, the plot width is not strictly positive, or the span is zero
    or not finite, the viewport is left alone. *)
Theorem touchPan_guarded (e : PointerEvent) (st st' : TouchState ZS) :
  touchPan e st = Some st' ->
  (panRefused e st ->
   issued st' = issued st /\ zoomState st' = zoomState st) /\
  ((issued st' = issued st /\ zoomState st' = zoomState st) \/
   exists prev,
     map_get (activePointers st) (pointerId e) = Some prev /\
     let dx := (clientX e - px prev)%num in
     let d := panDelta dx (panPlotWidth st) (viewSpan st) in
     isFinite dx = true /\ (dx =? zero)%num = false /\
     (panPlotWidth st >? zero)%num = true /\
     isFinite (viewSpan st) = true /\ (viewSpan st =? zero)%num = false /\
     isFinite d = true /\ (d =? zero)%num = false /\
     d = (- (dx / panPlotWidth st) * viewSpan st)%num /\
     issued st' = issued st ++ [CPan d] /\
     zoomState st' = pan d (zoomState st)).
Proof.
  unfold touchPan, panRefused. intro Hrun.
  destruct (Z.eqb _ 1); [|discriminate].
  apply Some_eq in Hrun. subst st'.
  destruct (map_get (activePointers st) (pointerId e)) as [prev|];
    [|split; [intros _|left]; split; reflexivity].
  unfold negb, orb. cbv zeta.
  destruct (isFinite (clientX e - px prev)%num) eqn:Edx; cbv beta iota;
    [|split; [intros _|left]; split; reflexivity].
  destruct ((clientX e - px prev)%num =? zero)%num eqn:Edx0; cbv beta iota;
    [split; [intros _|left]; split; reflexivity|].
  destruct (panPlotWidth st >? zero)%num eqn:Epw; cbv beta iota;
    [|split; [intros _|left]; split; reflexivity].
  destruct (isFinite (viewSpan st)) eqn:Esp; cbv beta iota;
    [|split; [intros _|left]; split; reflexivity].
  destruct (viewSpan st =? zero)%num eqn:Esp0; cbv beta iota;
    [split; [intros _|left]; split; reflexivity|].
  split.
  - intros [F|[F|[F|[F|F]]]]; discriminate.
  - destruct (isFinite (panDelta _ _ _)) eqn:Ed; cbv beta iota;
      [|left; split; reflexivity].
    destruct (panDelta _ _ _ =? zero)%num eqn:Ed0; cbv beta iota;
      [left; split; reflexivity|].
    right. exists prev. split; [reflexivity|].
    repeat split; assumption || reflexivity.
Qed.

End PanFacts.

Import GestureTests.

(** The single-finger drag of the plan's test: 30px to the right on a
    720px plot over the range 20..80 pans by -2.5. *)
Example drag_right_pans_left :
  option_map (fun st => panCalls (zoomState st))
    (touchPan dragRight oneFinger)
  = Some [Fin (-5 # 2)].
Proof. vm_compute. reflexivity. Qed.

Lemma touchPan_guarded_witness :
  exists st',
    touchPan dragRight oneFinger = Some st' /\
    issued st' = [CPan (Fin (-5 # 2))].
Proof.
  destruct (touchPan dragRight oneFinger) as [st'|] eqn:E;
    [|discriminate E].
  exists st'. split; [reflexivity|].
  destruct (touchPan_guarded dragRight oneFinger st' E)
    as [_ [[Hi _]|(prev & Hp & Hrest)]].
  - vm_compute in E. injection E as <-. discriminate Hi.
  - vm_compute in Hp. injection Hp as <-.
    destruct Hrest as (_ & _ & _ & _ & _ & _ & _ & _ & Hi & _).
    rewrite Hi. vm_compute. reflexivity.
Defined.

(** * The pinch step *)

Lemma Qdiv_gt_one p c : (0 < c)%Q -> ((1 < p / c)%Q <-> (c < p)%Q).
Proof.
  intro Hc. split; intro Hx.
  - assert (E : (p == (p / c) * c)%Q) by (field; lra).
    rewrite E. nra.
  - apply Qlt_shift_div_l; lra.
Qed.

Lemma Qdiv_lt_one p c : (0 < c)%Q -> ((p / c < 1)%Q <-> (p < c)%Q).
Proof.
  intro Hc. split; intro Hx.
  - assert (E : (p == (p / c) * c)%Q) by (field; lra).
    rewrite E. nra.
  - apply Qlt_shift_div_r; lra.
Qed.

Lemma Qeq_bool_pos c : (0 < c)%Q -> Qeq_bool c 0 = false.
Proof. intro Hc. apply Qeq_bool_false. lra. Qed.

(** With both distances positive, the factor is above one exactly when
    the fingers came closer, and below one exactly when they spread. *)
Lemma factor_direction prev cur :
  (prev >? zero)%num = true -> (cur >? zero)%num = true ->
  ((prev / cur >? one)%num = (cur <? prev)%num) /\
  ((prev / cur <? one)%num = (prev <? cur)%num).
Proof.
  destruct prev as [| | |p], cur as [| | |c]; nsimpl; try discriminate;
    intros Hp Hc; qprop; try (split; reflexivity).
  - (* +Infinity over a finite distance *)
    destruct (Qlt_bool c 0) eqn:E; qprop; [lra|]. split; reflexivity.
  - rewrite (Qeq_bool_pos c Hc). unfold gtb, ltb, one.
    split; apply bool_eq_iff; rewrite !Qlt_bool_iff, Qred_correct.
    + apply Qdiv_gt_one; assumption.
    + apply Qdiv_lt_one; assumption.
Qed.

Section PinchFacts.

Context {ZS : Type} `{ZoomState ZS}.

Lemma pinchZoom_issued factor c (st : TouchState ZS) :
  issued (pinchZoom factor c st) = issued st ++ zoomCalls factor c /\
  activePointers (pinchZoom factor c st) = activePointers st /\
  previousPinchMidX (pinchZoom factor c st) = previousPinchMidX st.
Proof.
  unfold pinchZoom, zoomCalls.
  destruct (factor >? one)%num; [|destruct (factor <? one)%num];
    cbn; rewrite ?app_nil_r; repeat split; reflexivity.
Qed.

Lemma pinchPan_issued midX pw span (st : TouchState ZS) :
  exists ps, issued (pinchPan midX pw span st) = issued st ++ ps /\
    forallb isPan ps = true /\
    activePointers (pinchPan midX pw span st) = activePointers st.
Proof.
  unfold pinchPan.
  repeat match goal with
  | |- context [if ?b then _ else _] => destruct b
  end;
  first [ exists []; rewrite app_nil_r; repeat split; reflexivity
        | eexists [_]; repeat split; reflexivity ].
Qed.

(** What one pinch frame does. *)
Lemma touchPinch_frame e (st st' : TouchState ZS) :
  touchPinch e st = Some st' ->
  activePointers st' = moved e st /\
  previousPinchDist st' = pinchDist (moved e st) /\
  exists zs ps,
    issued st' = issued st ++ zs ++ ps /\ forallb isPan ps = true /\
    zs = (if (previousPinchDist st >? zero)%num
             && (pinchDist (moved e st) >? zero)%num
          then zoomCalls (pinchFactor e st) (pinchCenter e st)
          else []).
Proof.
  unfold touchPinch. intro Hrun.
  destruct (Z.eqb _ 2); [|discriminate].
  apply Some_eq in Hrun. subst st'. fold (moved e st).
  cbn [previousPinchDist setPointers activePointers setPinchRef issued].
  destruct ((previousPinchDist st >? zero)%num
            && (pinchDist (moved e st) >? zero)%num).
  - match goal with
    | |- context [pinchPan ?a ?b ?c ?s] =>
        destruct (pinchPan_issued a b c s) as (ps & Hps & Hpan & Hptr)
    end.
    match type of Hps with
    | context [pinchZoom ?f ?c ?s] =>
        destruct (pinchZoom_issued f c s) as (Hz & Hzp & _)
    end.
    split; [|split; [reflexivity|]].
    + rewrite Hptr, Hzp. reflexivity.
    + eexists; exists ps. rewrite Hps, Hz. cbn [issued setPointers].
      rewrite <- app_assoc. repeat split; try assumption.
  - split; [reflexivity|split; [reflexivity|]].
    exists [], []. cbn. rewrite app_nil_r. repeat split.
Qed.

End PinchFacts.
Lemma ltb_asym a b : (a <? b)%num = true -> (b <? a)%num = true -> False.
Proof.
  destruct a, b; nsimpl; intros E1 E2; try discriminate; qprop; lra.
Qed.

Section PinchClaims.

Context {ZS : Type} `{ZoomState ZS}.

Lemma newCalls_app (st st' : TouchState ZS) l :
  issued st' = issued st ++ l -> newCalls st st' = l.
Proof.
  intro E. unfold newCalls. rewrite E, skipn_app, skipn_all, Nat.sub_diag.
  reflexivity.
Qed.

Lemma filter_pans (p : Call -> bool) ps :
  (forall d, p (CPan d) = false) -> forallb isPan ps = true ->
  filter p ps = [].
Proof.
  intros Hp. induction ps as [|c ps IH]; [reflexivity|].
  cbn. intro Hall. apply andb_true_iff in Hall. destruct Hall as [Hc Hps].
  destruct c; try discriminate. rewrite Hp. auto.
Qed.

(** C2, as the code has it: with a previous-frame reference the factor is
    [previousPinchDist / currentDist]; [zoomOut(centerPct, factor)] is the
    one zoom call exactly when the factor is above one (the fingers came
    closer), [zoomIn(centerPct, 1 / factor)] exactly when it is below one
    (the fingers spread), and neither is called otherwise; the centre is
    the midpoint mapped into percent space. *)
Theorem pinch_zoom_direction (e : PointerEvent) (st st' : TouchState ZS) :
  touchPinch e st = Some st' -> hasReference e st ->
  let factor := pinchFactor e st in
  let cur := pinchDist (moved e st) in
  filter isZoom (newCalls st st') = zoomCalls factor (pinchCenter e st) /\
  ((factor >? one)%num = true <->
   filter isZoom (newCalls st st') = [CZoomOut (pinchCenter e st) factor]) /\
  ((factor <? one)%num = true <->
   filter isZoom (newCalls st st')
   = [CZoomIn (pinchCenter e st) (one / factor)%num]) /\
  (factor >? one)%num = (cur <? previousPinchDist st)%num /\
  (factor <? one)%num = (previousPinchDist st <? cur)%num.
Proof.
  intros Hrun [Hprev Hcur]. cbv zeta.
  destruct (touchPinch_frame e st st' Hrun)
    as (_ & _ & zs & ps & Hi & Hps & Hzs).
  rewrite Hprev, Hcur in Hzs. cbn [andb] in Hzs. subst zs.
  rewrite (newCalls_app st st' _ Hi), filter_app.
  rewrite (filter_pans isZoom ps) by (reflexivity || assumption).
  rewrite app_nil_r.
  assert (Hz : filter isZoom (zoomCalls (pinchFactor e st) (pinchCenter e st))
               = zoomCalls (pinchFactor e st) (pinchCenter e st)).
  { unfold zoomCalls.
    destruct (pinchFactor e st >? one)%num;
      [|destruct (pinchFactor e st <? one)%num]; reflexivity. }
  rewrite Hz.
  destruct (factor_direction _ _ Hprev Hcur) as [Hgt Hlt].
  fold (pinchFactor e st) in Hgt, Hlt.
  split; [reflexivity|]. split; [|split; [|split; assumption]].
  - unfold zoomCalls.
    destruct (pinchFactor e st >? one)%num;
      [|destruct (pinchFactor e st <? one)%num];
      split; intro E; try reflexivity; try discriminate E.
  - unfold zoomCalls.
    destruct (pinchFactor e st >? one)%num eqn:E1;
      [|destruct (pinchFactor e st <? one)%num eqn:E2];
      split; intro E; try reflexivity; try discriminate E.
    (* above one and below one at once *)
    rewrite Hlt in E. symmetry in Hgt.
    exfalso. exact (ltb_asym _ _ E Hgt).
Qed.

End PinchClaims.


(** ** The pinch frames of the plan's tests *)

(** The closing frame of the plan's pinch test: the factor is 3/2, above
    one, and the call is [zoomOut]. *)
Example closing_frame :
  option_map (fun st' => newCalls closing st') (touchPinch closingMove closing)
  = Some [CZoomOut (Fin (145 # 3)) (Fin (3 # 2)); CPan (Fin (25 # 12))]
  /\ pinchFactor closingMove closing = Fin (3 # 2).
Proof. vm_compute. split; reflexivity. Qed.

Lemma pinch_zoom_in_above_one_fails :
  ~ zoomInOnFactorAboveOne closingMove closing.
Proof.
  intro Hc.
  destruct (touchPinch closingMove closing) as [st'|] eqn:E;
    [|discriminate E].
  destruct (Hc st' E) as [Hin _].
  - split; reflexivity.
  - assert (Hf : (pinchFactor closingMove closing >? one)%num = true)
      by reflexivity.
    apply Hin in Hf.
    vm_compute in E. apply Some_eq in E. subst st'.
    vm_compute in Hf. discriminate Hf.
Qed.

Lemma pinch_zoom_direction_witness :
  exists st',
    touchPinch closingMove closing = Some st' /\
    filter isZoom (newCalls closing st')
    = [CZoomOut (pinchCenter closingMove closing)
                (pinchFactor closingMove closing)].
Proof.
  destruct (touchPinch closingMove closing) as [st'|] eqn:E;
    [|discriminate E].
  exists st'. split; [reflexivity|].
  destruct (pinch_zoom_direction closingMove closing st' E) as (_ & Hout & _).
  - split; reflexivity.
  - apply Hout. reflexivity.
Defined.


(** * Runs of pinch frames *)

Lemma ltb_trans a b c :
  (a <? b)%num = true -> (b <? c)%num = true -> (a <? c)%num = true.
Proof.
  destruct a, b, c; nsimpl; intros E1 E2; try discriminate;
    try reflexivity; qprop; lra.
Qed.

Lemma ltb_eqb_r a b c :
  (a <? b)%num = true -> (b =? c)%num = true -> (a <? c)%num = true.
Proof.
  destruct a, b, c; nsimpl; intros E1 E2; try discriminate;
    try reflexivity; qprop; lra.
Qed.

Lemma ltb_eqb_l a b c :
  (a =? b)%num = true -> (a <? c)%num = true -> (b <? c)%num = true.
Proof.
  destruct a, b, c; nsimpl; intros E1 E2; try discriminate;
    try reflexivity; qprop; lra.
Qed.

Lemma map_set_tracked m k v :
  map_has m k = true ->
  length (map_set m k v) = length m /\
  forall k', map_has (map_set m k v) k' = map_has m k'.
Proof.
  unfold map_has. induction m as [|[k0 v0] m IH]; cbn; [discriminate|].
  destruct (Z.eqb k0 k) eqn:E.
  - intros _. split; [reflexivity|]. intro k'. cbn.
    apply Z.eqb_eq in E. subst k0. destruct (Z.eqb k k'); reflexivity.
  - intro Hk. destruct (IH Hk) as [Hl Hh]. split; [cbn; congruence|].
    intro k'. cbn. destruct (Z.eqb k0 k'); [reflexivity|apply Hh].
Qed.

Lemma countCalls_app p l1 l2 :
  countCalls p (l1 ++ l2) = (countCalls p l1 + countCalls p l2)%nat.
Proof. unfold countCalls. rewrite filter_app, length_app. reflexivity. Qed.

Lemma countCalls_pans p ps :
  (forall d, p (CPan d) = false) -> forallb isPan ps = true ->
  countCalls p ps = 0%nat.
Proof.
  intros Hp Hps. unfold countCalls. rewrite (filter_pans p ps Hp Hps).
  reflexivity.
Qed.

Section PinchRuns.

Context {ZS : Type} `{ZoomState ZS}.

Lemma tracked_moved e es (st : TouchState ZS) :
  map_has (activePointers st) (pointerId e) = true ->
  tracked es (activePointers st) -> tracked es (moved e st).
Proof.
  intros He Hes. unfold tracked, moved in *.
  destruct (map_set_tracked (activePointers st) (pointerId e)
              (mkPointer (clientX e) (clientY e)) He) as [_ Hh].
  eapply Forall_impl; [|exact Hes]. cbv beta. intros e' He'.
  rewrite Hh. exact He'.
Qed.

Lemma touchPinch_runs e (st : TouchState ZS) :
  map_size (activePointers st) = 2%Z ->
  exists st', touchPinch e st = Some st'.
Proof.
  intro Hs. unfold touchPinch. rewrite Hs. cbn. eexists. reflexivity.
Qed.

(** A run with a reference at its start: every event of a rising chain
    zooms in, every event of a falling chain zooms out. *)
Lemma pinchMoves_with_reference es : forall (st : TouchState ZS),
  map_size (activePointers st) = 2%Z ->
  tracked es (activePointers st) ->
  (previousPinchDist st >? zero)%num = true ->
  forallb (fun d => (d >? zero)%num) (pinchDists es (activePointers st))
  = true ->
  exists l, issued (pinchMoves es st) = issued st ++ l /\
    (increasing (previousPinchDist st :: pinchDists es (activePointers st))
     = true ->
     countCalls isZoomIn l = length es /\ countCalls isZoomOut l = 0%nat) /\
    (decreasing (previousPinchDist st :: pinchDists es (activePointers st))
     = true ->
     countCalls isZoomOut l = length es /\ countCalls isZoomIn l = 0%nat).
Proof.
  induction es as [|e es IH]; intros st Hsize Htr Hprev Hpos.
  - exists []. cbn. rewrite app_nil_r. repeat split.
  - cbn [pinchMoves pinchDists] in *. fold (moved e st) in *.
    destruct (touchPinch_runs e st Hsize) as [st1 Hrun]. rewrite Hrun.
    destruct (touchPinch_frame e st st1 Hrun)
      as (Hptr & Href & zs & ps & Hi & Hps & Hzs).
    cbn [forallb] in Hpos. apply andb_true_iff in Hpos.
    destruct Hpos as [Hcur Hpos].
    rewrite Hprev, Hcur in Hzs. cbn [andb] in Hzs.
    inversion Htr as [|e' es' He Hes]; subst e' es'.
    destruct (IH st1) as (l & Hl & Hinc & Hdec).
    + rewrite Hptr. unfold map_size, moved.
      destruct (map_set_tracked (activePointers st) (pointerId e)
                  (mkPointer (clientX e) (clientY e)) He) as [-> _].
      exact Hsize.
    + rewrite Hptr. apply tracked_moved; assumption.
    + rewrite Href. exact Hcur.
    + rewrite Hptr. exact Hpos.
    + exists (zs ++ ps ++ l). split.
      { rewrite Hl, Hi. rewrite <- !app_assoc. reflexivity. }
      rewrite Hptr, Href in Hinc, Hdec.
      destruct (factor_direction _ _ Hprev Hcur) as [Hgt Hlt].
      fold (pinchFactor e st) in Hgt, Hlt.
      rewrite !countCalls_app.
      rewrite (countCalls_pans isZoomIn ps), (countCalls_pans isZoomOut ps)
        by (reflexivity || assumption).
      split; intro Hch; cbn [increasing decreasing] in Hch;
        apply andb_true_iff in Hch; destruct Hch as [Hstep Hch].
      * destruct (Hinc Hch) as [-> ->].
        subst zs. unfold zoomCalls. rewrite Hgt, Hlt, Hstep.
        destruct (pinchDist (moved e st) <? previousPinchDist st)%num eqn:E;
          [exfalso; exact (ltb_asym _ _ Hstep E)|].
        cbn. split; lia.
      * destruct (Hdec Hch) as [-> ->].
        subst zs. unfold zoomCalls. rewrite Hgt. unfold gtb in Hstep.
        rewrite Hstep. cbn. split; lia.
Qed.

End PinchRuns.

(** * Two-contact gestures *)

Lemma last_cons {A : Type} (l : list A) (b a : A) :
  last (b :: l) a = last l b.
Proof.
  revert b a. induction l as [|c l IH]; intros b a; [reflexivity|].
  change (last (b :: c :: l) a) with (last (c :: l) a).
  rewrite !IH. reflexivity.
Qed.

Lemma increasing_positive a l :
  (a >? zero)%num = true -> increasing (a :: l) = true ->
  forallb (fun d => (d >? zero)%num) l = true.
Proof.
  revert a. induction l as [|b l IH]; intros a Ha Hinc; [reflexivity|].
  cbn [increasing] in Hinc. apply andb_true_iff in Hinc.
  destruct Hinc as [Hab Hinc].
  assert (Hb : (b >? zero)%num = true) by (exact (ltb_trans _ _ _ Ha Hab)).
  cbn [forallb]. rewrite Hb. cbn. exact (IH b Hb Hinc).
Qed.

Lemma decreasing_positive a l :
  decreasing (a :: l) = true -> (last l a >? zero)%num = true ->
  (a >? zero)%num = true /\ forallb (fun d => (d >? zero)%num) l = true.
Proof.
  revert a. induction l as [|b l IH]; intros a Hdec Hlast.
  - split; [exact Hlast|reflexivity].
  - cbn [decreasing] in Hdec. apply andb_true_iff in Hdec.
    destruct Hdec as [Hab Hdec].
    rewrite last_cons in Hlast. destruct (IH b Hdec Hlast) as [Hb Hall].
    split.
    + exact (ltb_trans _ _ _ Hb Hab).
    + cbn [forallb]. rewrite Hb, Hall. reflexivity.
Qed.

Section TwoContacts.

Context {ZS : Type} `{ZoomState ZS}.

(** The first frame after the contacts came down only records the
    reference. *)
Lemma first_frame_is_reference e (st st1 : TouchState ZS) :
  previousPinchDist st = zero -> touchPinch e st = Some st1 ->
  exists ps, issued st1 = issued st ++ ps /\ forallb isPan ps = true.
Proof.
  intros Hz Hrun.
  destruct (touchPinch_frame e st st1 Hrun)
    as (_ & _ & zs & ps & Hi & Hps & Hzs).
  rewrite Hz in Hzs. cbn in Hzs. subst zs. exists ps. split; assumption.
Qed.

Lemma two_contact_counts es (st : TouchState ZS) (d0 d1 : num) :
  twoContactRun es st d0 d1 -> (d0 >? zero)%num = true ->
  (d1 >? zero)%num = true ->
  (increasing (d0 :: pinchDists es (activePointers st)) = true ->
   countCalls isZoomIn (newCalls st (pinchMoves es st)) = (length es - 1)%nat
   /\ countCalls isZoomOut (newCalls st (pinchMoves es st)) = 0%nat) /\
  (decreasing (d0 :: pinchDists es (activePointers st)) = true ->
   countCalls isZoomOut (newCalls st (pinchMoves es st)) = (length es - 1)%nat
   /\ countCalls isZoomIn (newCalls st (pinchMoves es st)) = 0%nat).
Proof.
  intros (Hsize & Hzero & Htr & Hd0 & Hd1) Hpos0 Hpos1.
  destruct es as [|e es].
  - cbn. unfold newCalls. rewrite skipn_all.
    split; intros _; split; reflexivity.
  - cbn [pinchMoves pinchDists length] in *. fold (moved e st) in *.
    destruct (touchPinch_runs e st Hsize) as [st1 Hrun]. rewrite Hrun.
    destruct (touchPinch_frame e st st1 Hrun) as (Hptr & Href & _).
    destruct (first_frame_is_reference e st st1 Hzero Hrun) as (ps & Hi & Hps).
    inversion Htr as [|e' es' He Hes]; subst e' es'.
    assert (Hsize1 : map_size (activePointers st1) = 2%Z).
    { rewrite Hptr. unfold map_size, moved.
      destruct (map_set_tracked (activePointers st) (pointerId e)
                  (mkPointer (clientX e) (clientY e)) He) as [-> _].
      exact Hsize. }
    assert (Htr1 : tracked es (activePointers st1)).
    { rewrite Hptr. apply tracked_moved; assumption. }
    rewrite last_cons in Hd1.
    assert (Hend : (last (pinchDists es (moved e st)) (pinchDist (moved e st))
                    >? zero)%num = true).
    { unfold gtb in *. apply (ltb_eqb_r _ _ _ Hpos1).
      revert Hd1. clear.
      generalize (last (pinchDists es (moved e st)) (pinchDist (moved e st))).
      intros x E. destruct x, d1; nsimpl; try discriminate; try reflexivity.
      qprop. symmetry. exact E. }
    assert (Hnat : (S (length es) - 1 = length es)%nat) by lia.
    rewrite Hnat.
    split; intro Hch; cbn [increasing decreasing] in Hch;
      apply andb_true_iff in Hch; destruct Hch as [Hstep Hch].
    + assert (Hcur : (pinchDist (moved e st) >? zero)%num = true)
        by exact (ltb_trans _ _ _ Hpos0 Hstep).
      destruct (pinchMoves_with_reference es st1 Hsize1 Htr1)
        as (l & Hl & Hinc & _).
      * rewrite Href. exact Hcur.
      * rewrite Hptr. exact (increasing_positive _ _ Hcur Hch).
      * rewrite Hptr, Href in Hinc. destruct (Hinc Hch) as [Hin Hout].
        rewrite (newCalls_app st (pinchMoves es st1) (ps ++ l))
          by (rewrite Hl, Hi, <- app_assoc; reflexivity).
        rewrite !countCalls_app.
        rewrite (countCalls_pans isZoomIn ps), (countCalls_pans isZoomOut ps)
          by (reflexivity || assumption).
        cbn. split; assumption.
    + destruct (decreasing_positive _ _ Hch Hend) as [Hcur Hall].
      destruct (pinchMoves_with_reference es st1 Hsize1 Htr1)
        as (l & Hl & _ & Hdec).
      * rewrite Href. exact Hcur.
      * rewrite Hptr. exact Hall.
      * rewrite Hptr, Href in Hdec. destruct (Hdec Hch) as [Hout Hin].
        rewrite (newCalls_app st (pinchMoves es st1) (ps ++ l))
          by (rewrite Hl, Hi, <- app_assoc; reflexivity).
        rewrite !countCalls_app.
        rewrite (countCalls_pans isZoomIn ps), (countCalls_pans isZoomOut ps)
          by (reflexivity || assumption).
        cbn. split; assumption.
Qed.

(** C7, as the code has it: a two-contact gesture whose distance rises
    strictly from 100px to 200px issues one [zoomIn] for every event but
    the first (which only records the reference) and no [zoomOut]; one
    whose distance falls strictly from 200px to 100px issues one [zoomOut]
    for every event but the first and no [zoomIn].  With two events or
    more there is at least one zoom call of the right kind. *)
Theorem two_contact_zoom (es : list PointerEvent) (st : TouchState ZS) :
  (spreading es st ->
   countCalls isZoomIn (newCalls st (pinchMoves es st)) = (length es - 1)%nat
   /\ countCalls isZoomOut (newCalls st (pinchMoves es st)) = 0%nat
   /\ ((2 <= length es)%nat ->
       (1 <= countCalls isZoomIn (newCalls st (pinchMoves es st)))%nat)) /\
  (pinching es st ->
   countCalls isZoomOut (newCalls st (pinchMoves es st)) = (length es - 1)%nat
   /\ countCalls isZoomIn (newCalls st (pinchMoves es st)) = 0%nat
   /\ ((2 <= length es)%nat ->
       (1 <= countCalls isZoomOut (newCalls st (pinchMoves es st)))%nat)).
Proof.
  split; intros [Hrun Hch].
  - destruct (two_contact_counts es st (Fin 100) (Fin 200) Hrun)
      as [Hinc _]; try reflexivity.
    destruct (Hinc Hch) as [Hin Hout]. rewrite Hin, Hout.
    repeat split. lia.
  - destruct (two_contact_counts es st (Fin 200) (Fin 100) Hrun)
      as [_ Hdec]; try reflexivity.
    destruct (Hdec Hch) as [Hout Hin]. rewrite Hin, Hout.
    repeat split. lia.
Qed.

End TwoContacts.

(** ** The gestures of the plan's tests *)

Lemma spreading_spreadMoves : spreading spreadMoves down100.
Proof.
  split; [split; [reflexivity|split; [reflexivity|split; [|split]]]|].
  - repeat constructor.
  - vm_compute. reflexivity.
  - vm_compute. reflexivity.
  - vm_compute. reflexivity.
Qed.

Lemma spreading_spreadAtOnce : spreading spreadAtOnce down100.
Proof.
  split; [split; [reflexivity|split; [reflexivity|split; [|split]]]|].
  - repeat constructor.
  - vm_compute. reflexivity.
  - vm_compute. reflexivity.
  - vm_compute. reflexivity.
Qed.

(** The spreading gesture of the plan's test issues one [zoomIn]. *)
Lemma two_contact_zoom_witness :
  countCalls isZoomIn (newCalls down100 (pinchMoves spreadMoves down100))
  = 1%nat /\
  countCalls isZoomOut (newCalls down100 (pinchMoves spreadMoves down100))
  = 0%nat.
Proof.
  destruct (proj1 (two_contact_zoom spreadMoves down100)
              spreading_spreadMoves) as (Hin & Hout & _).
  split; [exact Hin|exact Hout].
Defined.

(** A spread that happens within one event is only a reference frame: the
    distance went from 100px to 200px and nothing was zoomed. *)
Lemma spread_at_once_no_zoom : ~ spreadZoomsIn spreadAtOnce down100.
Proof.
  intro Hc. destruct (Hc spreading_spreadAtOnce) as [Hin _].
  vm_compute in Hin. lia.
Qed.

Example spread_trace :
  issued (pinchMoves spreadMoves down100)
  = [CZoomIn (Fin (145 # 3)) (Fin (4 # 3)); CPan (Fin (-25 # 12))] /\
  zoomInCalls (zoomState (pinchMoves spreadMoves down100))
  = [(Fin (145 # 3), Fin (4 # 3))] /\
  issued (pinchMoves pinchTogether down200)
  = [CZoomOut (Fin (145 # 3)) (Fin (3 # 2)); CPan (Fin (25 # 12))] /\
  issued (pinchMoves spreadAtOnce down100) = [].
Proof. vm_compute. repeat split; reflexivity. Qed.


(** * Loops over index ranges *)

Lemma zrange_nil lo hi : (hi <= lo)%Z -> zrange lo hi = [].
Proof.
  intro Hle. unfold zrange.
  replace (Z.to_nat (hi - lo)) with 0%nat by lia. reflexivity.
Qed.

Lemma zrange_cons lo hi :
  (lo < hi)%Z -> zrange lo hi = lo :: zrange (lo + 1) hi.
Proof.
  intro Hlt. unfold zrange.
  replace (Z.to_nat (hi - lo)) with (S (Z.to_nat (hi - (lo + 1)))) by lia.
  cbn [seq map]. f_equal; [lia|].
  rewrite <- seq_shift, map_map. apply map_ext. intro k. lia.
Qed.

Lemma zrange_length lo hi : length (zrange lo hi) = Z.to_nat (hi - lo).
Proof. unfold zrange. rewrite length_map, length_seq. reflexivity. Qed.

Lemma zrange_nth lo hi k :
  (k < Z.to_nat (hi - lo))%nat ->
  nth_error (zrange lo hi) k = Some (lo + Z.of_nat k)%Z.
Proof.
  intro Hk. unfold zrange.
  rewrite nth_error_map, nth_error_seq.
  destruct (Nat.ltb_spec k (Z.to_nat (hi - lo))); [reflexivity|lia].
Qed.

Lemma zrange_In lo hi i : In i (zrange lo hi) <-> (lo <= i < hi)%Z.
Proof.
  unfold zrange. rewrite in_map_iff. split.
  - intros (k & <- & Hk). apply in_seq in Hk. lia.
  - intro Hi. exists (Z.to_nat (i - lo)). split; [lia|].
    apply in_seq. lia.
Qed.

Lemma at_slice data from to k :
  (0 <= from)%Z -> (k < Z.to_nat (to - from))%nat ->
  nth_error (slice data from to) k = at_ data (from + Z.of_nat k).
Proof.
  intros Hf Hk. unfold slice, at_.
  destruct (Z.ltb_spec (from + Z.of_nat k) 0); [lia|].
  rewrite nth_error_firstn.
  destruct (Nat.ltb_spec k (Z.to_nat (to - from))); [|lia].
  rewrite nth_error_skipn. f_equal. lia.
Qed.

Lemma at_Some data i :
  (0 <= i < Z.of_nat (length data))%Z -> exists p, at_ data i = Some p.
Proof.
  intro Hi. unfold at_. destruct (Z.ltb_spec i 0); [lia|].
  destruct (nth_error data (Z.to_nat i)) eqn:E; [eauto|].
  apply nth_error_None in E. lia.
Qed.

Lemma slice_step data from to p :
  (0 <= from < to)%Z -> at_ data from = Some p ->
  slice data from to = p :: slice data (from + 1) to.
Proof.
  intros Hf Hp. unfold slice, at_ in *.
  destruct (Z.ltb_spec from 0); [lia|].
  replace (Z.to_nat (to - from)) with (S (Z.to_nat (to - (from + 1)))) by lia.
  replace (Z.to_nat (from + 1)) with (S (Z.to_nat from)) by lia.
  remember (Z.to_nat from) as k. clear Heqk.
  revert data Hp. induction k as [|k IH]; intros [|d data] Hp;
    cbn in Hp; try discriminate.
  - injection Hp as ->. reflexivity.
  - cbn [skipn]. apply (IH data Hp).
Qed.

(** A loop that reads [data[i]] for every [i] of a range inside the array
    does not fail, and folds its body over the points of the range. *)
Lemma foldM_slice {S : Type} (f : S -> DataPoint -> S) data :
  forall k from to acc,
  Z.to_nat (to - from) = k ->
  (0 <= from)%Z -> (to <= Z.of_nat (length data))%Z ->
  foldM (fun acc i => p <- at_ data i ;; Some (f acc p)) (zrange from to) acc
  = Some (fold_left f (slice data from to) acc).
Proof.
  induction k as [|k IH]; intros from to acc Hk Hf Ht.
  - rewrite zrange_nil by lia. unfold slice. rewrite Hk. reflexivity.
  - rewrite zrange_cons by lia.
    destruct (at_Some data from) as [p Hp]; [lia|].
    rewrite (slice_step data from to p) by (lia || assumption).
    cbn [foldM fold_left]. rewrite Hp. cbn [bind].
    apply IH; lia.
Qed.

Lemma mapM_map {A B : Type} (f : A -> option B) (g : A -> B) l :
  (forall a, In a l -> f a = Some (g a)) -> mapM f l = Some (map g l).
Proof.
  induction l as [|a l IH]; intro Hf; [reflexivity|].
  cbn [mapM map]. rewrite (Hf a) by (left; reflexivity). cbn [bind].
  rewrite IH by (intros; apply Hf; right; assumption). reflexivity.
Qed.

(** * The shape of the bucket sampler's output *)

Lemma Qfloor_lower (z : Z) (q : Q) : (inject_Z z <= q)%Q -> (z <= Qfloor q)%Z.
Proof.
  intro Hle. rewrite <- (Qfloor_Z z). apply Qfloor_resp_le. exact Hle.
Qed.

Lemma Qfloor_upper (z : Z) (q : Q) : (q <= inject_Z z)%Q -> (Qfloor q <= z)%Z.
Proof.
  intro Hle. rewrite <- (Qfloor_Z z). apply Qfloor_resp_le. exact Hle.
Qed.

(** With more points than buckets every bucket is a non-empty range
    strictly inside the array. *)
Lemma bucketRange_inside n threshold bucket :
  (3 <= threshold < n)%Z -> (0 <= bucket < threshold - 2)%Z ->
  let (rangeStart, rangeEndExclusive) := bucketRange n threshold bucket in
  (1 <= rangeStart < rangeEndExclusive)%Z /\ (rangeEndExclusive <= n - 1)%Z.
Proof.
  intros Ht Hb. unfold bucketRange.
  set (bs := (inject_Z (n - 2) / inject_Z (threshold - 2))%Q).
  assert (Hden : (0 < inject_Z (threshold - 2))%Q).
  { change 0%Q with (inject_Z 0). rewrite <- Zlt_Qlt. lia. }
  assert (Hbs : (bs * inject_Z (threshold - 2) == inject_Z (n - 2))%Q).
  { unfold bs. field. lra. }
  assert (Hnt : (inject_Z (threshold - 2) + 1 <= inject_Z (n - 2))%Q).
  { change 1%Q with (inject_Z 1). rewrite <- inject_Z_plus, <- Zle_Qle. lia. }
  assert (Hbs1 : (1 < bs)%Q) by nra.
  assert (Hb0 : (0 <= inject_Z bucket)%Q).
  { change 0%Q with (inject_Z 0). rewrite <- Zle_Qle. lia. }
  assert (Hb1 : (inject_Z (bucket + 1) == inject_Z bucket + 1)%Q).
  { rewrite inject_Z_plus. reflexivity. }
  assert (Hbt : (inject_Z (bucket + 1) <= inject_Z (threshold - 2))%Q).
  { rewrite <- Zle_Qle. lia. }
  pose proof (Qfloor_le (bs * inject_Z bucket)) as Hfl.
  assert (Hlo : (0 <= Qfloor (bs * inject_Z bucket))%Z).
  { apply Qfloor_lower. change (inject_Z 0) with 0%Q. nra. }
  assert (Hstep : (Qfloor (bs * inject_Z bucket) + 1
                   <= Qfloor (bs * inject_Z (bucket + 1)))%Z).
  { apply Qfloor_lower. rewrite inject_Z_plus. change (inject_Z 1) with 1%Q.
    rewrite Hb1. nra. }
  assert (Hhi : (Qfloor (bs * inject_Z (bucket + 1)) <= n - 2)%Z).
  { apply Qfloor_upper. rewrite <- Hbs. nra. }
  destruct (Z.geb_spec (Qfloor (bs * inject_Z bucket) + 1)
              (Z.min (Qfloor (bs * inject_Z (bucket + 1)) + 1) (n - 1)));
    lia.
Qed.

(** The bucket loop reads inside the array, so it yields what [chosenOf]
    yields on the points of the range. *)
Lemma bucketChosen_slice data mode from to :
  (0 <= from)%Z -> (to <= Z.of_nat (length data))%Z ->
  bucketChosen data mode from to = Some (chosenOf mode (slice data from to)).
Proof.
  intros Hf Ht. unfold bucketChosen, chosenOf, avgStep, extStep.
  destruct mode;
    rewrite (foldM_slice _ data (Z.to_nat (to - from))) by (reflexivity || lia);
    reflexivity.
Qed.

Lemma bucketOut_point data threshold mode fallback bucket :
  let n := Z.of_nat (length data) in
  (3 <= threshold < n)%Z -> (0 <= bucket < threshold - 2)%Z ->
  bucketOut data n threshold mode bucket
  = Some (bucketPoint data n threshold mode fallback bucket).
Proof.
  intros n Ht Hb. unfold bucketOut, bucketPoint.
  pose proof (bucketRange_inside n threshold bucket Ht Hb) as Hin.
  destruct (bucketRange n threshold bucket) as [rs re].
  rewrite bucketChosen_slice by (unfold n in *; lia). cbn [bind].
  destruct (chosenOf mode (slice data rs re)); [reflexivity|].
  unfold at_. destruct (Z.ltb_spec rs 0); [lia|].
  apply nth_error_nth'. unfold n in *. lia.
Qed.

(** The shape of the output when there are more points than buckets:
    the first point, one point per bucket, the last point. *)
Lemma sampleByBuckets_shape data targetPoints threshold mode fallback :
  let n := Z.of_nat (length data) in
  clampTargetPoints targetPoints = threshold ->
  (3 <= threshold < n)%Z ->
  sampleByBuckets data targetPoints mode
  = Some (nth 0 data fallback
          :: map (bucketPoint data n threshold mode fallback)
                 (zrange 0 (threshold - 2))
          ++ [nth (Z.to_nat (n - 1)) data fallback]).
Proof.
  intros n Hc Ht. unfold sampleByBuckets.
  fold n. rewrite Hc.
  destruct (Z.leb_spec threshold 0); [lia|].
  destruct (Z.eqb_spec n 0); [lia|]. cbn [orb].
  destruct (Z.eqb_spec threshold 1); [lia|].
  destruct (Z.eqb_spec threshold 2); [lia|].
  destruct (Z.leb_spec n threshold); [lia|].
  assert (Hfirst : at_ data 0 = Some (nth 0 data fallback)).
  { unfold at_. change (0 <? 0)%Z with false. cbv iota.
    apply nth_error_nth'. unfold n in *. change (Z.to_nat 0) with 0%nat. lia. }
  assert (Hl : at_ data (n - 1) = Some (nth (Z.to_nat (n - 1)) data fallback)).
  { unfold at_. destruct (Z.ltb_spec (n - 1) 0); [lia|].
    apply nth_error_nth'. unfold n in *. lia. }
  rewrite Hfirst, Hl. cbn [bind].
  rewrite (mapM_map _ (bucketPoint data n threshold mode fallback)).
  - reflexivity.
  - intros b Hb. apply zrange_In in Hb.
    apply bucketOut_point; [assumption|lia].
Qed.

(** * The [max] and [min] loops *)

Lemma extPoint_better mode acc p :
  extPoint mode acc p
  = if negb (isFinite (pointY p)) then acc
    else if better mode (pointY p) (fst acc) then (pointY p, Some p) else acc.
Proof. unfold extPoint, better, pointY, gtb. destruct mode; reflexivity. Qed.

Lemma better_init mode y :
  isFinite y = true -> better mode y (fst (extInit mode)) = true.
Proof. destruct y; try discriminate. destruct mode; reflexivity. Qed.

Lemma atLeast_better_trans mode y p q :
  atLeast mode p q = true -> better mode y p = true ->
  better mode y q = true.
Proof.
  destruct mode; destruct y, p, q; nsimpl; intros E1 E2;
    try discriminate; try reflexivity; qprop; lra.
Qed.

Lemma not_better_atLeast mode y p :
  isFinite y = true -> isFinite p = true ->
  better mode y p = false -> atLeast mode p y = true.
Proof.
  destruct mode; destruct y, p; nsimpl; intros E1 E2 E3;
    try discriminate; qprop; lra.
Qed.

Lemma atLeast_refl mode p : isFinite p = true -> atLeast mode p p = true.
Proof.
  destruct mode; destruct p; nsimpl; intro E; try discriminate; qprop; lra.
Qed.

Lemma better_atLeast mode a b :
  better mode a b = true -> atLeast mode a b = true.
Proof.
  destruct mode; destruct a, b; nsimpl; intro E; try discriminate;
    try reflexivity; qprop; lra.
Qed.

Lemma nth_error_snoc {A : Type} (l : list A) (q r : A) (j : nat) :
  nth_error (l ++ [q]) j = Some r ->
  ((j < length l)%nat /\ nth_error l j = Some r) \/
  (j = length l /\ r = q).
Proof.
  intro Hj. destruct (Nat.lt_ge_cases j (length l)) as [Hlt|Hge].
  - left. rewrite nth_error_app1 in Hj by assumption. split; assumption.
  - right. rewrite nth_error_app2 in Hj by assumption.
    destruct (j - length l)%nat as [|k] eqn:Ek;
      [|destruct k; discriminate Hj].
    cbn in Hj. injection Hj as <-. split; [lia|reflexivity].
Qed.

(** The state of the [max] / [min] loop after the points [pts]: nothing
    chosen and every point skipped, or the first of the best points. *)
Lemma extLoop_invariant mode pts :
  let acc := fold_left (extPoint mode) pts (extInit mode) in
  (acc = extInit mode /\
   forallb (fun p => negb (isFinite (pointY p))) pts = true)
  \/ exists i p, acc = (pointY p, Some p) /\ extremeOf mode pts i p.
Proof.
  induction pts as [|q pts IH] using rev_ind; [left; split; reflexivity|].
  cbv zeta in *. rewrite fold_left_app. cbn [fold_left].
  rewrite extPoint_better.
  destruct (isFinite (pointY q)) eqn:Eq; cbn [negb].
  - destruct IH as [[-> Hall]|(i & p & -> & Hp & Hfin & Hbest)].
    + rewrite (better_init mode _ Eq). right.
      exists (length pts), q. split; [reflexivity|]. split; [|split].
      * rewrite nth_error_app2, Nat.sub_diag by lia. reflexivity.
      * exact Eq.
      * intros j r Hj Hr.
        destruct (nth_error_snoc _ _ _ _ Hj) as [[Hlt Hj']|[-> ->]].
        -- rewrite forallb_forall in Hall.
           apply nth_error_In in Hj'. apply Hall in Hj'.
           rewrite Hr in Hj'. discriminate Hj'.
        -- split; [apply atLeast_refl; assumption|lia].
    + cbn [fst]. destruct (better mode (pointY q) (pointY p)) eqn:Eb.
      * right. exists (length pts), q. split; [reflexivity|].
        split; [|split].
        -- rewrite nth_error_app2, Nat.sub_diag by lia. reflexivity.
        -- exact Eq.
        -- intros j r Hj Hr.
           destruct (nth_error_snoc _ _ _ _ Hj) as [[Hlt Hj']|[-> ->]].
           ++ destruct (Hbest j r Hj' Hr) as [Hpr _].
              pose proof (atLeast_better_trans mode _ _ _ Hpr Eb) as Hb.
              split; [apply better_atLeast; assumption|intros _; exact Hb].
           ++ split; [apply atLeast_refl; assumption|lia].
      * right. exists i, p. split; [reflexivity|].
        assert (Hi : (i < length pts)%nat)
          by (apply nth_error_Some; congruence).
        split; [|split].
        -- rewrite nth_error_app1 by assumption. exact Hp.
        -- exact Hfin.
        -- intros j r Hj Hr.
           destruct (nth_error_snoc _ _ _ _ Hj) as [[Hlt Hj']|[-> ->]].
           ++ exact (Hbest j r Hj' Hr).
           ++ split; [apply not_better_atLeast; assumption|lia].
  - destruct IH as [[-> Hall]|(i & p & -> & Hp & Hfin & Hbest)].
    + left. split; [reflexivity|].
      rewrite forallb_app, Hall. cbn. rewrite Eq. reflexivity.
    + right. exists i, p. split; [reflexivity|].
      assert (Hi : (i < length pts)%nat)
        by (apply nth_error_Some; congruence).
      split; [|split].
      * rewrite nth_error_app1 by assumption. exact Hp.
      * exact Hfin.
      * intros j r Hj Hr.
        destruct (nth_error_snoc _ _ _ _ Hj) as [[Hlt Hj']|[-> ->]].
        -- exact (Hbest j r Hj' Hr).
        -- rewrite Hr in Eq. discriminate Eq.
Qed.

(** * Buckets without a contributing point *)

Lemma slice_length data from to :
  (0 <= from <= to)%Z -> (to <= Z.of_nat (length data))%Z ->
  length (slice data from to) = Z.to_nat (to - from).
Proof.
  intros Hf Ht. unfold slice. rewrite length_firstn, length_skipn. lia.
Qed.

(** The length of the output and the slot of a bucket. *)
Lemma sampleByBuckets_slots data targetPoints threshold mode fallback :
  let n := Z.of_nat (length data) in
  clampTargetPoints targetPoints = threshold ->
  (3 <= threshold < n)%Z ->
  exists out,
    sampleByBuckets data targetPoints mode = Some out /\
    length out = Z.to_nat threshold /\
    forall bucket, (0 <= bucket < threshold - 2)%Z ->
      nth_error out (Z.to_nat (bucket + 1))
      = Some (bucketPoint data n threshold mode fallback bucket).
Proof.
  intros n Hc Ht.
  eexists. split;
    [exact (sampleByBuckets_shape data targetPoints threshold mode fallback
              Hc Ht)|].
  fold n. split.
  - cbn [length]. rewrite length_app, length_map, zrange_length.
    cbn [length]. lia.
  - intros bucket Hb.
    replace (Z.to_nat (bucket + 1)) with (S (Z.to_nat bucket)) by lia.
    cbn [nth_error].
    rewrite nth_error_app1
      by (rewrite length_map, zrange_length; lia).
    rewrite nth_error_map, zrange_nth by lia. cbn [option_map].
    do 2 f_equal. lia.
Qed.

(** A series with a point in it has a point to fall back on. *)
Lemma some_point (data : list DataPoint) :
  (0 < Z.of_nat (length data))%Z -> exists d0 : DataPoint, True.
Proof. destruct data as [|d0 ?]; [cbn; lia|exists d0; exact I]. Qed.

Lemma avgLoop_excluded pts : forall acc,
  forallb (excluded Average) pts = true -> fold_left avgPoint pts acc = acc.
Proof.
  induction pts as [|p pts IH]; intros acc Hall; [reflexivity|].
  cbn [forallb] in Hall. apply andb_true_iff in Hall.
  destruct Hall as [Hp Hall]. cbn [fold_left].
  rewrite (IH _ Hall).
  unfold avgPoint, excluded, pointX, pointY in *.
  destruct (getXY p) as [x y]. cbn [fst snd] in Hp. rewrite Hp.
  reflexivity.
Qed.

Lemma extLoop_excluded mode pts : forall acc,
  forallb (fun p => negb (isFinite (pointY p))) pts = true ->
  fold_left (extPoint mode) pts acc = acc.
Proof.
  induction pts as [|p pts IH]; intros acc Hall; [reflexivity|].
  cbn [forallb] in Hall. apply andb_true_iff in Hall.
  destruct Hall as [Hp Hall]. cbn [fold_left].
  rewrite (IH _ Hall), extPoint_better, Hp. reflexivity.
Qed.

Lemma chosenOf_excluded mode pts :
  forallb (excluded mode) pts = true -> chosenOf mode pts = None.
Proof.
  intro Hall. unfold chosenOf. destruct mode.
  - rewrite (avgLoop_excluded _ _ Hall). reflexivity.
  - rewrite (extLoop_excluded Max _ _ Hall). reflexivity.
  - rewrite (extLoop_excluded Min _ _ Hall). reflexivity.
Qed.


(** * The point a [max] or [min] bucket contributes *)

Lemma chosenOf_extreme mode pts :
  mode <> Average ->
  forallb (excluded mode) pts = false ->
  exists i p, chosenOf mode pts = Some p /\ extremeOf mode pts i p.
Proof.
  intros Hm Hsome.
  assert (Hex : excluded mode = fun p => negb (isFinite (pointY p)))
    by (destruct mode; [contradiction|reflexivity ..]).
  assert (Hch : chosenOf mode pts
                = snd (fold_left (extPoint mode) pts (extInit mode)))
    by (destruct mode; [contradiction|reflexivity ..]).
  rewrite Hch. rewrite Hex in Hsome.
  destruct (extLoop_invariant mode pts) as [[_ Hall]|(i & p & -> & Hp)].
  - rewrite Hall in Hsome. discriminate Hsome.
  - exists i, p. split; [reflexivity|exact Hp].
Qed.

Lemma extremeOf_firstBest mode data from to i p :
  (0 <= from <= to)%Z -> (to <= Z.of_nat (length data))%Z ->
  extremeOf mode (slice data from to) i p ->
  firstBest mode data from to (from + Z.of_nat i) p.
Proof.
  intros Hf Ht (Hp & Hfin & Hbest).
  assert (Hi : (i < Z.to_nat (to - from))%nat).
  { rewrite <- (slice_length data from to) by lia.
    apply nth_error_Some. congruence. }
  split; [lia|]. split; [|split; [exact Hfin|]].
  - rewrite <- at_slice with (to := to) by lia. exact Hp.
  - intros j q Hj Hq Hqfin.
    replace j with (from + Z.of_nat (Z.to_nat (j - from)))%Z in Hq by lia.
    rewrite <- at_slice with (to := to) in Hq by lia.
    destruct (Hbest _ q Hq Hqfin) as [Hge Hlt].
    split; [exact Hge|]. intro Hji. apply Hlt. lia.
Qed.


(** ** Buckets of the sample series *)

Import SamplingConfig.

Example ridge_max :
  sampleByBuckets ridge (Fin 5) Max
  = Some [PObject (Fin 0) (Fin 0) None; PObject (Fin 1) (Fin 4) None;
          PObject (Fin 4) (Fin 7) None; PObject (Fin 7) (Fin 5) None;
          PObject (Fin 9) (Fin 1) None].
Proof. vm_compute. reflexivity. Qed.

Example ridge_min :
  sampleByBuckets ridge (Fin 5) Min
  = Some [PObject (Fin 0) (Fin 0) None; PObject (Fin 1) (Fin 4) None;
          PObject (Fin 4) (Fin 7) None; PObject (Fin 6) (Fin 2) None;
          PObject (Fin 9) (Fin 1) None].
Proof. vm_compute. reflexivity. Qed.

Example gap_keeps_start :
  sampleByBuckets gap (Fin 5) Average
  = Some [PTuple (Fin 0) (Fin 0) None; PTuple (Fin 1) NaN None;
          PTuple (Fin 4) (Fin 4) None; PTuple (Fin 7) (Fin 7) None;
          PTuple (Fin 9) (Fin 9) None]
  /\ sampleByBuckets gap (Fin 5) Max
     = Some [PTuple (Fin 0) (Fin 0) None; PTuple (Fin 1) NaN None;
             PTuple (Fin 5) (Fin 5) None; PTuple (Fin 8) (Fin 8) None;
             PTuple (Fin 9) (Fin 9) None].
Proof. vm_compute. split; reflexivity. Qed.

(** A point skipped for its missing y does not lend its magnitude to the
    average of its bucket. *)
Example skipped_point_size_not_counted :
  sampleByBuckets
    [xy 0; PTuple (Fin 1) NaN (Some (Fin 5)); xy 2; xy 3] (Fin 3) Average
  = Some [xy 0; xy 2; xy 3].
Proof. vm_compute. reflexivity. Qed.



(** * The [average] of a bucket *)

(** The sums of the [average] loop over points with finite coordinates. *)
Lemma avgLoop_sums pts : forall acc,
  forallb (fun p => negb (excluded Average p)) pts = true ->
  let sizes := finiteSizes (map getSize pts) in
  fold_left avgPoint pts acc
  = mkAvg (fold_left Num.add (map pointX pts) (sumX acc))
          (fold_left Num.add (map pointY pts) (sumY acc))
          (fold_left Num.add sizes (sumSize acc))
          (count acc + Z.of_nat (length pts))
          (sizeCount acc + Z.of_nat (length sizes)).
Proof.
  induction pts as [|p pts IH]; intros acc Hall.
  - cbn. rewrite !Z.add_0_r. destruct acc; reflexivity.
  - cbn [forallb] in Hall. apply andb_true_iff in Hall.
    destruct Hall as [Hp Hall]. cbv zeta in *.
    cbn [fold_left map length]. rewrite (IH _ Hall).
    unfold avgPoint, excluded, pointX, pointY in *.
    destruct (getXY p) as [x y]. cbn [fst snd] in *.
    apply negb_true_iff in Hp. rewrite Hp.
    unfold finiteSizes. cbn [flat_map].
    destruct (getSize p) as [s|]; [destruct (isFinite s)|];
      cbn [sumX sumY sumSize count sizeCount app fold_left length];
      f_equal; lia.
Qed.

Lemma mean_cons a l :
  mean (a :: l)
  = Some (fold_left Num.add (a :: l) zero
          / ofZ (Z.of_nat (length (a :: l))))%num.
Proof. reflexivity. Qed.

(** The [average] of a bucket whose points all have finite coordinates:
    the means of x and y, and the mean of the finite magnitudes, or no
    magnitude where there is none. *)
Lemma chosenOf_average p pts :
  forallb (fun q => negb (excluded Average q)) (p :: pts) = true ->
  exists mx my,
    mean (map pointX (p :: pts)) = Some mx /\
    mean (map pointY (p :: pts)) = Some my /\
    chosenOf Average (p :: pts)
    = Some (PTuple mx my (mean (finiteSizes (map getSize (p :: pts))))).
Proof.
  intro Hall. do 2 eexists. split; [|split].
  - cbn [map]. apply mean_cons.
  - cbn [map]. apply mean_cons.
  - unfold chosenOf. rewrite (avgLoop_sums _ _ Hall). cbv zeta.
    unfold avgChosen, avgInit.
    cbn [sumX sumY sumSize count sizeCount].
    rewrite !Z.add_0_l.
    destruct (Z.gtb_spec (Z.of_nat (length (p :: pts))) 0);
      [|cbn [length] in *; lia].
    cbn [map]. cbn [length]. rewrite !length_map.
    destruct (finiteSizes (getSize p :: map getSize pts)) as [|s sizes] eqn:Es.
    + reflexivity.
    + destruct (Z.gtb_spec (Z.of_nat (length (s :: sizes))) 0);
        [|cbn [length] in *; lia].
      rewrite mean_cons. reflexivity.
Qed.

(** The points the loop skips leave the sums as they are. *)
Lemma avgLoop_contributing pts : forall acc,
  fold_left avgPoint pts acc = fold_left avgPoint (contributing pts) acc.
Proof.
  induction pts as [|p pts IH]; intro acc; [reflexivity|].
  unfold contributing in *. cbn [filter fold_left].
  destruct (excluded Average p) eqn:Ep; cbn [negb fold_left].
  - rewrite <- IH. f_equal.
    unfold avgPoint, excluded, pointX, pointY in *.
    destruct (getXY p) as [x y]. cbn [fst snd] in Ep. rewrite Ep.
    reflexivity.
  - apply IH.
Qed.

Lemma contributing_all pts :
  forallb (fun q => negb (excluded Average q)) (contributing pts) = true.
Proof.
  unfold contributing. apply forallb_forall. intros q Hq.
  apply filter_In in Hq. exact (proj2 Hq).
Qed.

Lemma clampTargetPoints_ofZ t : clampTargetPoints (ofZ t) = t.
Proof.
  unfold clampTargetPoints, ofZ, Num.floor. cbv beta iota.
  rewrite !Qfloor_Z. reflexivity.
Qed.

Section AverageOfTen.

Variable lttbSample : list DataPoint -> num -> option (list DataPoint).


End AverageOfTen.


(** * Degenerate targets *)

(** The degenerate branches of the bucket sampler. *)
Lemma sampleByBuckets_degenerate data targetPoints mode :
  let n := Z.of_nat (length data) in
  let threshold := clampTargetPoints targetPoints in
  ((threshold <= 0)%Z -> sampleByBuckets data targetPoints mode = Some []) /\
  (threshold = 1%Z ->
   sampleByBuckets data targetPoints mode = Some (firstn 1 data)) /\
  (threshold = 2%Z -> (2 <= n)%Z ->
   exists first last,
     at_ data 0 = Some first /\ at_ data (n - 1) = Some last /\
     sampleByBuckets data targetPoints mode = Some [first; last]) /\
  ((1 <= threshold)%Z -> (n <= threshold)%Z ->
   sampleByBuckets data targetPoints mode = Some data).
Proof.
  intros n threshold. unfold sampleByBuckets. fold n. fold threshold.
  split; [|split; [|split]].
  - intro Ht. destruct (Z.leb_spec threshold 0); [reflexivity|lia].
  - intros ->. cbn [Z.leb Z.compare orb Z.eqb Pos.eqb].
    destruct data as [|p rest]; reflexivity.
  - intros -> Hn. cbn [Z.leb Z.compare orb Z.eqb Pos.eqb].
    destruct (Z.eqb_spec n 0); [lia|].
    destruct (Z.geb_spec n 2); [|lia].
    destruct (at_Some data 0) as [first Hf]; [fold n; lia|].
    destruct (at_Some data (n - 1)) as [last Hl]; [fold n; lia|].
    exists first, last. rewrite Hf, Hl. repeat split.
  - intros Ht Hn.
    destruct (Z.leb_spec threshold 0); [lia|]. cbn [orb].
    destruct (Z.eqb_spec n 0) as [E|E].
    { destruct data; [reflexivity|cbn in n; lia]. }
    destruct (Z.eqb_spec threshold 1) as [E1|E1].
    { destruct data as [|p [|q rest]]; cbn in n; try lia. reflexivity. }
    destruct (Z.eqb_spec threshold 2) as [E2|E2].
    { destruct data as [|p [|q [|r rest]]]; cbn in n; try lia; reflexivity. }
    destruct (Z.leb_spec n threshold); [reflexivity|lia].
Qed.

Section Degenerate.

Variable lttbSample : list DataPoint -> num -> option (list DataPoint).

(** Past its guards the entry point hands an aggregate sampling to the
    bucket sampler with the clamped threshold. *)
Lemma sampleSeriesDataPoints_aggregate data sampling mode targetPoints :
  let n := Z.of_nat (length data) in
  let threshold := clampTargetPoints targetPoints in
  aggregate sampling = Some mode -> (0 < threshold < n)%Z ->
  sampleSeriesDataPoints lttbSample data sampling targetPoints
  = sampleByBuckets data (ofZ threshold) mode.
Proof.
  intros n threshold Hm Ht. unfold sampleSeriesDataPoints.
  fold threshold. fold n.
  destruct (Z.gtb_spec threshold 0); [|lia]. cbn [negb].
  destruct (Z.leb_spec n threshold); [lia|].
  destruct sampling; try discriminate Hm; injection Hm as <-; reflexivity.
Qed.


End Degenerate.



(** * The sorted-range slicer *)

Section SlicerFacts.

Import RangeSlicer.

Lemma half_between lo hi :
  (lo < hi)%nat -> (lo <= (lo + hi) / 2 < hi)%nat.
Proof.
  intro Hlt.
  pose proof (Nat.div_mod_eq (lo + hi) 2) as Hd.
  pose proof (Nat.mod_upper_bound (lo + hi) 2 ltac:(lia)) as Hm. lia.
Qed.

(** The search returns the end of the prefix on which [p] holds. *)
Lemma search_spec p lo hi :
  (lo <= hi)%nat ->
  (forall i j, (lo <= i <= j)%nat -> (j < hi)%nat ->
               p j = true -> p i = true) ->
  (lo <= search p lo hi <= hi)%nat /\
  (forall i, (lo <= i < search p lo hi)%nat -> p i = true) /\
  (forall i, (search p lo hi <= i < hi)%nat -> p i = false).
Proof.
  funelim (search p lo hi); intros Hle Hmono.
  - (* the range is empty *)
    split; [lia|]. split; intros i Hi; lia.
  - (* [p] holds at the middle: go right *)
    assert (Hp : p ((lo + hi) / 2)%nat = true) by assumption.
    pose proof (half_between lo hi l) as Hmid.
    match goal with
    | IH : (_ <= _)%nat -> _ |- _ =>
        destruct IH as (Hr & Hbelow & Habove);
          [lia|intros i j Hij Hj; apply Hmono; lia|]
    end.
    split; [lia|]. split; [|exact Habove].
    intros i Hi.
    destruct (Nat.le_gt_cases i ((lo + hi) / 2)) as [Hl|Hg].
    + apply (Hmono i ((lo + hi) / 2)%nat); [lia|lia|exact Hp].
    + apply Hbelow. lia.
  - (* it does not: go left *)
    assert (Hp : p ((lo + hi) / 2)%nat = false) by assumption.
    pose proof (half_between lo hi l) as Hmid.
    match goal with
    | IH : (_ <= _)%nat -> _ |- _ =>
        destruct IH as (Hr & Hbelow & Habove);
          [lia|intros i j Hij Hj; apply Hmono; lia|]
    end.
    split; [lia|]. split; [exact Hbelow|].
    intros i Hi.
    destruct (Nat.lt_ge_cases i ((lo + hi) / 2)) as [Hl|Hg].
    + apply Habove. lia.
    + destruct (p i) eqn:Epi; [|reflexivity].
      rewrite (Hmono ((lo + hi) / 2)%nat i) in Hp;
        [discriminate Hp|lia|lia|exact Epi].
Qed.

Lemma leb_trans a b c :
  (a <=? b)%num = true -> (b <=? c)%num = true -> (a <=? c)%num = true.
Proof.
  destruct a, b, c; nsimpl; intros E1 E2; try discriminate;
    try reflexivity; qprop; lra.
Qed.

Lemma leb_ltb_trans a b c :
  (a <=? b)%num = true -> (b <? c)%num = true -> (a <? c)%num = true.
Proof.
  destruct a, b, c; nsimpl; intros E1 E2; try discriminate;
    try reflexivity; qprop; lra.
Qed.

Lemma leb_refl a : isFinite a = true -> (a <=? a)%num = true.
Proof. destruct a; nsimpl; intro E; try discriminate. qprop. lra. Qed.

(** For a finite [x] and a bound that is a number, [bound <= x] is the
    negation of [x < bound]. *)
Lemma leb_negb_ltb bound x :
  bound <> NaN -> isFinite x = true ->
  (bound <=? x)%num = negb (x <? bound)%num.
Proof.
  intros Hb Hx. destruct x; try discriminate.
  destruct bound; try contradiction; nsimpl; try reflexivity.
  unfold Qlt_bool. rewrite negb_involutive. reflexivity.
Qed.

(** A verified series is finite and non-decreasing at every pair of
    indices. *)
Lemma monotonic_nth xs :
  isMonotonicNonDecreasingFinite xs = true ->
  forall i j, (i <= j < length xs)%nat ->
    isFinite (nth i xs NaN) = true /\
    (nth i xs NaN <=? nth j xs NaN)%num = true.
Proof.
  induction xs as [|x xs IH]; intros Hs i j Hij; [cbn in Hij; lia|].
  cbn [isMonotonicNonDecreasingFinite] in Hs.
  apply andb_true_iff in Hs. destruct Hs as [Hs Hrest].
  apply andb_true_iff in Hs. destruct Hs as [Hx Hnext].
  destruct i as [|i].
  - split; [exact Hx|]. destruct j as [|j]; [apply leb_refl; exact Hx|].
    destruct xs as [|y xs']; [cbn in Hij; lia|].
    apply (leb_trans _ y); [exact Hnext|].
    apply (proj2 (IH Hrest 0%nat j ltac:(cbn in *; lia))).
  - destruct j as [|j]; [lia|]. cbn [nth].
    apply IH; [exact Hrest|cbn in Hij; lia].
Qed.

Lemma filter_range {A : Type} (f : A -> bool) (l : list A) :
  forall lo hi,
  (forall i a, nth_error l i = Some a ->
               (f a = true <-> (lo <= i < hi)%nat)) ->
  filter f l = skipn lo (firstn hi l).
Proof.
  induction l as [|a l IH]; intros lo hi Hf.
  - rewrite firstn_nil, skipn_nil. reflexivity.
  - pose proof (Hf 0%nat a eq_refl) as Ha.
    assert (Hl : forall lo' hi',
               (forall i, (lo' <= i < hi')%nat <-> (lo <= S i < hi)%nat) ->
               filter f l = skipn lo' (firstn hi' l)).
    { intros lo' hi' Hshift. apply IH. intros i b Hb.
      rewrite (Hf (S i) b Hb). symmetry. apply Hshift. }
    assert (Hfa : f a = if (lo =? 0)%nat then negb (hi =? 0)%nat else false).
    { destruct (f a).
      - destruct (proj1 Ha eq_refl) as [Hlo Hhi].
        destruct lo; [|lia]. destruct hi; [lia|reflexivity].
      - destruct lo, hi; try reflexivity.
        discriminate (proj2 Ha ltac:(lia)). }
    cbn [filter]. rewrite Hfa.
    destruct lo as [|lo], hi as [|hi]; cbn [firstn skipn Nat.eqb negb].
    + rewrite (Hl 0%nat 0%nat) by (intro; lia). reflexivity.
    + rewrite (Hl 0%nat hi) by (intro; lia). reflexivity.
    + rewrite (Hl lo 0%nat) by (intro; lia). rewrite skipn_nil.
      reflexivity.
    + apply Hl. intro; lia.
Qed.

Lemma ltb_negb_leb bound x :
  bound <> NaN -> isFinite x = true ->
  (bound <? x)%num = negb (x <=? bound)%num.
Proof.
  intros Hb Hx. destruct x; try discriminate.
  destruct bound; try contradiction; nsimpl; reflexivity.
Qed.

Lemma window_empty min max x :
  (max <? min)%num = true -> inWindow min max x = false.
Proof.
  intro Hlt. unfold inWindow.
  destruct (min <=? x)%num eqn:E1; [|reflexivity].
  destruct (x <=? max)%num eqn:E2; [|reflexivity].
  exfalso. pose proof (leb_trans _ _ _ E1 E2) as Hle.
  revert Hlt Hle. clear.
  destruct min, max; nsimpl; intros E1 E2; try discriminate; qprop; lra.
Qed.

Lemma filter_none {A : Type} (f : A -> bool) (l : list A) :
  (forall a, f a = false) -> filter f l = [].
Proof.
  intro Hf. induction l as [|a l IH]; [reflexivity|].
  cbn [filter]. rewrite Hf. exact IH.
Qed.

Section SortedSlice.

Context {A : Type} (xOf : A -> num).

Variables (series : list A) (min max : num).

Let xs : list num := map xOf series.

Hypothesis Hsorted : isMonotonicNonDecreasingFinite xs = true.

Lemma x_at i a : nth_error series i = Some a -> nth i xs NaN = xOf a.
Proof.
  intro Hi. unfold xs.
  apply nth_error_nth. rewrite nth_error_map, Hi. reflexivity.
Qed.

Lemma lowerBound_spec :
  (lowerBound xs min <= length xs)%nat /\
  forall i, (i < length xs)%nat ->
    ((i < lowerBound xs min)%nat <-> (nth i xs NaN <? min)%num = true).
Proof.
  unfold lowerBound.
  destruct (search_spec (fun i => (nth i xs NaN <? min)%num) 0 (length xs))
    as (Hr & Hbelow & Habove); [lia| |].
  - intros i j Hij Hj Hpj. cbv beta in *.
    destruct (monotonic_nth xs Hsorted i j ltac:(lia)) as [_ Hle].
    exact (leb_ltb_trans _ _ _ Hle Hpj).
  - split; [lia|]. intros i Hi. split.
    + intro Hlt. apply Hbelow. lia.
    + intro Hp. destruct (Nat.lt_ge_cases i
        (search (fun i => (nth i xs NaN <? min)%num) 0 (length xs)))
        as [Hlt|Hge]; [exact Hlt|].
      rewrite (Habove i) in Hp by lia. discriminate Hp.
Qed.

Lemma upperBound_spec :
  (upperBound xs max <= length xs)%nat /\
  forall i, (i < length xs)%nat ->
    ((i < upperBound xs max)%nat <-> (nth i xs NaN <=? max)%num = true).
Proof.
  unfold upperBound.
  destruct (search_spec (fun i => (nth i xs NaN <=? max)%num) 0 (length xs))
    as (Hr & Hbelow & Habove); [lia| |].
  - intros i j Hij Hj Hpj. cbv beta in *.
    destruct (monotonic_nth xs Hsorted i j ltac:(lia)) as [_ Hle].
    exact (leb_trans _ _ _ Hle Hpj).
  - split; [lia|]. intros i Hi. split.
    + intro Hlt. apply Hbelow. lia.
    + intro Hp. destruct (Nat.lt_ge_cases i
        (search (fun i => (nth i xs NaN <=? max)%num) 0 (length xs)))
        as [Hlt|Hge]; [exact Hlt|].
      rewrite (Habove i) in Hp by lia. discriminate Hp.
Qed.

(** C4: for a series verified non-decreasing in x and a window of
    numbers [[min, max]], the slicer returns the half-open index range
    from the first index with [x >= min] to the first index with
    [x > max]; the points it selects are exactly those with
    [min <= x <= max], so points at [min] or at [max] and runs of equal x
    are kept whole; an empty window or an empty series selects nothing. *)
Theorem sorted_slice_is_window :
  min <> NaN -> max <> NaN ->
  let lo := lowerBound xs min in
  let hi := upperBound xs max in
  sliceVisible xs min max = VRange lo hi /\
  (lo <= length series)%nat /\ (hi <= length series)%nat /\
  (forall i, (i < length series)%nat ->
     ((lo <= i)%nat <-> (min <=? nth i xs NaN)%num = true)) /\
  (forall i, (i < length series)%nat ->
     ((hi <= i)%nat <-> (max <? nth i xs NaN)%num = true)) /\
  select series (sliceVisible xs min max)
  = filter (fun a => inWindow min max (xOf a)) series /\
  (series = [] -> select series (sliceVisible xs min max) = []) /\
  ((max <? min)%num = true ->
   select series (sliceVisible xs min max) = []).
Proof.
  intros Hmin Hmax lo hi.
  assert (Hlen : length xs = length series) by apply length_map.
  destruct lowerBound_spec as [Hlo Hlo'].
  destruct upperBound_spec as [Hhi Hhi'].
  fold lo in Hlo, Hlo'. fold hi in Hhi, Hhi'. rewrite Hlen in *.
  assert (Hslice : sliceVisible xs min max = VRange lo hi)
    by (unfold sliceVisible; rewrite Hsorted; reflexivity).
  assert (Hlo_ge : forall i, (i < length series)%nat ->
            ((lo <= i)%nat <-> (min <=? nth i xs NaN)%num = true)).
  { intros i Hi.
    destruct (monotonic_nth xs Hsorted i i ltac:(lia)) as [Hfin _].
    rewrite (leb_negb_ltb min _ Hmin Hfin), negb_true_iff.
    specialize (Hlo' i Hi).
    destruct (nth i xs NaN <? min)%num; split; intro Hx;
      try reflexivity; try discriminate Hx.
    - pose proof (proj2 Hlo' eq_refl). lia.
    - destruct (Nat.lt_ge_cases i lo) as [Hlt|Hge]; [|exact Hge].
      discriminate (proj1 Hlo' Hlt). }
  assert (Hhi_ge : forall i, (i < length series)%nat ->
            ((hi <= i)%nat <-> (max <? nth i xs NaN)%num = true)).
  { intros i Hi.
    destruct (monotonic_nth xs Hsorted i i ltac:(lia)) as [Hfin _].
    rewrite (ltb_negb_leb max _ Hmax Hfin), negb_true_iff.
    specialize (Hhi' i Hi).
    destruct (nth i xs NaN <=? max)%num; split; intro Hx;
      try reflexivity; try discriminate Hx.
    - pose proof (proj2 Hhi' eq_refl). lia.
    - destruct (Nat.lt_ge_cases i hi) as [Hlt|Hge]; [|exact Hge].
      discriminate (proj1 Hhi' Hlt). }
  assert (Hsel : select series (sliceVisible xs min max)
                 = filter (fun a => inWindow min max (xOf a)) series).
  { rewrite Hslice. cbn [select]. symmetry. apply filter_range.
    intros i a Ha.
    assert (Hi : (i < length series)%nat)
      by (apply nth_error_Some; congruence).
    unfold inWindow. rewrite <- (x_at i a Ha), andb_true_iff.
    rewrite <- (Hlo_ge i Hi), <- (Hhi' i Hi). reflexivity. }
  repeat split; try assumption.
  - apply Hlo_ge; assumption.
  - apply Hlo_ge; assumption.
  - apply Hhi_ge; assumption.
  - apply Hhi_ge; assumption.
  - intros ->. rewrite Hsel. reflexivity.
  - intro Hempty. rewrite Hsel. apply filter_none.
    intro a. apply window_empty. exact Hempty.
Qed.

End SortedSlice.

End SlicerFacts.

(** Seven stamps with ties at both ends of the window [[100, 200]]. *)
Example stamps_window :
  RangeSlicer.sliceVisible RangeSlicer.stamps (Fin 100) (Fin 200)
  = RangeSlicer.VRange 1 6.
Proof. vm_compute. reflexivity. Qed.

(** A thousand and one points at x = 0, 1, ..., 1000: the window
    [[100, 200]] is the index range from 100 up to, not including, 201. *)
Example thousand_points :
  RangeSlicer.sliceVisible (map ofZ (zrange 0 1001)) (Fin 100) (Fin 200)
  = RangeSlicer.VRange 100 201.
Proof. vm_compute. reflexivity. Qed.

Lemma sorted_slice_is_window_witness :
  RangeSlicer.select RangeSlicer.stamps
    (RangeSlicer.sliceVisible (map (fun x => x) RangeSlicer.stamps)
       (Fin 100) (Fin 200))
  = [Fin 100; Fin 100; Fin 150; Fin 200; Fin 200].
Proof.
  destruct (sorted_slice_is_window (fun x => x) RangeSlicer.stamps
              (Fin 100) (Fin 200))
    as (_ & _ & _ & _ & _ & Hsel & _).
  - vm_compute. reflexivity.
  - discriminate.
  - discriminate.
  - rewrite Hsel. vm_compute. reflexivity.
Defined.

(** * The render scheduler coalesces requests *)

Section CoalescerFacts.

Import FrameCoalescer.

Lemma requests_when_pending k st :
  pending st = true -> requests k st = st.
Proof.
  revert st. induction k as [|k IH]; intros st Hp; [reflexivity|].
  cbn [requests]. unfold request. rewrite Hp. apply IH. exact Hp.
Qed.

(** Any number of requests, if there is one, schedules one wake-up. *)
Lemma requests_when_idle k st :
  pending st = false -> (1 <= k)%nat ->
  requests k st
  = mkState (running st) true (S (scheduled st)) (passes st).
Proof.
  intros Hp Hk. destruct k as [|k]; [lia|].
  cbn [requests]. unfold request at 1. rewrite Hp.
  apply requests_when_pending. reflexivity.
Qed.

(** C6: in a running scheduler with nothing pending, any number [k >= 1]
    of [request()] calls before a refresh schedules one wake-up and the
    refresh runs exactly one pass; without a request the refresh runs no
    pass and nothing is scheduled; and when the pass itself calls
    [request()] (any number of times), exactly one further wake-up is
    pending after it, which the next refresh turns into exactly one
    further pass. *)
Theorem requests_coalesce (st : State) (k again : nat) :
  running st = true -> pending st = false ->
  ((1 <= k)%nat ->
   scheduled (requests k st) = S (scheduled st) /\
   passes (tick again (requests k st)) = S (passes st)) /\
  (tick again st = st /\ scheduled (requests 0 st) = scheduled st) /\
  ((1 <= k)%nat -> (1 <= again)%nat ->
   let st' := tick again (requests k st) in
   pending st' = true /\
   scheduled st' = S (S (scheduled st)) /\
   passes st' = S (passes st) /\
   passes (tick 0 st') = S (S (passes st)) /\
   pending (tick 0 st') = false) /\
  ((1 <= k)%nat ->
   let st' := tick 0 (requests k st) in
   pending st' = false /\ scheduled st' = S (scheduled st) /\
   tick again st' = st').
Proof.
  intros Hrun Hidle.
  assert (Htick : forall a, (1 <= k)%nat ->
            tick a (requests k st)
            = requests a (mkState true false (S (scheduled st))
                                  (S (passes st)))).
  { intros a Hk. rewrite (requests_when_idle k st Hidle Hk).
    unfold tick. cbn [pending running scheduled passes]. rewrite Hrun.
    reflexivity. }
  split; [|split; [|split]].
  - intro Hk. split.
    + rewrite (requests_when_idle k st Hidle Hk). reflexivity.
    + rewrite (Htick again Hk).
      destruct again as [|a]; [reflexivity|].
      rewrite requests_when_idle by (reflexivity || lia). reflexivity.
  - split; [|reflexivity]. unfold tick. rewrite Hidle. reflexivity.
  - intros Hk Ha. cbv zeta. rewrite (Htick again Hk).
    rewrite requests_when_idle by (reflexivity || lia).
    cbn. repeat split.
  - intro Hk. cbv zeta. rewrite (Htick 0%nat Hk). cbn. repeat split.
Qed.

End CoalescerFacts.

(** Fifty requests before one refresh: one wake-up, one pass. *)
Lemma requests_coalesce_witness :
  FrameCoalescer.scheduled
    (FrameCoalescer.requests 50 (FrameCoalescer.start FrameCoalescer.create))
  = 1%nat /\
  FrameCoalescer.passes
    (FrameCoalescer.tick 0
       (FrameCoalescer.requests 50
          (FrameCoalescer.start FrameCoalescer.create)))
  = 1%nat.
Proof.
  destruct (requests_coalesce (FrameCoalescer.start FrameCoalescer.create)
              50 0) as [H50 _].
  - reflexivity.
  - reflexivity.
  - apply H50. lia.
Defined.

Example stopped_scheduler_is_inert :
  FrameCoalescer.passes
    (FrameCoalescer.tick 0
       (FrameCoalescer.request
          (FrameCoalescer.stop
             (FrameCoalescer.request
                (FrameCoalescer.start FrameCoalescer.create)))))
  = 0%nat.
Proof. reflexivity. Qed.

(** * The bucket sampler on every input *)

(** With more points than buckets the guard for an empty range never
    fires: a bucket runs from its start to the start of the next. *)
Lemma bucketRange_exact n threshold bucket :
  (3 <= threshold < n)%Z -> (0 <= bucket < threshold - 2)%Z ->
  bucketRange n threshold bucket
  = (bucketStart n threshold bucket, bucketStart n threshold (bucket + 1))
  /\ (bucketStart n threshold bucket
      < bucketStart n threshold (bucket + 1))%Z.
Proof.
  intros Ht Hb. unfold bucketRange, bucketStart.
  set (bs := (inject_Z (n - 2) / inject_Z (threshold - 2))%Q).
  assert (Hden : (0 < inject_Z (threshold - 2))%Q).
  { change 0%Q with (inject_Z 0). rewrite <- Zlt_Qlt. lia. }
  assert (Hbs : (bs * inject_Z (threshold - 2) == inject_Z (n - 2))%Q).
  { unfold bs. field. lra. }
  assert (Hnt : (inject_Z (threshold - 2) + 1 <= inject_Z (n - 2))%Q).
  { change 1%Q with (inject_Z 1). rewrite <- inject_Z_plus, <- Zle_Qle. lia. }
  assert (Hbs1 : (1 < bs)%Q) by nra.
  assert (Hb0 : (0 <= inject_Z bucket)%Q).
  { change 0%Q with (inject_Z 0). rewrite <- Zle_Qle. lia. }
  assert (Hb1 : (inject_Z (bucket + 1) == inject_Z bucket + 1)%Q).
  { rewrite inject_Z_plus. reflexivity. }
  assert (Hbt : (inject_Z (bucket + 1) <= inject_Z (threshold - 2))%Q).
  { rewrite <- Zle_Qle. lia. }
  assert (Hstep : (Qfloor (bs * inject_Z bucket) + 1
                   <= Qfloor (bs * inject_Z (bucket + 1)))%Z).
  { apply Qfloor_lower. rewrite inject_Z_plus. change (inject_Z 1) with 1%Q.
    pose proof (Qfloor_le (bs * inject_Z bucket)). rewrite Hb1. nra. }
  assert (Hhi : (Qfloor (bs * inject_Z (bucket + 1)) <= n - 2)%Z).
  { apply Qfloor_upper. rewrite <- Hbs. nra. }
  rewrite (Z.min_l _ (n - 1)) by lia.
  destruct (Z.geb_spec (Qfloor (bs * inject_Z bucket) + 1)
              (Qfloor (bs * inject_Z (bucket + 1)) + 1)); [lia|].
  split; [reflexivity|lia].
Qed.

Lemma bucketStart_first n threshold : bucketStart n threshold 0 = 1%Z.
Proof.
  unfold bucketStart.
  assert (E : (inject_Z (n - 2) / inject_Z (threshold - 2) * inject_Z 0
               == inject_Z 0)%Q) by (change (inject_Z 0) with 0%Q; ring).
  rewrite E, Qfloor_Z. reflexivity.
Qed.

Lemma bucketStart_last n threshold :
  (3 <= threshold)%Z -> bucketStart n threshold (threshold - 2) = (n - 1)%Z.
Proof.
  intro Ht. unfold bucketStart.
  assert (Hden : (0 < inject_Z (threshold - 2))%Q).
  { change 0%Q with (inject_Z 0). rewrite <- Zlt_Qlt. lia. }
  assert (E : (inject_Z (n - 2) / inject_Z (threshold - 2)
               * inject_Z (threshold - 2) == inject_Z (n - 2))%Q).
  { field. lra. }
  rewrite E, Qfloor_Z. lia.
Qed.



(** * The output of the bucket sampler: size and end points *)

Lemma nth_last_point (data : list DataPoint) (d : DataPoint) :
  nth (length data - 1) data d = last data d.
Proof.
  induction data as [|a l IH]; [reflexivity|].
  destruct l as [|b l']; [reflexivity|].
  change (last (a :: b :: l') d) with (last (b :: l') d).
  rewrite <- IH. cbn [length].
  replace (S (S (length l')) - 1)%nat with (S (S (length l') - 1)) by lia.
  reflexivity.
Qed.

Lemma at_first (data : list DataPoint) p rest :
  data = p :: rest -> at_ data 0 = Some p.
Proof. intros ->. reflexivity. Qed.

(** The sampler returns on every input, and the size of what it
    returns. *)
Lemma sampleByBuckets_size (data : list DataPoint) (targetPoints : num)
  (mode : BucketMode) :
  let n := Z.of_nat (length data) in
  let threshold := clampTargetPoints targetPoints in
  exists out,
    sampleByBuckets data targetPoints mode = Some out /\
    Z.of_nat (length out) = Z.min n (Z.max threshold 0).
Proof.
  intros n threshold.
  destruct (sampleByBuckets_degenerate data targetPoints mode)
    as (Hzero & Hone & Htwo & Hall).
  fold n threshold in Hzero, Hone, Htwo, Hall.
  destruct (Z.le_gt_cases threshold 0) as [H0|H0].
  - exists []. split; [apply Hzero; exact H0|]. cbn [length]. lia.
  - destruct (Z.le_gt_cases n threshold) as [Hn|Hn].
    + exists data. split; [apply Hall; lia|]. fold n. lia.
    + destruct (Z.eq_dec threshold 1) as [E1|N1].
      * exists (firstn 1 data). split; [apply Hone; exact E1|].
        rewrite length_firstn. unfold n in *. lia.
      * destruct (Z.eq_dec threshold 2) as [E2|N2].
        -- destruct (Htwo E2 ltac:(lia)) as (f & l & _ & _ & E).
           exists [f; l]. split; [exact E|]. cbn [length]. lia.
        -- destruct data as [|d0 rest]; [cbn in n; lia|].
           destruct (sampleByBuckets_slots (d0 :: rest) targetPoints threshold
                       mode d0 eq_refl) as (out & E & Hlen & _).
           { fold n. lia. }
           exists out. split; [exact E|]. rewrite Hlen. lia.
Qed.

(** X1: the bucket sampler returns for every series, target and mode
    (no read ever leaves the array), and the output has
    [min(n, max(threshold, 0))] points. *)
Theorem sampleByBuckets_returns (data : list DataPoint) (targetPoints : num)
  (mode : BucketMode) :
  let n := Z.of_nat (length data) in
  let threshold := clampTargetPoints targetPoints in
  exists out,
    sampleByBuckets data targetPoints mode = Some out /\
    Z.of_nat (length out) = Z.min n (Z.max threshold 0).
Proof. apply sampleByBuckets_size. Qed.

(** X2: for a target of at least two the output starts with the first
    point of the series and ends with its last point, whatever the
    mode. *)
Theorem sampleByBuckets_endpoints (data : list DataPoint)
  (targetPoints : num) (mode : BucketMode) (d : DataPoint) :
  (2 <= clampTargetPoints targetPoints)%Z -> data <> [] ->
  exists out,
    sampleByBuckets data targetPoints mode = Some out /\
    hd d out = hd d data /\ last out d = last data d.
Proof.
  intros Ht Hne.
  set (n := Z.of_nat (length data)).
  set (threshold := clampTargetPoints targetPoints) in *.
  destruct (sampleByBuckets_degenerate data targetPoints mode)
    as (_ & _ & Htwo & Hall).
  fold n threshold in Htwo, Hall.
  destruct (Z.le_gt_cases n threshold) as [Hn|Hn].
  - exists data. split; [apply Hall; lia|]. split; reflexivity.
  - destruct data as [|d0 rest]; [contradiction|].
    destruct (Z.eq_dec threshold 2) as [E2|N2].
    + destruct (Htwo E2 ltac:(lia)) as (f & l & Hf & Hl & E).
      exists [f; l]. split; [exact E|].
      cbn in Hf. apply Some_eq in Hf. subst f. split; [reflexivity|].
      change (last [d0; l] d) with l.
      rewrite <- (nth_last_point (d0 :: rest) d).
      unfold at_ in Hl. destruct (Z.ltb_spec (n - 1) 0); [lia|].
      replace (Z.to_nat (n - 1)) with (length (d0 :: rest) - 1)%nat in Hl
        by (unfold n; lia).
      symmetry. apply nth_error_nth. exact Hl.
    + rewrite (sampleByBuckets_shape (d0 :: rest) targetPoints threshold mode d
                 eq_refl) by (fold n; lia).
      eexists. split; [reflexivity|]. split; [reflexivity|].
      fold n.
      change (?a :: ?l ++ [?b]) with ((a :: l) ++ [b]).
      rewrite last_last.
      replace (Z.to_nat (n - 1)) with (length (d0 :: rest) - 1)%nat
        by (unfold n; lia).
      apply nth_last_point.
Qed.

Lemma sampleByBuckets_endpoints_witness :
  exists out,
    sampleByBuckets SamplingConfig.ridge (Fin 5) Min = Some out /\
    hd (PTuple NaN NaN None) out
    = hd (PTuple NaN NaN None) SamplingConfig.ridge /\
    last out (PTuple NaN NaN None)
    = last SamplingConfig.ridge (PTuple NaN NaN None).
Proof.
  apply (sampleByBuckets_endpoints SamplingConfig.ridge (Fin 5) Min).
  - vm_compute. discriminate.
  - discriminate.
Defined.

(** * [max] and [min] sampling returns points of the series, in order *)

Lemma zrange_sorted lo hi : StronglySorted Z.lt (zrange lo hi).
Proof.
  remember (Z.to_nat (hi - lo)) as k eqn:Hk.
  revert lo Hk. induction k as [|k IH]; intros lo Hk.
  - rewrite zrange_nil by lia. constructor.
  - rewrite zrange_cons by lia. constructor.
    + apply IH. lia.
    + apply Forall_forall. intros i Hi. apply zrange_In in Hi. lia.
Qed.

Lemma at_cons a (l : list DataPoint) i :
  (0 <= i)%Z -> at_ (a :: l) (i + 1) = at_ l i.
Proof.
  intro Hi. unfold at_.
  destruct (Z.ltb_spec (i + 1) 0); [lia|].
  destruct (Z.ltb_spec i 0); [lia|].
  replace (Z.to_nat (i + 1)) with (S (Z.to_nat i)) by lia. reflexivity.
Qed.

Lemma readsAt_shift a data idx out :
  Forall (fun i => (0 <= i)%Z) idx ->
  readsAt data idx out ->
  readsAt (a :: data) (map (fun i => (i + 1)%Z) idx) out.
Proof.
  intros Hpos H. induction H as [|i p idx out Hi H IH]; [constructor|].
  inversion Hpos; subst. constructor.
  - rewrite at_cons by assumption. exact Hi.
  - apply IH. assumption.
Qed.

Lemma zrange_shift lo hi :
  map (fun i => (i + 1)%Z) (zrange lo hi) = zrange (lo + 1) (hi + 1).
Proof.
  unfold zrange. rewrite map_map.
  replace (hi + 1 - (lo + 1))%Z with (hi - lo)%Z by lia.
  apply map_ext. intro k. lia.
Qed.

(** The whole series is read at [0, 1, ..., n - 1]. *)
Lemma readsAt_all data :
  readsAt data (zrange 0 (Z.of_nat (length data))) data.
Proof.
  induction data as [|a l IH]; [constructor|].
  rewrite zrange_cons by (cbn [length]; lia). constructor; [reflexivity|].
  replace (Z.of_nat (length (a :: l))) with (Z.of_nat (length l) + 1)%Z
    by (cbn [length]; lia).
  change (0 + 1)%Z with (0 + 1)%Z. rewrite <- zrange_shift.
  apply readsAt_shift; [|exact IH].
  apply Forall_forall. intros i Hi. apply zrange_In in Hi. lia.
Qed.

(** A [max] or [min] bucket yields a point of its own index range. *)
Lemma bucketPoint_index data threshold mode fallback bucket :
  let n := Z.of_nat (length data) in
  mode <> Average ->
  (3 <= threshold < n)%Z -> (0 <= bucket < threshold - 2)%Z ->
  exists i,
    (bucketStart n threshold bucket <= i
     < bucketStart n threshold (bucket + 1))%Z /\
    at_ data i = Some (bucketPoint data n threshold mode fallback bucket).
Proof.
  intros n Hm Ht Hb. unfold bucketPoint.
  pose proof (bucketRange_inside n threshold bucket Ht Hb) as Hin.
  destruct (bucketRange_exact n threshold bucket Ht Hb) as [E Hlt].
  rewrite E in *.
  set (rs := bucketStart n threshold bucket) in *.
  set (re := bucketStart n threshold (bucket + 1)) in *.
  destruct (forallb (excluded mode) (slice data rs re)) eqn:Hex.
  - rewrite (chosenOf_excluded mode _ Hex).
    exists rs. split; [lia|].
    unfold at_. destruct (Z.ltb_spec rs 0); [lia|].
    apply nth_error_nth'. unfold n in *. lia.
  - destruct (chosenOf_extreme mode _ Hm Hex) as (i & p & -> & Hp & _).
    assert (Hi : (i < Z.to_nat (re - rs))%nat).
    { rewrite <- (slice_length data rs re) by (unfold n in *; lia).
      apply nth_error_Some. congruence. }
    exists (rs + Z.of_nat i)%Z. split; [lia|].
    rewrite <- at_slice with (to := re) by lia. exact Hp.
Qed.

Lemma bucketStart_mono n threshold b b' :
  (3 <= threshold < n)%Z -> (0 <= b <= b')%Z ->
  (bucketStart n threshold b <= bucketStart n threshold b')%Z.
Proof.
  intros Ht Hb. unfold bucketStart.
  apply Z.add_le_mono_r. apply Qfloor_resp_le.
  assert (Hden : (0 < inject_Z (threshold - 2))%Q).
  { change 0%Q with (inject_Z 0). rewrite <- Zlt_Qlt. lia. }
  assert (Hnum : (0 <= inject_Z (n - 2))%Q).
  { change 0%Q with (inject_Z 0). rewrite <- Zle_Qle. lia. }
  assert (Hbs : (0 <= inject_Z (n - 2) / inject_Z (threshold - 2))%Q).
  { apply Qle_shift_div_l; [exact Hden|]. lra. }
  assert (Hbb : (inject_Z b <= inject_Z b')%Q) by (rewrite <- Zle_Qle; lia).
  nra.
Qed.

(** One index per bucket, each in the range of its bucket: the indices
    increase and stay between the starts of the first and of the last
    bucket. *)
Lemma cells_sorted (s : Z -> Z) :
  forall k lo idx,
  Forall2 (fun b i => (s b <= i < s (b + 1))%Z)
          (zrange lo (lo + Z.of_nat k)) idx ->
  StronglySorted Z.lt idx /\
  Forall (fun i => (s lo <= i < s (lo + Z.of_nat k))%Z) idx.
Proof.
  induction k as [|k IH]; intros lo idx H.
  - rewrite zrange_nil in H by lia. inversion H. split; constructor.
  - replace (lo + Z.of_nat (S k))%Z with (lo + 1 + Z.of_nat k)%Z in * by lia.
    rewrite zrange_cons in H by lia.
    inversion H as [|b i bs rest Hi Hrest]; subst.
    destruct (IH (lo + 1)%Z rest Hrest) as [Hs Hall].
    rewrite Forall_forall in Hall.
    assert (Hmono : (s (lo + 1) <= s (lo + 1 + Z.of_nat k))%Z).
    { destruct rest as [|j js]; [|specialize (Hall j (or_introl eq_refl)); lia].
      destruct k; [replace (lo + 1 + Z.of_nat 0)%Z with (lo + 1)%Z by lia; lia|].
      rewrite zrange_cons in Hrest by lia. inversion Hrest. }
    split.
    + constructor; [exact Hs|].
      apply Forall_forall. intros j Hj. specialize (Hall j Hj). lia.
    + constructor; [lia|].
      apply Forall_forall. intros j Hj. specialize (Hall j Hj). lia.
Qed.

Lemma Forall2_choose {A B : Type} (P : A -> B -> Prop) (l : list A) :
  (forall a, In a l -> exists b, P a b) -> exists l', Forall2 P l l'.
Proof.
  induction l as [|a l IH]; intro H.
  - exists []. constructor.
  - destruct (H a (or_introl eq_refl)) as [b Hb].
    destruct IH as [l' Hl']; [intros x Hx; apply H; right; exact Hx|].
    exists (b :: l'). constructor; assumption.
Qed.

Lemma sorted_between {A : Type} (R : A -> A -> Prop) (a z : A) (l : list A) :
  R a z ->
  StronglySorted R l -> Forall (fun i => R a i /\ R i z) l ->
  StronglySorted R (a :: l ++ [z]).
Proof.
  intros Haz Hs Hall. rewrite Forall_forall in Hall.
  assert (Hz : forall j, In j l -> R j z).
  { intros j Hj. apply (Hall j Hj). }
  assert (Hlz : StronglySorted R (l ++ [z])).
  { clear Hall. induction Hs as [|i l Hs IH Hi].
    - cbn. constructor; constructor.
    - cbn. constructor.
      + apply IH. intros j Hj. apply Hz. right. exact Hj.
      + apply Forall_app. split; [exact Hi|].
        constructor; [|constructor].
        apply Hz. left. reflexivity. }
  constructor; [exact Hlz|].
  apply Forall_app. split.
  - apply Forall_forall. intros j Hj. apply (Hall j Hj).
  - constructor; [exact Haz|constructor].
Qed.

(** X4: in [max] and [min] mode every output point is a point of the
    series, and the output keeps the order of the series: it reads the
    series at strictly increasing indices. *)
Theorem extremes_are_source_points (data : list DataPoint)
  (targetPoints : num) (mode : BucketMode) :
  mode <> Average ->
  exists (out : list DataPoint) (idx : list Z),
    sampleByBuckets data targetPoints mode = Some out /\
    StronglySorted Z.lt idx /\ readsAt data idx out.
Proof.
  intro Hm.
  set (n := Z.of_nat (length data)).
  set (threshold := clampTargetPoints targetPoints).
  destruct (sampleByBuckets_degenerate data targetPoints mode)
    as (Hzero & Hone & Htwo & Hall).
  fold n threshold in Hzero, Hone, Htwo, Hall.
  destruct (Z.le_gt_cases threshold 0) as [H0|H0].
  { exists [], []. split; [apply Hzero; exact H0|]. split; constructor. }
  destruct (Z.le_gt_cases n threshold) as [Hn|Hn].
  { exists data, (zrange 0 n). split; [apply Hall; lia|].
    split; [apply zrange_sorted|apply readsAt_all]. }
  destruct data as [|d0 rest]; [cbn in n; lia|].
  destruct (Z.eq_dec threshold 1) as [E1|N1].
  { exists [d0], [0%Z]. split; [apply Hone; exact E1|].
    split; [repeat constructor|]. constructor; [reflexivity|constructor]. }
  destruct (Z.eq_dec threshold 2) as [E2|N2].
  { destruct (Htwo E2 ltac:(lia)) as (f & l & Hf & Hl & E).
    exists [f; l], [0; n - 1]%Z. split; [exact E|]. split.
    - constructor; [repeat constructor|]. constructor; [lia|constructor].
    - repeat constructor; assumption. }
  assert (Ht : (3 <= threshold < n)%Z) by lia.
  rewrite (sampleByBuckets_shape (d0 :: rest) targetPoints threshold mode d0
             eq_refl Ht).
  fold n.
  destruct (Forall2_choose
              (fun b i =>
                 (bucketStart n threshold b <= i
                  < bucketStart n threshold (b + 1))%Z /\
                 at_ (d0 :: rest) i
                 = Some (bucketPoint (d0 :: rest) n threshold mode d0 b))
              (zrange 0 (threshold - 2))) as [idx Hidx].
  { intros b Hb. apply zrange_In in Hb.
    apply bucketPoint_index; [exact Hm|exact Ht|lia]. }
  destruct (cells_sorted (bucketStart n threshold)
              (Z.to_nat (threshold - 2)) 0 idx) as [Hs Hin].
  { replace (0 + Z.of_nat (Z.to_nat (threshold - 2)))%Z
      with (threshold - 2)%Z by lia.
    eapply Forall2_impl; [|exact Hidx]. intros b i [H _]. exact H. }
  replace (0 + Z.of_nat (Z.to_nat (threshold - 2)))%Z
    with (threshold - 2)%Z in Hin by lia.
  rewrite bucketStart_first, bucketStart_last in Hin by lia.
  eexists. exists (0 :: idx ++ [n - 1])%Z. split; [reflexivity|]. split.
  - apply sorted_between; [lia|exact Hs|].
    (* every chosen index is an interior index *)
    eapply Forall_impl; [|exact Hin]. intros i Hi. cbv beta in Hi. lia.
  - constructor; [reflexivity|].
    apply Forall2_app.
    + clear Hs Hin. revert idx Hidx.
      induction (zrange 0 (threshold - 2)) as [|b bs IH]; intros idx Hidx;
        inversion Hidx; subst; cbn [map]; constructor.
      * tauto.
      * apply IH. assumption.
    + constructor; [|constructor].
      unfold at_. destruct (Z.ltb_spec (n - 1) 0); [lia|].
      apply nth_error_nth'. unfold n. lia.
Qed.

Lemma extremes_are_source_points_witness :
  exists (out : list DataPoint) (idx : list Z),
    sampleByBuckets SamplingConfig.ridge (Fin 5) Max = Some out /\
    StronglySorted Z.lt idx /\ readsAt SamplingConfig.ridge idx out.
Proof.
  apply (extremes_are_source_points SamplingConfig.ridge (Fin 5) Max).
  discriminate.
Defined.

(** * An averaged point lies among the points of its bucket *)

(** The sum of finite values is finite and bounded by their bounds. *)
Lemma sum_bounds xs : forall a,
  Forall (fun x => isFinite x = true) xs ->
  exists s,
    fold_left Num.add xs (Fin a) = Fin s /\
    (forall lo, (forall x, In x xs -> (Fin lo <=? x)%num = true) ->
       (a + lo * inject_Z (Z.of_nat (length xs)) <= s)%Q) /\
    (forall hi, (forall x, In x xs -> (x <=? Fin hi)%num = true) ->
       (s <= a + hi * inject_Z (Z.of_nat (length xs)))%Q).
Proof.
  induction xs as [|x xs IH]; intros a Hfin.
  - exists a. split; [reflexivity|].
    split; intros b _; cbn [length]; change (inject_Z (Z.of_nat 0)) with 0%Q;
      lra.
  - inversion Hfin as [|x' xs' Hx Hxs]; subst.
    destruct x as [| | |q]; try discriminate Hx.
    cbn [fold_left Num.add].
    destruct (IH (Qred (a + q)) Hxs) as (s & Es & Hlo & Hhi).
    exists s. split; [exact Es|].
    assert (Hlen : (inject_Z (Z.of_nat (length (Fin q :: xs)))
                    == inject_Z (Z.of_nat (length xs)) + 1)%Q).
    { cbn [length]. rewrite Nat2Z.inj_succ. unfold Z.succ.
      rewrite inject_Z_plus. reflexivity. }
    split.
    + intros lo Hall. rewrite Hlen.
      assert (Hq : (Fin lo <=? Fin q)%num = true)
        by (apply Hall; left; reflexivity).
      specialize (Hlo lo (fun y Hy => Hall y (or_intror Hy))).
      rewrite Qred_correct in Hlo. nsimpl. qprop. lra.
    + intros hi Hall. rewrite Hlen.
      assert (Hq : (Fin q <=? Fin hi)%num = true)
        by (apply Hall; left; reflexivity).
      specialize (Hhi hi (fun y Hy => Hall y (or_intror Hy))).
      rewrite Qred_correct in Hhi. nsimpl. qprop. lra.
Qed.

(** The mean of finite values is finite and lies between any two bounds
    of the values. *)
Lemma mean_bounds xs m :
  Forall (fun x => isFinite x = true) xs -> mean xs = Some m ->
  isFinite m = true /\
  forall lo hi : num,
    (forall x, In x xs ->
       (lo <=? x)%num = true /\ (x <=? hi)%num = true) ->
    (lo <=? m)%num = true /\ (m <=? hi)%num = true.
Proof.
  intros Hfin Hm.
  destruct xs as [|x0 xs']; [discriminate Hm|].
  rewrite mean_cons in Hm. apply Some_eq in Hm.
  set (xs := x0 :: xs') in *.
  destruct (sum_bounds xs 0 Hfin) as (s & Es & Hlo & Hhi).
  change (fold_left Num.add xs zero) with (fold_left Num.add xs (Fin 0)) in Hm.
  rewrite Es in Hm.
  assert (Hpos : (0 < inject_Z (Z.of_nat (length xs)))%Q).
  { change 0%Q with (inject_Z 0). rewrite <- Zlt_Qlt.
    unfold xs. cbn [length]. lia. }
  assert (Hdiv : (Fin s / ofZ (Z.of_nat (length xs)))%num
                 = Fin (Qred (s / inject_Z (Z.of_nat (length xs))))).
  { unfold Num.div, ofZ.
    destruct (Qeq_bool (inject_Z (Z.of_nat (length xs))) 0) eqn:E;
      [|reflexivity].
    qprop. lra. }
  rewrite Hdiv in Hm. subst m. split; [reflexivity|].
  intros lo hi Hall.
  assert (Hx0 : (lo <=? x0)%num = true /\ (x0 <=? hi)%num = true)
    by (apply Hall; left; reflexivity).
  assert (Hf0 : isFinite x0 = true) by (inversion Hfin; assumption).
  destruct x0 as [| | |q0]; try discriminate Hf0. clear Hf0.
  split.
  - destruct lo as [| | |l]; try (destruct Hx0 as [H _]; discriminate H);
      [reflexivity|].
    specialize (Hlo l (fun y Hy => proj1 (Hall y Hy))).
    unfold Num.leb. qprop. apply Qle_shift_div_l; [exact Hpos|]. lra.
  - destruct hi as [| | |h]; try (destruct Hx0 as [_ H]; discriminate H);
      [reflexivity|].
    specialize (Hhi h (fun y Hy => proj2 (Hall y Hy))).
    unfold Num.leb. qprop. apply Qle_shift_div_r; [exact Hpos|]. lra.
Qed.

Lemma contributing_finite pts :
  Forall (fun x => isFinite x = true) (map pointX (contributing pts)) /\
  Forall (fun y => isFinite y = true) (map pointY (contributing pts)).
Proof.
  pose proof (contributing_all pts) as Hall.
  rewrite forallb_forall in Hall.
  split; apply Forall_forall; intros v Hv; apply in_map_iff in Hv;
    destruct Hv as (q & <- & Hq); specialize (Hall q Hq);
    unfold excluded in Hall; rewrite negb_orb, !negb_involutive in Hall;
    apply andb_true_iff in Hall; tauto.
Qed.

(** The point an [average] bucket yields from its contributing points. *)
Lemma averaged_point pts p :
  contributing pts <> [] -> chosenOf Average pts = Some p ->
  isFinite (pointX p) = true /\ isFinite (pointY p) = true /\
  forall lo hi : num,
    ((forall q, In q (contributing pts) ->
        (lo <=? pointX q)%num = true /\ (pointX q <=? hi)%num = true) ->
     (lo <=? pointX p)%num = true /\ (pointX p <=? hi)%num = true) /\
    ((forall q, In q (contributing pts) ->
        (lo <=? pointY q)%num = true /\ (pointY q <=? hi)%num = true) ->
     (lo <=? pointY p)%num = true /\ (pointY p <=? hi)%num = true).
Proof.
  intros Hne Hch.
  unfold chosenOf in Hch. rewrite avgLoop_contributing in Hch.
  fold (chosenOf Average (contributing pts)) in Hch.
  pose proof (contributing_all pts) as Hall.
  destruct (contributing_finite pts) as [Hfx Hfy].
  destruct (contributing pts) as [|c cs] eqn:Ec; [contradiction|].
  destruct (chosenOf_average c cs Hall) as (mx & my & Hx & Hy & E).
  rewrite E in Hch. apply Some_eq in Hch. subst p.
  change (pointX (PTuple mx my _)) with mx.
  change (pointY (PTuple mx my _)) with my.
  destruct (mean_bounds _ _ Hfx Hx) as [Hmx Hbx].
  destruct (mean_bounds _ _ Hfy Hy) as [Hmy Hby].
  split; [exact Hmx|]. split; [exact Hmy|].
  intros lo hi. split; intro Hq.
  - apply Hbx. intros v Hv. apply in_map_iff in Hv.
    destruct Hv as (q & <- & Hin). apply Hq. exact Hin.
  - apply Hby. intros v Hv. apply in_map_iff in Hv.
    destruct Hv as (q & <- & Hin). apply Hq. exact Hin.
Qed.



(** * Sampling keeps a series ordered in x *)

Lemma leX_trans p q r : leX p q -> leX q r -> leX p r.
Proof. unfold leX. apply leb_trans. Qed.

Lemma leX_self p q : leX p q -> leX p p /\ leX q q.
Proof.
  unfold leX. destruct (pointX p), (pointX q); nsimpl; intro E;
    try discriminate; split; try reflexivity; qprop; lra.
Qed.

Lemma ascendingXb_spec l : ascendingXb l = true <-> ascendingX l.
Proof.
  unfold ascendingX. induction l as [|p rest IH].
  - split; [constructor|reflexivity].
  - cbn [ascendingXb]. rewrite andb_true_iff, IH. split.
    + intros [Hp Hs]. constructor; [exact Hs|].
      destruct rest as [|q rest']; [constructor|].
      inversion Hs as [|q' r' Hs' Hq]; subst.
      constructor; [exact Hp|].
      eapply Forall_impl; [|exact Hq].
      intros r Hr. exact (leX_trans _ _ _ Hp Hr).
    + intro Hs. inversion Hs as [|p' r' Hs' Hp]; subst.
      split; [|exact Hs'].
      destruct rest as [|q rest']; [reflexivity|].
      inversion Hp; assumption.
Qed.

Lemma ascending_nth l : ascendingX l ->
  forall i j p q, (i < j)%nat ->
    nth_error l i = Some p -> nth_error l j = Some q -> leX p q.
Proof.
  unfold ascendingX. induction 1 as [|a l Hs IH Ha]; intros i j p q Hij Hp Hq.
  - destruct i; discriminate Hp.
  - destruct j as [|j]; [lia|]. cbn in Hq.
    destruct i as [|i].
    + cbn in Hp. apply Some_eq in Hp. subst p.
      rewrite Forall_forall in Ha. apply Ha.
      eapply nth_error_In. exact Hq.
    + cbn in Hp. apply (IH i j); [lia|assumption ..].
Qed.

Lemma at_nth (data : list DataPoint) i p :
  at_ data i = Some p ->
  (0 <= i < Z.of_nat (length data))%Z /\
  nth_error data (Z.to_nat i) = Some p.
Proof.
  unfold at_. destruct (Z.ltb_spec i 0); [discriminate|].
  intro E. split; [|exact E].
  assert (Z.to_nat i < length data)%nat by (apply nth_error_Some; congruence).
  lia.
Qed.

(** In an ordered series of at least two points every point is at most
    any later one, and at most itself: no x is [NaN]. *)
Lemma ascending_le data i j p q :
  ascendingX data -> (2 <= Z.of_nat (length data))%Z -> (i <= j)%Z ->
  at_ data i = Some p -> at_ data j = Some q -> leX p q.
Proof.
  intros Hs Hn Hij Hp Hq.
  destruct (at_nth _ _ _ Hp) as [Hi Hp'].
  destruct (at_nth _ _ _ Hq) as [Hj Hq'].
  destruct (Z.eq_dec i j) as [->|Hne].
  - rewrite Hp in Hq. apply Some_eq in Hq. subst q.
    destruct (Z.eq_dec j 0) as [->|Hj0].
    + destruct (at_Some data 1 ltac:(lia)) as [r Hr].
      destruct (at_nth _ _ _ Hr) as [_ Hr'].
      apply (leX_self p r).
      apply (ascending_nth data Hs (Z.to_nat 0) (Z.to_nat 1)); [lia|easy ..].
    + destruct (at_Some data 0 ltac:(lia)) as [r Hr].
      destruct (at_nth _ _ _ Hr) as [_ Hr'].
      apply (leX_self r p).
      apply (ascending_nth data Hs (Z.to_nat 0) (Z.to_nat j)); [lia|easy ..].
  - apply (ascending_nth data Hs (Z.to_nat i) (Z.to_nat j)); [lia|easy ..].
Qed.

Lemma in_slice_at data from to q :
  (0 <= from <= to)%Z -> (to <= Z.of_nat (length data))%Z ->
  In q (slice data from to) ->
  exists i, (from <= i < to)%Z /\ at_ data i = Some q.
Proof.
  intros Hf Ht Hin. apply In_nth_error in Hin. destruct Hin as [k Hk].
  assert (Hlt : (k < Z.to_nat (to - from))%nat).
  { rewrite <- (slice_length data from to) by lia.
    apply nth_error_Some. congruence. }
  exists (from + Z.of_nat k)%Z. split; [lia|].
  rewrite <- at_slice with (to := to) by lia. exact Hk.
Qed.

Lemma chosenOf_no_contribution pts :
  contributing pts = [] -> chosenOf Average pts = None.
Proof.
  intro E. unfold chosenOf. rewrite avgLoop_contributing, E. reflexivity.
Qed.

(** The point of a bucket lies, in x, between the first and the last
    point of the range of the bucket. *)
Lemma bucketPoint_cell data threshold mode fallback bucket :
  let n := Z.of_nat (length data) in
  ascendingX data ->
  (3 <= threshold < n)%Z -> (0 <= bucket < threshold - 2)%Z ->
  exists pl ph,
    at_ data (bucketStart n threshold bucket) = Some pl /\
    at_ data (bucketStart n threshold (bucket + 1) - 1) = Some ph /\
    leX pl (bucketPoint data n threshold mode fallback bucket) /\
    leX (bucketPoint data n threshold mode fallback bucket) ph.
Proof.
  intros n Hs Ht Hb.
  pose proof (bucketRange_inside n threshold bucket Ht Hb) as Hin.
  destruct (bucketRange_exact n threshold bucket Ht Hb) as [E Hlt].
  rewrite E in Hin.
  set (rs := bucketStart n threshold bucket) in *.
  set (re := bucketStart n threshold (bucket + 1)) in *.
  destruct (at_Some data rs ltac:(unfold n in *; lia)) as [pl Hpl].
  destruct (at_Some data (re - 1) ltac:(unfold n in *; lia)) as [ph Hph].
  exists pl, ph. split; [exact Hpl|]. split; [exact Hph|].
  assert (Hn2 : (2 <= Z.of_nat (length data))%Z) by (unfold n in *; lia).
  assert (Hcell : forall i q, (rs <= i < re)%Z -> at_ data i = Some q ->
                              leX pl q /\ leX q ph).
  { intros i q Hi Hq. split.
    - apply (ascending_le data rs i); (assumption || lia).
    - apply (ascending_le data i (re - 1)); (assumption || lia). }
  assert (Hfall : nth (Z.to_nat rs) data fallback = pl).
  { destruct (at_nth _ _ _ Hpl) as [_ H]. apply nth_error_nth. exact H. }
  destruct mode.
  - unfold bucketPoint. rewrite E. fold rs re.
    destruct (contributing (slice data rs re)) as [|c cs] eqn:Ec.
    + rewrite (chosenOf_no_contribution _ Ec), Hfall.
      apply (Hcell rs); [lia|exact Hpl].
    + destruct (chosenOf Average (slice data rs re)) as [p|] eqn:Ech.
      * destruct (averaged_point (slice data rs re) p) as (_ & _ & Hb');
          [rewrite Ec; discriminate|exact Ech|].
        destruct (Hb' (pointX pl) (pointX ph)) as [Hx _].
        apply Hx. intros q Hq.
        assert (Hq' : In q (slice data rs re)).
        { unfold contributing in Hq. apply filter_In in Hq. tauto. }
        destruct (in_slice_at data rs re q) as (i & Hi & Hat);
          [unfold n in *; lia ..|exact Hq'|].
        apply (Hcell i q Hi Hat).
      * rewrite Hfall. apply (Hcell rs); [lia|exact Hpl].
  - destruct (bucketPoint_index data threshold Max fallback bucket)
      as (i & Hi & Hat); [discriminate|exact Ht|exact Hb|].
    apply (Hcell i); assumption.
  - destruct (bucketPoint_index data threshold Min fallback bucket)
      as (i & Hi & Hat); [discriminate|exact Ht|exact Hb|].
    apply (Hcell i); assumption.
Qed.

Lemma sorted_map_zrange {A : Type} (R : A -> A -> Prop) (f : Z -> A) :
  forall k lo,
  (forall b b', (lo <= b < b')%Z -> (b' < lo + Z.of_nat k)%Z ->
                R (f b) (f b')) ->
  StronglySorted R (map f (zrange lo (lo + Z.of_nat k))).
Proof.
  induction k as [|k IH]; intros lo H.
  - rewrite zrange_nil by lia. constructor.
  - rewrite zrange_cons by lia. cbn [map].
    replace (lo + Z.of_nat (S k))%Z with (lo + 1 + Z.of_nat k)%Z in * by lia.
    constructor.
    + apply IH. intros b b' Hb Hb'. apply H; lia.
    + apply Forall_forall. intros x Hx. apply in_map_iff in Hx.
      destruct Hx as (b & <- & Hb). apply zrange_In in Hb. apply H; lia.
Qed.

(** The output of the sampler on an ordered series is ordered. *)
Lemma sampleByBuckets_ascending data targetPoints mode :
  ascendingX data ->
  exists out,
    sampleByBuckets data targetPoints mode = Some out /\ ascendingX out.
Proof.
  intro Hs.
  set (n := Z.of_nat (length data)).
  set (threshold := clampTargetPoints targetPoints).
  destruct (sampleByBuckets_degenerate data targetPoints mode)
    as (Hzero & Hone & Htwo & Hall).
  fold n threshold in Hzero, Hone, Htwo, Hall.
  destruct (Z.le_gt_cases threshold 0) as [H0|H0].
  { exists []. split; [apply Hzero; exact H0|constructor]. }
  destruct (Z.le_gt_cases n threshold) as [Hn|Hn].
  { exists data. split; [apply Hall; lia|exact Hs]. }
  destruct data as [|d0 rest]; [cbn in n; lia|].
  destruct (Z.eq_dec threshold 1) as [E1|N1].
  { exists [d0]. split; [apply Hone; exact E1|].
    constructor; constructor. }
  assert (Hn2 : (2 <= Z.of_nat (length (d0 :: rest)))%Z) by (fold n; lia).
  destruct (Z.eq_dec threshold 2) as [E2|N2].
  { destruct (Htwo E2 ltac:(lia)) as (f & l & Hf & Hl & E).
    exists [f; l]. split; [exact E|].
    constructor; [constructor; constructor|].
    constructor; [|constructor].
    apply (ascending_le (d0 :: rest) 0 (n - 1)); (assumption || lia). }
  assert (Ht : (3 <= threshold < n)%Z) by lia.
  rewrite (sampleByBuckets_shape (d0 :: rest) targetPoints threshold mode d0
             eq_refl Ht).
  fold n. eexists. split; [reflexivity|].
  set (data := d0 :: rest) in *.
  assert (Hfirst : at_ data 0 = Some (nth 0 data d0)) by reflexivity.
  assert (Hlast : at_ data (n - 1) = Some (nth (Z.to_nat (n - 1)) data d0)).
  { unfold at_. destruct (Z.ltb_spec (n - 1) 0); [lia|].
    apply nth_error_nth'. unfold n. lia. }
  apply sorted_between.
  - apply (ascending_le data 0 (n - 1)); (assumption || lia).
  - replace (threshold - 2)%Z with (0 + Z.of_nat (Z.to_nat (threshold - 2)))%Z
      by lia.
    apply sorted_map_zrange. intros b b' Hb Hb'.
    destruct (bucketPoint_cell data threshold mode d0 b Hs Ht ltac:(lia))
      as (pl & ph & Hpl & Hph & _ & Hle).
    destruct (bucketPoint_cell data threshold mode d0 b' Hs Ht ltac:(lia))
      as (pl' & ph' & Hpl' & Hph' & Hge & _).
    fold n in Hpl, Hph, Hle, Hpl', Hph', Hge.
    apply (leX_trans _ ph); [exact Hle|].
    apply (leX_trans _ pl'); [|exact Hge].
    pose proof (bucketStart_mono n threshold (b + 1) b' Ht ltac:(lia)).
    apply (ascending_le data (bucketStart n threshold (b + 1) - 1)
             (bucketStart n threshold b')); (assumption || lia).
  - apply Forall_forall. intros p Hp. apply in_map_iff in Hp.
    destruct Hp as (b & <- & Hb). apply zrange_In in Hb.
    destruct (bucketPoint_cell data threshold mode d0 b Hs Ht ltac:(lia))
      as (pl & ph & Hpl & Hph & Hge & Hle).
    fold n in Hpl, Hph, Hle, Hge.
    destruct (bucketRange_exact n threshold b Ht ltac:(lia)) as [_ Hlt].
    pose proof (bucketStart_mono n threshold 0 b Ht ltac:(lia)) as H0b.
    pose proof (bucketStart_mono n threshold (b + 1) (threshold - 2) Ht
                  ltac:(lia)) as Hbt.
    rewrite bucketStart_first in H0b. rewrite bucketStart_last in Hbt by lia.
    split.
    + apply (leX_trans _ pl); [|exact Hge].
      apply (ascending_le data 0 (bucketStart n threshold b));
        (assumption || lia).
    + apply (leX_trans _ ph); [exact Hle|].
      apply (ascending_le data (bucketStart n threshold (b + 1) - 1) (n - 1));
        (assumption || lia).
Qed.



(** * Sampling what has been sampled *)

(** X7: without LTTB the entry point always returns, never returns more
    points than it is given, and is stable: sampling its output again
    with the same mode and threshold returns that output unchanged. *)
Theorem resampling_is_stable
  (lttbSample : list DataPoint -> num -> option (list DataPoint))
  (data : list DataPoint) (sampling : SeriesSampling)
  (samplingThreshold : num) :
  sampling <> SLttb ->
  exists out,
    sampleSeriesDataPoints lttbSample data sampling samplingThreshold
    = Some out /\
    (length out <= length data)%nat /\
    sampleSeriesDataPoints lttbSample out sampling samplingThreshold
    = Some out.
Proof.
  intro Hs.
  set (n := Z.of_nat (length data)).
  set (threshold := clampTargetPoints samplingThreshold).
  assert (Hsame : sampleSeriesDataPoints lttbSample data sampling
                    samplingThreshold = Some data ->
                  exists out,
                    sampleSeriesDataPoints lttbSample data sampling
                      samplingThreshold = Some out /\
                    (length out <= length data)%nat /\
                    sampleSeriesDataPoints lttbSample out sampling
                      samplingThreshold = Some out).
  { intro E. exists data. split; [exact E|]. split; [lia|exact E]. }
  destruct (aggregate sampling) as [mode|] eqn:Ea.
  - destruct (Z.le_gt_cases threshold 0) as [H0|H0].
    { apply Hsame. unfold sampleSeriesDataPoints. fold threshold.
      destruct (Z.gtb_spec threshold 0); [lia|].
      destruct sampling; reflexivity. }
    destruct (Z.le_gt_cases n threshold) as [Hn|Hn].
    { apply Hsame. unfold sampleSeriesDataPoints. fold threshold n.
      destruct (Z.gtb_spec threshold 0); [|lia].
      destruct (Z.leb_spec n threshold); [|lia].
      destruct sampling; reflexivity. }
    rewrite (sampleSeriesDataPoints_aggregate lttbSample data sampling mode
               samplingThreshold Ea) by (fold n threshold; lia).
    fold threshold.
    destruct (sampleByBuckets_size data (ofZ threshold) mode)
      as (out & E & Hlen).
    rewrite clampTargetPoints_ofZ in Hlen. fold n in Hlen.
    exists out. split; [exact E|]. split; [lia|].
    unfold sampleSeriesDataPoints. fold threshold.
    destruct (Z.gtb_spec threshold 0); [|lia].
    destruct (Z.leb_spec (Z.of_nat (length out)) threshold); [|lia].
    destruct sampling; reflexivity.
  - apply Hsame.
    destruct sampling; try discriminate Ea; try contradiction;
      unfold sampleSeriesDataPoints;
      [reflexivity|].
    destruct (negb _); [reflexivity|].
    destruct (_ <=? _)%Z; reflexivity.
Qed.

Lemma resampling_is_stable_witness :
  exists out,
    sampleSeriesDataPoints noLttb SamplingConfig.plain SMax (Fin 5)
    = Some out /\
    (length out <= length SamplingConfig.plain)%nat /\
    sampleSeriesDataPoints noLttb out SMax (Fin 5) = Some out.
Proof.
  apply (resampling_is_stable noLttb SamplingConfig.plain SMax (Fin 5)).
  discriminate.
Defined.

(** * More on the touch handlers *)

Lemma sub_self (x : num) :
  isFinite (x - x)%num = false \/ ((x - x)%num =? zero)%num = true.
Proof.
  destruct x as [| | |q]; nsimpl; try (left; reflexivity).
  right. qprop. lra.
Qed.

Lemma div_self (d : num) :
  (d >? zero)%num = true ->
  ((d / d)%num >? one)%num = false /\ ((d / d)%num <? one)%num = false.
Proof.
  destruct d as [| | |q]; nsimpl; try discriminate;
    intro Hd; [split; reflexivity|].
  qprop. rewrite (Qeq_bool_pos q Hd). unfold gtb, ltb, one.
  assert (E : (q / q == 1)%Q) by (field; lra).
  split; qprop; lra.
Qed.

Lemma map_get_set_same m k v : map_get (map_set m k v) k = Some v.
Proof.
  induction m as [|[k0 v0] m IH]; cbn.
  - rewrite Z.eqb_refl. reflexivity.
  - destruct (Z.eqb k0 k) eqn:E; cbn.
    + rewrite Z.eqb_refl. reflexivity.
    + rewrite E. exact IH.
Qed.

Lemma map_set_twice m k v : map_set (map_set m k v) k v = map_set m k v.
Proof.
  induction m as [|[k0 v0] m IH]; cbn.
  - rewrite Z.eqb_refl. reflexivity.
  - destruct (Z.eqb k0 k) eqn:E; cbn.
    + rewrite Z.eqb_refl. reflexivity.
    + rewrite E, IH. reflexivity.
Qed.

Lemma map_has_get m k :
  map_has m k = true <-> exists v, map_get m k = Some v.
Proof.
  unfold map_has. destruct (map_get m k) as [v|]; split.
  - intros _. exists v. reflexivity.
  - reflexivity.
  - discriminate.
  - intros [v E]. discriminate E.
Qed.

Section GestureFacts.

Context {ZS : Type} `{ZoomState ZS}.

(** The pan of a pinch frame, with the conditions under which it is
    issued. *)
Lemma pinchPan_cases midX pw span (st : TouchState ZS) :
  let dx := (midX - previousPinchMidX st)%num in
  let d := panDelta dx pw span in
  pinchPan midX pw span st = st \/
  (pinchPan midX pw span st = call (CPan d) st /\
   (pw >? zero)%num = true /\ isFinite (previousPinchMidX st) = true /\
   isFinite dx = true /\ (dx =? zero)%num = false /\
   isFinite span = true /\ (span >? zero)%num = true /\
   isFinite d = true /\ (d =? zero)%num = false).
Proof.
  cbv zeta. unfold pinchPan.
  destruct (pw >? zero)%num; [|left; reflexivity].
  destruct (isFinite (previousPinchMidX st)); [|left; reflexivity].
  destruct (isFinite (midX - previousPinchMidX st)%num);
    [|left; reflexivity].
  destruct ((midX - previousPinchMidX st)%num =? zero)%num;
    [left; reflexivity|].
  destruct (isFinite span); [|left; reflexivity].
  destruct (span >? zero)%num; [|left; reflexivity].
  cbn [negb andb].
  destruct (isFinite (panDelta _ _ _)); [|left; reflexivity].
  destruct (panDelta _ _ _ =? zero)%num; [left; reflexivity|].
  right. repeat split; reflexivity.
Qed.

(** The state a single-finger move leaves behind when the pointer is
    tracked: the new position is recorded whatever the guards decide. *)
Lemma touchPan_records e (st st' : TouchState ZS) prev :
  touchPan e st = Some st' ->
  map_get (activePointers st) (pointerId e) = Some prev ->
  activePointers st' = moved e st /\
  previousPinchDist st' = previousPinchDist st /\
  previousPinchMidX st' = previousPinchMidX st /\
  lastPointer st' = lastPointer st.
Proof.
  unfold touchPan. intros Hrun Hprev.
  destruct (Z.eqb _ 1); [|discriminate].
  apply Some_eq in Hrun. subst st'. rewrite Hprev. fold (moved e st).
  repeat match goal with
  | |- context [if ?b then _ else _] => destruct b
  end; repeat split; reflexivity.
Qed.

(** X8: the pan of a pinch frame is guarded.  A frame issues its zoom
    call, if any, and after it at most one [pan]; the pan is only issued
    with a previous-frame reference, a strictly positive plot width, a
    finite previous midpoint, a finite non-zero midpoint shift and a
    finite strictly positive span, and its delta is
    [-(shift / plotWidth) * span], finite and non-zero, computed from the
    span of the range as it was before the zoom call of the frame. *)
Theorem pinch_pan_guarded (e : PointerEvent) (st st' : TouchState ZS) :
  touchPinch e st = Some st' ->
  let dx := (pinchMidX (moved e st) - previousPinchMidX st)%num in
  let d := panDelta dx (pinchPlotWidth st) (viewSpan st) in
  let zs :=
    if (previousPinchDist st >? zero)%num
       && (pinchDist (moved e st) >? zero)%num
    then zoomCalls (pinchFactor e st) (pinchCenter e st) else [] in
  newCalls st st' = zs \/
  (newCalls st st' = zs ++ [CPan d] /\
   hasReference e st /\
   (pinchPlotWidth st >? zero)%num = true /\
   isFinite (previousPinchMidX st) = true /\
   isFinite dx = true /\ (dx =? zero)%num = false /\
   isFinite (viewSpan st) = true /\ (viewSpan st >? zero)%num = true /\
   isFinite d = true /\ (d =? zero)%num = false /\
   d = (- (dx / pinchPlotWidth st) * viewSpan st)%num).
Proof.
  unfold touchPinch. intro Hrun.
  destruct (Z.eqb _ 2); [|discriminate].
  apply Some_eq in Hrun. subst st'. fold (moved e st). cbv zeta.
  cbn [previousPinchDist setPointers activePointers].
  unfold hasReference.
  destruct (previousPinchDist st >? zero)%num eqn:Eprev;
    [destruct (pinchDist (moved e st) >? zero)%num eqn:Ecur|]; cbn [andb].
  - match goal with
    | |- context [pinchPan ?m ?w ?s ?t] =>
        destruct (pinchPan_cases m w s t) as [E|(E & Hconds)];
          destruct (pinchZoom_issued (previousPinchDist st
                                      / pinchDist (moved e st))%num
                      (pinchCenterPct m (setPointers (moved e st) st))
                      (setPointers (moved e st) st))
            as (Hz & _ & Hmid)
    end.
    + left. apply newCalls_app. rewrite E.
      cbn [issued setPinchRef]. rewrite Hz. reflexivity.
    + right. rewrite Hmid in E, Hconds.
      cbn [previousPinchMidX setPointers] in E, Hconds.
      split.
      * apply newCalls_app. rewrite E.
        cbn [issued setPinchRef call]. rewrite Hz.
        cbn [issued setPointers]. rewrite <- app_assoc. reflexivity.
      * split; [split; reflexivity|].
        destruct Hconds as (H1 & H2 & H3 & H4 & H5 & H6 & H7 & H8).
        repeat split; assumption.
  - left. apply newCalls_app. cbn. rewrite app_nil_r. reflexivity.
  - left. apply newCalls_app. cbn. rewrite app_nil_r. reflexivity.
Qed.


(** X10: a repeated event is quiet.  When the single-finger block has
    handled an event, the same event again runs the block without any
    call: the block recorded the position, so the movement is zero (or
    not finite). *)
Theorem repeated_drag_is_quiet (e : PointerEvent) (st st1 : TouchState ZS) :
  touchPan e st = Some st1 ->
  exists st2,
    touchPan e st1 = Some st2 /\
    issued st2 = issued st1 /\ zoomState st2 = zoomState st1.
Proof.
  intro Hrun.
  destruct (map_get (activePointers st) (pointerId e)) as [prev|] eqn:Hprev.
  - destruct (touchPan_records e st st1 prev Hrun Hprev) as (Hptr & _).
    assert (Hsize : map_size (activePointers st) = 1%Z).
    { unfold touchPan in Hrun.
      destruct (Z.eqb_spec (map_size (activePointers st)) 1);
        [assumption|discriminate]. }
    assert (Hhas : map_has (activePointers st) (pointerId e) = true)
      by (apply map_has_get; exists prev; exact Hprev).
    unfold touchPan. rewrite Hptr. unfold map_size, moved.
    destruct (map_set_tracked (activePointers st) (pointerId e)
                (mkPointer (clientX e) (clientY e)) Hhas) as [-> _].
    fold (map_size (activePointers st)). rewrite Hsize.
    cbn [Z.eqb Pos.eqb]. rewrite map_get_set_same. cbn [px].
    eexists. split; [reflexivity|].
    destruct (sub_self (clientX e)) as [E|E]; rewrite E;
      [|rewrite orb_true_r]; split; reflexivity.
  - assert (E : st1 = st).
    { unfold touchPan in Hrun. rewrite Hprev in Hrun.
      destruct (Z.eqb _ 1); [|discriminate].
      apply Some_eq in Hrun. symmetry. exact Hrun. }
    subst st1. exists st. split; [exact Hrun|split; reflexivity].
Qed.

(** X11: the same for a pinch frame.  When the pinch block has handled
    the move of a tracked contact, the same event again runs the block
    without any call: the distance equals the reference, so the factor
    is one, and the midpoint did not shift. *)
Theorem repeated_pinch_is_quiet (e : PointerEvent) (st st1 : TouchState ZS) :
  map_has (activePointers st) (pointerId e) = true ->
  touchPinch e st = Some st1 ->
  exists st2,
    touchPinch e st1 = Some st2 /\
    issued st2 = issued st1 /\ zoomState st2 = zoomState st1.
Proof.
  intros Hhas Hrun.
  destruct (touchPinch_frame e st st1 Hrun) as (Hptr & Hdist & _).
  assert (Hmid : previousPinchMidX st1 = pinchMidX (moved e st)).
  { unfold touchPinch in Hrun. destruct (Z.eqb _ 2); [|discriminate].
    apply Some_eq in Hrun. subst st1. reflexivity. }
  assert (Hsize : map_size (activePointers st) = 2%Z).
  { unfold touchPinch in Hrun.
    destruct (Z.eqb_spec (map_size (activePointers st)) 2);
      [assumption|discriminate]. }
  assert (Hmoved : moved e st1 = moved e st).
  { unfold moved at 1. rewrite Hptr. unfold moved. apply map_set_twice. }
  unfold touchPinch. fold (moved e st1). rewrite Hmoved.
  rewrite Hptr. unfold map_size at 1. unfold moved at 1.
  destruct (map_set_tracked (activePointers st) (pointerId e)
              (mkPointer (clientX e) (clientY e)) Hhas) as [-> _].
  fold (map_size (activePointers st)). rewrite Hsize.
  cbn [Z.eqb Pos.eqb].
  eexists. split; [reflexivity|].
  cbn [issued zoomState setPinchRef previousPinchDist setPointers
       activePointers].
  rewrite Hdist.
  destruct (pinchDist (moved e st) >? zero)%num eqn:Ed; cbn [andb];
    [|split; reflexivity].
  destruct (div_self _ Ed) as [Hgt Hlt].
  unfold pinchZoom. rewrite Hgt, Hlt.
  unfold pinchPan. cbn [previousPinchMidX setPointers]. rewrite Hmid.
  destruct (pinchPlotWidth _ >? zero)%num; [|split; reflexivity].
  destruct (isFinite (pinchMidX (moved e st))); [|split; reflexivity].
  destruct (sub_self (pinchMidX (moved e st))) as [E|E]; rewrite E;
    cbn [negb andb]; rewrite ?andb_false_r; cbn [andb]; split; reflexivity.
Qed.

End GestureFacts.

Lemma pinch_pan_guarded_witness :
  exists st',
    touchPinch GestureTests.closingMove GestureTests.closing = Some st' /\
    newCalls GestureTests.closing st'
    = [CZoomOut (Fin (145 # 3)) (Fin (3 # 2)); CPan (Fin (25 # 12))].
Proof.
  destruct (touchPinch GestureTests.closingMove GestureTests.closing)
    as [st'|] eqn:E; [|discriminate E].
  exists st'. split; [reflexivity|].
  destruct (pinch_pan_guarded GestureTests.closingMove GestureTests.closing
              st' E) as [Hn|(Hn & _)].
  - vm_compute in E. injection E as <-. discriminate Hn.
  - rewrite Hn. vm_compute. reflexivity.
Defined.


Lemma repeated_drag_is_quiet_witness :
  exists st1 st2,
    touchPan GestureTests.dragRight GestureTests.oneFinger = Some st1 /\
    touchPan GestureTests.dragRight st1 = Some st2 /\
    issued st2 = issued st1 /\ zoomState st2 = zoomState st1.
Proof.
  destruct (touchPan GestureTests.dragRight GestureTests.oneFinger)
    as [st1|] eqn:E; [|discriminate E].
  destruct (repeated_drag_is_quiet GestureTests.dragRight
              GestureTests.oneFinger st1 E) as (st2 & H2).
  exists st1, st2. split; [reflexivity|exact H2].
Defined.

Lemma repeated_pinch_is_quiet_witness :
  exists st1 st2,
    touchPinch GestureTests.closingMove GestureTests.closing = Some st1 /\
    touchPinch GestureTests.closingMove st1 = Some st2 /\
    issued st2 = issued st1 /\ zoomState st2 = zoomState st1.
Proof.
  destruct (touchPinch GestureTests.closingMove GestureTests.closing)
    as [st1|] eqn:E; [|discriminate E].
  destruct (repeated_pinch_is_quiet GestureTests.closingMove
              GestureTests.closing st1 eq_refl E) as (st2 & H2).
  exists st1, st2. split; [reflexivity|exact H2].
Defined.

(** * The zoom reset button *)

Section ResetButtonFacts.

Import ZoomResetButton.

Ltac button_cases :=
  repeat match goal with
  | |- context [if ?b then _ else _] => destruct b; cbn
  end.

(** One event on a live button: the device stays what it is, and unless
    the event disposes the button it stays subscribed, listening, and
    showing what the range asks for. *)
Lemma live_step w ev :
  disposed w = false -> subscribed w = true -> listening w = true ->
  display w = shown (touchCapable w) (range w) ->
  touchCapable (step w ev) = touchCapable w /\
  (disposed (step w ev) = false ->
   subscribed (step w ev) = true /\ listening (step w ev) = true /\
   display (step w ev)
   = shown (touchCapable (step w ev)) (range (step w ev))).
Proof.
  destruct w as [r l s d t disp bg c li att]. cbn.
  intros -> -> -> ->.
  destruct ev; cbn;
    unfold click, onClick, update, dispose, setRange, triggerChange, notify,
      onChange, updateVisibility, setDisplay, applyTheme, shown; cbn;
    destruct t; cbn; button_cases;
    (split; [reflexivity|]); intro; try discriminate;
    repeat split; reflexivity.
Qed.

(** One event on a disposed button: only the mock zoom state changes. *)
Lemma disposed_step w ev :
  disposed w = true -> subscribed w = false -> listening w = false ->
  disposed (step w ev) = true /\ subscribed (step w ev) = false /\
  listening (step w ev) = false /\
  touchCapable (step w ev) = touchCapable w /\
  display (step w ev) = display w /\
  background (step w ev) = background w /\ color (step w ev) = color w /\
  attached (step w ev) = attached w /\
  (ofButton ev = true -> step w ev = w).
Proof.
  destruct w as [r l s d t disp bg c li att]. cbn.
  intros -> -> ->.
  destruct ev; cbn; repeat split; try reflexivity; discriminate.
Qed.

Lemma disposed_stays w ev : disposed w = true -> disposed (step w ev) = true.
Proof.
  destruct w as [r l s d t disp bg c li att]. cbn. intros ->.
  destruct ev; cbn;
    unfold click, onClick, update, dispose, setRange, triggerChange,
      notify, onChange; cbn; button_cases; reflexivity.
Qed.

Lemma disposed_run evs : forall w,
  disposed w = true -> disposed (run evs w) = true.
Proof.
  induction evs as [|ev evs IH]; intros w Hd; [exact Hd|].
  change (run (ev :: evs) w) with (run evs (step w ev)).
  apply IH. apply disposed_stays. exact Hd.
Qed.

(** A button that is live after a run was live all along. *)
Lemma live_run evs : forall w,
  disposed w = false -> subscribed w = true -> listening w = true ->
  display w = shown (touchCapable w) (range w) ->
  disposed (run evs w) = false ->
  subscribed (run evs w) = true /\ listening (run evs w) = true /\
  display (run evs w) = shown (touchCapable w) (range (run evs w)).
Proof.
  induction evs as [|ev evs IH]; intros w Hd Hs Hl Hv Hfin.
  - repeat split; assumption.
  - change (run (ev :: evs) w) with (run evs (step w ev)) in *.
    destruct (live_step w ev Hd Hs Hl Hv) as [Ht Hlive].
    destruct (disposed (step w ev)) eqn:Hd'.
    + rewrite (disposed_run evs _ Hd') in Hfin. discriminate Hfin.
    + destruct (Hlive eq_refl) as (Hs' & Hl' & Hv').
      rewrite <- Ht. apply IH; assumption.
Qed.

Lemma created_live touch initial theme :
  let w := createZoomResetButton touch initial theme in
  disposed w = false /\ subscribed w = true /\ listening w = true /\
  touchCapable w = touch /\ range w = initial /\
  display w = shown touch initial.
Proof.
  unfold createZoomResetButton, updateVisibility, applyTheme, shown. cbn.
  destruct touch; cbn; [destruct (isFullRange _ _)|]; repeat split.
Qed.

(** X12: while the button is not disposed it shows exactly when the
    device is touch capable and the range is not (within 0.01 of) the
    full range: this holds when it is created and after any sequence of
    clicks, theme updates and changes of the zoom state.  On a device
    without touch it is never shown. *)
Theorem button_shows_when_zoomed (touch : bool) (initial : ZoomRange)
  (theme : ThemeConfig) (evs : list Event) :
  let w := run evs (createZoomResetButton touch initial theme) in
  disposed w = false ->
  display w = shown touch (range w) /\
  (touch = false -> display w = DisplayNone).
Proof.
  intros w Hd.
  destruct (created_live touch initial theme)
    as (H1 & H2 & H3 & H4 & H5 & H6).
  assert (Hshow : display w = shown touch (range w)).
  { unfold w. rewrite <- H4 at 2. apply live_run; try assumption.
    rewrite H4, H5. exact H6. }
  split; [exact Hshow|].
  intros ->. rewrite Hshow. reflexivity.
Qed.

(** X13: a click on a live button resets the zoom state to the full
    range [0, 100] through [setRange] and leaves the button hidden,
    whatever the range was. *)
Theorem click_resets_zoom (touch : bool) (initial : ZoomRange)
  (theme : ThemeConfig) (evs : list Event) :
  let w := run evs (createZoomResetButton touch initial theme) in
  disposed w = false ->
  range (click w) = mkRange zero (Fin 100) /\
  lastSetRange (click w) = Some (mkRange zero (Fin 100)) /\
  display (click w) = DisplayNone.
Proof.
  intros w Hd.
  destruct (created_live touch initial theme)
    as (H1 & H2 & H3 & H4 & H5 & H6).
  destruct (live_run evs (createZoomResetButton touch initial theme))
    as (Hs & Hl & _); try assumption.
  { rewrite H4, H5. exact H6. }
  fold w in Hs, Hl.
  destruct w as [r l s d t disp bg c li att]. cbn in Hd, Hs, Hl. subst.
  unfold click, onClick, setRange, notify, onChange, updateVisibility,
    setDisplay. cbn.
  destruct t; cbn; repeat split; reflexivity.
Qed.

(** X14: a disposed button is inert.  After [dispose()], clicks, theme
    updates and further [dispose()] calls change nothing at all: the zoom
    state is not reset and the style is not touched; and changes of the
    zoom state no longer reach the button: its display, colours and
    detachment stay as [dispose()] left them. *)
Theorem disposed_button_is_inert (touch : bool) (initial : ZoomRange)
  (theme : ThemeConfig) (before after : list Event) :
  let w := dispose (run before (createZoomResetButton touch initial theme)) in
  let w' := run after w in
  disposed w' = true /\ attached w' = false /\
  display w' = display w /\ background w' = background w /\
  color w' = color w /\
  (forallb ofButton after = true -> w' = w).
Proof.
  intros w w'.
  assert (Hw : disposed w = true /\ subscribed w = false /\
               listening w = false /\ attached w = false).
  { unfold w. clear w w'.
    generalize (created_live touch initial theme).
    generalize (createZoomResetButton touch initial theme).
    intros w0 (Hd & Hs & Hl & _).
    assert (Hinv : forall evs w1,
              (disposed w1 = true ->
               subscribed w1 = false /\ listening w1 = false /\
               attached w1 = false) ->
              (disposed (run evs w1) = true ->
               subscribed (run evs w1) = false /\
               listening (run evs w1) = false /\
               attached (run evs w1) = false)).
    { clear. induction evs as [|ev evs IH]; intros w1 H1; [exact H1|].
      change (run (ev :: evs) w1) with (run evs (step w1 ev)).
      apply IH. destruct w1 as [r l s d t disp bg c li att]. cbn in H1.
      destruct d.
      - destruct (H1 eq_refl) as (-> & -> & ->).
        destruct ev; cbn; intros _; repeat split; reflexivity.
      - destruct ev; cbn;
          unfold click, onClick, update, dispose, setRange, triggerChange,
            notify, onChange, updateVisibility, setDisplay, applyTheme; cbn;
          button_cases; intro E; try discriminate E; repeat split;
          reflexivity. }
    specialize (Hinv before w0 ltac:(intro E; congruence)).
    destruct (run before w0) as [r l s d t disp bg c li att]. cbn in Hinv.
    unfold dispose. cbn. destruct d; cbn.
    - destruct (Hinv eq_refl) as (-> & -> & ->). repeat split; reflexivity.
    - repeat split; reflexivity. }
  unfold w'. clearbody w. clear w'.
  revert w Hw. induction after as [|ev evs IH]; intros w (Hd & Hs & Hl & Ha).
  - cbn. repeat split; (assumption || reflexivity).
  - change (run (ev :: evs) w) with (run evs (step w ev)).
    destruct (disposed_step w ev Hd Hs Hl)
      as (Hd' & Hs' & Hl' & _ & Hdisp & Hbg & Hc & Hat & Hsame).
    destruct (IH (step w ev)) as (R1 & R2 & R3 & R4 & R5 & R6).
    { repeat split; try assumption. congruence. }
    repeat split; try congruence.
    cbn [forallb]. intro Hall. apply andb_true_iff in Hall.
    destruct Hall as [Hev Hrest].
    rewrite (R6 Hrest). apply Hsame. exact Hev.
Qed.

End ResetButtonFacts.

Lemma button_shows_when_zoomed_witness :
  let w :=
    ZoomResetButton.run
      [ZoomResetButton.TriggerChange (mkRange (Fin 10) (Fin 90))]
      (ZoomResetButton.createZoomResetButton true
         (mkRange (Fin 0) (Fin 100))
         (ZoomResetButton.mkTheme "#1a1a2e" "#e0e0e0")) in
  ZoomResetButton.display w = ZoomResetButton.DisplayFlex.
Proof.
  intro w.
  destruct (button_shows_when_zoomed true (mkRange (Fin 0) (Fin 100))
              (ZoomResetButton.mkTheme "#1a1a2e" "#e0e0e0")
              [ZoomResetButton.TriggerChange (mkRange (Fin 10) (Fin 90))]
              eq_refl) as [Hshow _].
  exact Hshow.
Defined.

Lemma click_resets_zoom_witness :
  let w :=
    ZoomResetButton.createZoomResetButton true (mkRange (Fin 20) (Fin 80))
      (ZoomResetButton.mkTheme "#1a1a2e" "#e0e0e0") in
  ZoomResetButton.lastSetRange (ZoomResetButton.click w)
  = Some (mkRange (Fin 0) (Fin 100)).
Proof.
  intro w.
  destruct (click_resets_zoom true (mkRange (Fin 20) (Fin 80))
              (ZoomResetButton.mkTheme "#1a1a2e" "#e0e0e0") [] eq_refl)
    as (_ & Hset & _).
  exact Hset.
Defined.

(** * Packing points for the GPU *)

Section PackFacts.

Import PackDataPoints.

Variable fround : num -> num.

Lemma write_at (l r : list num) (a v : num) :
  write (l ++ a :: r) (length l) v = l ++ v :: r.
Proof.
  induction l as [|b l IH]; cbn; [reflexivity|]. rewrite IH. reflexivity.
Qed.

Lemma writeAll_at vs : forall (l pad r : list num),
  length pad = length vs ->
  writeAll (l ++ pad ++ r) (length l) vs = l ++ vs ++ r.
Proof.
  induction vs as [|v vs IH]; intros l pad r Hlen.
  - destruct pad; [reflexivity|discriminate Hlen].
  - destruct pad as [|a pad]; [discriminate Hlen|].
    cbn [writeAll app]. rewrite write_at.
    specialize (IH (l ++ [v]) pad r).
    rewrite <- !app_assoc, length_app in IH. cbn [app length] in IH.
    replace (length l + 1)%nat with (S (length l)) in IH by lia.
    apply IH. cbn in Hlen. lia.
Qed.

Lemma repeat_add (a : num) (k m : nat) :
  repeat a (k + m) = repeat a k ++ repeat a m.
Proof. apply repeat_app. Qed.

Lemma floats_length {A : Type} (f : Point -> option A)
  (floats : Point -> list num) (k : nat) pts :
  (forall p, accepted f p = true -> length (floats p) = k) ->
  (forall p, In p pts -> accepted f p = true) ->
  length (flat_map floats pts) = (length pts * k)%nat.
Proof.
  intros Hk. induction pts as [|p pts IH]; intro H; [reflexivity|].
  cbn. rewrite length_app.
  rewrite IH by (intros q Hq; apply H; right; exact Hq).
  rewrite (Hk p) by (apply H; left; reflexivity). lia.
Qed.

Lemma firstRejected_none {A : Type} (f : Point -> option A) pts :
  firstRejected f pts = None <-> forall p, In p pts -> accepted f p = true.
Proof.
  induction pts as [|p pts IH]; cbn.
  - split; [intros _ q []|reflexivity].
  - destruct (accepted f p) eqn:E.
    + destruct (firstRejected f pts); cbn.
      * split; [discriminate|]. intro H.
        assert (Some n = None) by (apply IH; intros q Hq; apply H; auto).
        discriminate.
      * split; [|reflexivity]. intros _ q [<-|Hq]; [exact E|].
        apply IH; [reflexivity|exact Hq].
    + split; [discriminate|]. intro H. rewrite (H p) in E by auto.
      discriminate E.
Qed.

(** The first rejected point is rejected, and every point before it is
    accepted. *)
Lemma firstRejected_some {A : Type} (f : Point -> option A) pts i :
  firstRejected f pts = Some i ->
  (i < length pts)%nat /\
  accepted f (nth i pts PUndefined) = false /\
  forall j, (j < i)%nat -> accepted f (nth j pts PUndefined) = true.
Proof.
  revert i. induction pts as [|p pts IH]; intros i; cbn; [discriminate|].
  destruct (accepted f p) eqn:E.
  - destruct (firstRejected f pts) as [k|]; [|discriminate].
    cbn. intro Hi. apply Some_eq in Hi. subst i.
    destruct (IH k eq_refl) as (Hk & Hrej & Hbefore).
    split; [lia|]. split; [exact Hrej|].
    intros [|j] Hj; [exact E|]. apply Hbefore. lia.
  - intro Hi. apply Some_eq in Hi. subst i.
    split; [lia|]. split; [exact E|]. intros j Hj. lia.
Qed.

(** A loop that stores [k] floats per point, from the point after
    [done]: the buffer holds the floats of [done] and zeros; the loop
    fills in the floats of the remaining points, or throws at the first
    one it does not accept. *)
Section Loop.

Context {A : Type} (f : Point -> option A) (floats : Point -> list num)
  (rejection : Point -> nat -> Exception) (k : nat)
  (body : list Point -> list num -> nat -> Result (list num)).

Hypothesis floats_k :
  forall p, accepted f p = true -> length (floats p) = k.

Hypothesis body_spec : forall points f32 i,
  body points f32 i
  = if accepted f (nth i points PUndefined)
    then Ok (writeAll f32 (i * k) (floats (nth i points PUndefined)))
    else Throw (rejection (nth i points PUndefined) i).

Lemma packLoop_spec rest : forall done,
  (forall p, In p done -> accepted f p = true) ->
  forLoop (body (done ++ rest)) (length done) (length rest)
    (flat_map floats done ++ repeat zero (length rest * k))
  = match firstRejected f rest with
    | Some j => Throw (rejection (nth j rest PUndefined) (length done + j))
    | None => Ok (flat_map floats (done ++ rest))
    end.
Proof.
  induction rest as [|p rest IH]; intros done Hdone.
  - cbn. rewrite !app_nil_r. reflexivity.
  - cbn [forLoop length firstRejected]. rewrite body_spec.
    rewrite app_nth2, Nat.sub_diag by lia. cbn [nth].
    destruct (accepted f p) eqn:Ep.
    + assert (Hlen : length (flat_map floats done) = (length done * k)%nat)
        by (apply (floats_length f); assumption).
      rewrite <- Hlen.
      change (S (length rest) * k)%nat with (k + length rest * k)%nat.
      rewrite repeat_add, writeAll_at
        by (rewrite repeat_length; symmetry; apply floats_k; exact Ep).
      specialize (IH (done ++ [p])).
      rewrite <- app_assoc in IH. cbn [app] in IH.
      rewrite length_app in IH. cbn [length] in IH.
      replace (length done + 1)%nat with (S (length done)) in IH by lia.
      rewrite flat_map_app in IH. cbn [flat_map] in IH.
      rewrite app_nil_r, <- app_assoc in IH.
      rewrite IH.
      * destruct (firstRejected f rest) as [j|]; cbn [option_map];
          [|reflexivity].
        replace (length done + S j)%nat with (S (length done) + j)%nat by lia.
        reflexivity.
      * intros q Hq. apply in_app_or in Hq. destruct Hq as [Hq|[<-|[]]].
        -- apply Hdone. exact Hq.
        -- exact Ep.
    + rewrite Nat.add_0_r. reflexivity.
Qed.

(** The floats of point [i] in the packed buffer. *)
Lemma packed_slots pts : forall i,
  (forall p, In p pts -> accepted f p = true) ->
  (i < length pts)%nat ->
  firstn k (skipn (i * k) (flat_map floats pts))
  = floats (nth i pts PUndefined).
Proof.
  induction pts as [|p pts IH]; intros i Hall Hi; [cbn in Hi; lia|].
  assert (Hp : length (floats p) = k)
    by (apply floats_k, Hall; left; reflexivity).
  cbn [flat_map]. destruct i as [|i].
  - cbn [Nat.mul skipn nth]. rewrite <- Hp, firstn_app, Nat.sub_diag.
    rewrite firstn_all, firstn_O, app_nil_r. reflexivity.
  - cbn [nth]. replace (S i * k)%nat with (length (floats p) + i * k)%nat
      by (cbn; lia).
    rewrite skipn_app, skipn_all2 by lia. cbn [app].
    replace (length (floats p) + i * k - length (floats p))%nat
      with (i * k)%nat by lia.
    apply IH; [|cbn in Hi; lia].
    intros q Hq. apply Hall. right. exact Hq.
Qed.

End Loop.

(** One turn of the loop of [packDataPoints]. *)
Lemma packPoint_spec points f32 i :
  packPoint fround points f32 i
  = if accepted xyOf (nth i points PUndefined)
    then Ok (writeAll f32 (i * 2)
               (floatsXY fround (nth i points PUndefined)))
    else Throw (rejectionXY (nth i points PUndefined) i).
Proof.
  unfold packPoint, accepted, floatsXY. rewrite Nat.add_0_r, Nat.add_1_r.
  destruct (nth i points PUndefined) as [| |elems|fields|]; try reflexivity.
  - destruct elems as [|e0 elems]; [reflexivity|].
    destruct elems as [|e1 elems]; destruct e0; try reflexivity;
      destruct e1; reflexivity.
  - unfold xyOf, isArray, prop.
    destruct (lookup fields "x") as [| |x|];
      destruct (lookup fields "y") as [| |y|]; reflexivity.
Qed.

Lemma floatsXY_length p :
  accepted xyOf p = true -> length (floatsXY fround p) = 2%nat.
Proof.
  unfold accepted, floatsXY. destruct (xyOf p) as [[x y]|];
    [reflexivity|discriminate].
Qed.

(** What [packDataPoints] does on an array. *)
Lemma packDataPoints_array pts :
  packDataPoints fround (IArray pts)
  = if (Z.of_nat (length pts) >? MAX_POINTS_XY)%Z
    then Throw (RangeError_tooLarge (length pts))
    else match firstRejected xyOf pts with
         | Some i => Throw (rejectionXY (nth i pts PUndefined) i)
         | None => Ok (flat_map (floatsXY fround) pts)
         end.
Proof.
  unfold packDataPoints. cbn [falsy].
  destruct pts as [|p pts]; [reflexivity|].
  set (points := p :: pts).
  replace (Nat.eqb (length points) 0) with false by reflexivity.
  destruct (Z.of_nat (length points) >? MAX_POINTS_XY)%Z; [reflexivity|].
  replace (length points * 2 * 4 / 4)%nat with (length points * 2)%nat
    by (symmetry; apply Nat.div_mul; discriminate).
  apply (packLoop_spec xyOf (floatsXY fround) rejectionXY 2
           (packPoint fround) floatsXY_length packPoint_spec points []).
  intros q [].
Qed.

(** One turn of the loop of [packOHLCDataPoints]. *)
Lemma packOHLCPoint_spec points f32 i :
  packOHLCPoint fround points f32 i
  = if accepted ohlcOf (nth i points PUndefined)
    then Ok (writeAll f32 (i * 5)
               (floatsOHLC fround (nth i points PUndefined)))
    else Throw (rejectionOHLC (nth i points PUndefined) i).
Proof.
  unfold packOHLCPoint, accepted, floatsOHLC.
  rewrite Nat.add_0_r.
  replace (i * 5 + 1)%nat with (S (i * 5)) by lia.
  replace (i * 5 + 2)%nat with (S (S (i * 5))) by lia.
  replace (i * 5 + 3)%nat with (S (S (S (i * 5)))) by lia.
  replace (i * 5 + 4)%nat with (S (S (S (S (i * 5))))) by lia.
  destruct (nth i points PUndefined) as [| |elems|fields|]; try reflexivity.
  - destruct elems as [|e0 [|e1 [|e2 [|e3 [|e4 [|e5 rest]]]]]];
      try reflexivity;
      repeat match goal with
      | e : Value |- _ => destruct e; try reflexivity
      end.
  - unfold ohlcOf, prop.
    destruct (lookup fields "timestamp"); try reflexivity;
      destruct (lookup fields "open"); try reflexivity;
      destruct (lookup fields "high"); try reflexivity;
      destruct (lookup fields "low"); try reflexivity;
      destruct (lookup fields "close"); reflexivity.
Qed.

Lemma floatsOHLC_length p :
  accepted ohlcOf p = true -> length (floatsOHLC fround p) = 5%nat.
Proof.
  unfold accepted, floatsOHLC.
  destruct (ohlcOf p) as [[[[[t o] h] l] c]|]; [reflexivity|discriminate].
Qed.

Lemma packOHLCDataPoints_array pts :
  packOHLCDataPoints fround (IArray pts)
  = if (Z.of_nat (length pts) >? MAX_POINTS_OHLC)%Z
    then Throw (RangeError_tooLarge (length pts))
    else match firstRejected ohlcOf pts with
         | Some i => Throw (rejectionOHLC (nth i pts PUndefined) i)
         | None => Ok (flat_map (floatsOHLC fround) pts)
         end.
Proof.
  unfold packOHLCDataPoints. cbn [falsy].
  destruct pts as [|p pts]; [reflexivity|].
  set (points := p :: pts).
  replace (Nat.eqb (length points) 0) with false by reflexivity.
  destruct (Z.of_nat (length points) >? MAX_POINTS_OHLC)%Z; [reflexivity|].
  replace (length points * 5 * 4 / 4)%nat with (length points * 5)%nat
    by (symmetry; apply Nat.div_mul; discriminate).
  apply (packLoop_spec ohlcOf (floatsOHLC fround) rejectionOHLC 5
           (packOHLCPoint fround) floatsOHLC_length packOHLCPoint_spec
           points []).
  intros q [].
Qed.

Lemma slot_of (l vs : list num) (k m j : nat) :
  firstn m (skipn k l) = vs -> (j < m)%nat ->
  nth_error l (k + j) = nth_error vs j.
Proof.
  intros <- Hj. rewrite nth_error_firstn, nth_error_skipn.
  destruct (Nat.ltb_spec j m); [reflexivity|lia].
Qed.

(** X15: [packDataPoints] on an array of at most 268,435,456 accepted
    points (a tuple whose first two elements are numbers, or an object
    whose [x] and [y] are numbers; [NaN] and the infinities count as
    numbers) returns a buffer of [2n] floats, at most 2 GiB, in which
    point [i] occupies the slots [2i] and [2i + 1] with its x and y as
    stored in a [Float32Array]; no slot is left unwritten and a third
    tuple element or other properties are ignored. *)
Theorem packDataPoints_layout (pts : list Point) :
  (Z.of_nat (length pts) <= MAX_POINTS_XY)%Z ->
  (forall p, In p pts -> accepted xyOf p = true) ->
  exists f32,
    packDataPoints fround (IArray pts) = Ok f32 /\
    length f32 = (2 * length pts)%nat /\
    (Z.of_nat (length f32) * 4 <= 2147483648)%Z /\
    forall i x y, xyOf (nth i pts PUndefined) = Some (x, y) ->
      nth_error f32 (2 * i) = Some (fround x) /\
      nth_error f32 (2 * i + 1) = Some (fround y).
Proof.
  intros Hmax Hall. exists (flat_map (floatsXY fround) pts).
  assert (Hlen : length (flat_map (floatsXY fround) pts)
                 = (length pts * 2)%nat)
    by (apply (floats_length xyOf); [apply floatsXY_length|exact Hall]).
  split; [|split; [|split]].
  - rewrite packDataPoints_array.
    destruct (Z.gtb_spec (Z.of_nat (length pts)) MAX_POINTS_XY); [lia|].
    apply firstRejected_none in Hall. rewrite Hall. reflexivity.
  - lia.
  - rewrite Hlen. unfold MAX_POINTS_XY in Hmax. lia.
  - intros i x y Hxy.
    assert (Hi : (i < length pts)%nat).
    { destruct (Nat.lt_ge_cases i (length pts)) as [Hi|Hi]; [exact Hi|].
      rewrite nth_overflow in Hxy by exact Hi. discriminate Hxy. }
    pose proof (packed_slots xyOf (floatsXY fround) 2 floatsXY_length
                  pts i Hall Hi) as Hslot.
    unfold floatsXY at 2 in Hslot. rewrite Hxy in Hslot.
    replace (2 * i)%nat with (i * 2 + 0)%nat by lia.
    replace (i * 2 + 0 + 1)%nat with (i * 2 + 1)%nat by lia.
    split.
    + rewrite (slot_of _ _ _ 2 0 Hslot) by lia. reflexivity.
    + rewrite (slot_of _ _ _ 2 1 Hslot) by lia. reflexivity.
Qed.

(** X16: how [packDataPoints] fails.  A missing argument and a value
    that is not an array are [TypeError]s; an empty array is packed into
    an empty buffer; more than 268,435,456 points are a [RangeError],
    thrown before any point is looked at; otherwise the first point that
    is not accepted is reported with its index by a [TypeError] (for a
    [null] or [undefined] point, or for coordinates that are not
    numbers), and nothing is returned; and a buffer is only ever returned
    when the size is within the limit and every point is accepted. *)
Theorem packDataPoints_rejects (pts : list Point) :
  packDataPoints fround INull = Throw TypeError_required /\
  packDataPoints fround IUndefined = Throw TypeError_required /\
  packDataPoints fround INotArray = Throw TypeError_notArray /\
  packDataPoints fround (IArray []) = Ok [] /\
  ((Z.of_nat (length pts) > MAX_POINTS_XY)%Z ->
   packDataPoints fround (IArray pts)
   = Throw (RangeError_tooLarge (length pts))) /\
  ((Z.of_nat (length pts) <= MAX_POINTS_XY)%Z ->
   forall i, firstRejected xyOf pts = Some i ->
     (i < length pts)%nat /\
     accepted xyOf (nth i pts PUndefined) = false /\
     (forall j, (j < i)%nat -> accepted xyOf (nth j pts PUndefined) = true) /\
     packDataPoints fround (IArray pts)
     = Throw (rejectionXY (nth i pts PUndefined) i) /\
     isRangeError (rejectionXY (nth i pts PUndefined) i) = false) /\
  (forall f32, packDataPoints fround (IArray pts) = Ok f32 ->
     (Z.of_nat (length pts) <= MAX_POINTS_XY)%Z /\
     forall p, In p pts -> accepted xyOf p = true).
Proof.
  split; [reflexivity|]. split; [reflexivity|]. split; [reflexivity|].
  split; [reflexivity|]. rewrite packDataPoints_array.
  split; [|split].
  - intro Hbig.
    destruct (Z.gtb_spec (Z.of_nat (length pts)) MAX_POINTS_XY); [|lia].
    reflexivity.
  - intros Hmax i Hi.
    destruct (Z.gtb_spec (Z.of_nat (length pts)) MAX_POINTS_XY); [lia|].
    rewrite Hi.
    destruct (firstRejected_some xyOf pts i Hi) as (H1 & H2 & H3).
    repeat split; try assumption.
    destruct (nth i pts PUndefined); reflexivity.
  - intros f32.
    destruct (Z.gtb_spec (Z.of_nat (length pts)) MAX_POINTS_XY);
      [discriminate|].
    destruct (firstRejected xyOf pts) eqn:E; [discriminate|].
    intros _. split; [lia|]. apply firstRejected_none. exact E.
Qed.

(** X17: [packOHLCDataPoints] on an array of at most 107,374,182
    accepted candles returns a buffer of [5n] floats, at most 2 GiB, in
    which candle [i] occupies the slots [5i .. 5i + 4] in the order
    timestamp, open, high, low, close: a tuple, which is given as
    [[timestamp, open, close, low, high]], is reordered, an object is
    stored by property. *)
Theorem packOHLCDataPoints_layout (pts : list Point) :
  (Z.of_nat (length pts) <= MAX_POINTS_OHLC)%Z ->
  (forall p, In p pts -> accepted ohlcOf p = true) ->
  exists f32,
    packOHLCDataPoints fround (IArray pts) = Ok f32 /\
    length f32 = (5 * length pts)%nat /\
    (Z.of_nat (length f32) * 4 <= 2147483648)%Z /\
    (forall i t o h l c,
       ohlcOf (nth i pts PUndefined) = Some (t, o, h, l, c) ->
       firstn 5 (skipn (5 * i) f32)
       = [fround t; fround o; fround h; fround l; fround c]) /\
    (forall i t o c l h,
       nth i pts PUndefined
       = PArray [VNumber t; VNumber o; VNumber c; VNumber l; VNumber h] ->
       firstn 5 (skipn (5 * i) f32)
       = [fround t; fround o; fround h; fround l; fround c]).
Proof.
  intros Hmax Hall. exists (flat_map (floatsOHLC fround) pts).
  assert (Hlen : length (flat_map (floatsOHLC fround) pts)
                 = (length pts * 5)%nat)
    by (apply (floats_length ohlcOf); [apply floatsOHLC_length|exact Hall]).
  assert (Hslots : forall i t o h l c,
            ohlcOf (nth i pts PUndefined) = Some (t, o, h, l, c) ->
            firstn 5 (skipn (5 * i) (flat_map (floatsOHLC fround) pts))
            = [fround t; fround o; fround h; fround l; fround c]).
  { intros i t o h l c Hc.
    assert (Hi : (i < length pts)%nat).
    { destruct (Nat.lt_ge_cases i (length pts)) as [Hi|Hi]; [exact Hi|].
      rewrite nth_overflow in Hc by exact Hi. discriminate Hc. }
    pose proof (packed_slots ohlcOf (floatsOHLC fround) 5 floatsOHLC_length
                  pts i Hall Hi) as Hslot.
    unfold floatsOHLC at 2 in Hslot. rewrite Hc in Hslot.
    rewrite Nat.mul_comm. exact Hslot. }
  split; [|split; [|split; [|split]]].
  - rewrite packOHLCDataPoints_array.
    destruct (Z.gtb_spec (Z.of_nat (length pts)) MAX_POINTS_OHLC); [lia|].
    apply firstRejected_none in Hall. rewrite Hall. reflexivity.
  - lia.
  - rewrite Hlen. unfold MAX_POINTS_OHLC in Hmax. lia.
  - exact Hslots.
  - intros i t o c l h Hp. apply Hslots. rewrite Hp. reflexivity.
Qed.

(** X18: how [packOHLCDataPoints] fails: as [packDataPoints] does, with
    the limit of 107,374,182 candles, and with a [TypeError] of its own
    for a tuple that does not have exactly five elements. *)
Theorem packOHLCDataPoints_rejects (pts : list Point) :
  packOHLCDataPoints fround INull = Throw TypeError_required /\
  packOHLCDataPoints fround INotArray = Throw TypeError_notArray /\
  packOHLCDataPoints fround (IArray []) = Ok [] /\
  ((Z.of_nat (length pts) > MAX_POINTS_OHLC)%Z ->
   packOHLCDataPoints fround (IArray pts)
   = Throw (RangeError_tooLarge (length pts))) /\
  ((Z.of_nat (length pts) <= MAX_POINTS_OHLC)%Z ->
   forall i, firstRejected ohlcOf pts = Some i ->
     (i < length pts)%nat /\
     accepted ohlcOf (nth i pts PUndefined) = false /\
     (forall j, (j < i)%nat ->
        accepted ohlcOf (nth j pts PUndefined) = true) /\
     packOHLCDataPoints fround (IArray pts)
     = Throw (rejectionOHLC (nth i pts PUndefined) i) /\
     isRangeError (rejectionOHLC (nth i pts PUndefined) i) = false /\
     (forall elems, nth i pts PUndefined = PArray elems ->
        length elems <> 5%nat ->
        rejectionOHLC (nth i pts PUndefined) i
        = TypeError_tuple i (length elems))) /\
  (forall f32, packOHLCDataPoints fround (IArray pts) = Ok f32 ->
     (Z.of_nat (length pts) <= MAX_POINTS_OHLC)%Z /\
     forall p, In p pts -> accepted ohlcOf p = true).
Proof.
  split; [reflexivity|]. split; [reflexivity|]. split; [reflexivity|].
  rewrite packOHLCDataPoints_array.
  split; [|split].
  - intro Hbig.
    destruct (Z.gtb_spec (Z.of_nat (length pts)) MAX_POINTS_OHLC); [|lia].
    reflexivity.
  - intros Hmax i Hi.
    destruct (Z.gtb_spec (Z.of_nat (length pts)) MAX_POINTS_OHLC); [lia|].
    rewrite Hi.
    destruct (firstRejected_some ohlcOf pts i Hi) as (H1 & H2 & H3).
    repeat split; try assumption.
    + destruct (nth i pts PUndefined) as [| |elems| |]; try reflexivity.
      cbn. destruct (Nat.eqb (length elems) 5); reflexivity.
    + intros elems -> Hlen. cbn.
      destruct (Nat.eqb_spec (length elems) 5); [contradiction|reflexivity].
  - intros f32.
    destruct (Z.gtb_spec (Z.of_nat (length pts)) MAX_POINTS_OHLC);
      [discriminate|].
    destruct (firstRejected ohlcOf pts) eqn:E; [discriminate|].
    intros _. split; [lia|]. apply firstRejected_none. exact E.
Qed.

End PackFacts.

(** ** Examples *)

Example pack_two_points :
  PackDataPoints.packDataPoints (fun v => v)
    (PackDataPoints.IArray PackExamples.twoPoints)
  = PackDataPoints.Ok [Fin 0; Fin 10; Fin 1; Fin 20].
Proof. reflexivity. Qed.

Example pack_missing_y :
  PackDataPoints.packDataPoints (fun v => v)
    (PackDataPoints.IArray PackExamples.missingY)
  = PackDataPoints.Throw (PackDataPoints.TypeError_coordinates 1).
Proof. reflexivity. Qed.

Example pack_candles :
  PackDataPoints.packOHLCDataPoints (fun v => v)
    (PackDataPoints.IArray
       [PackExamples.candleObject; PackExamples.candleTuple])
  = PackDataPoints.Ok
      [Fin 1000; Fin 100; Fin 110; Fin 95; Fin 105;
       Fin 1000; Fin 100; Fin 110; Fin 95; Fin 105].
Proof. reflexivity. Qed.

Lemma packDataPoints_layout_witness :
  exists f32,
    PackDataPoints.packDataPoints (fun v => v)
      (PackDataPoints.IArray PackExamples.twoPoints) = PackDataPoints.Ok f32
    /\ length f32 = 4%nat /\
    nth_error f32 2 = Some (Fin 1) /\ nth_error f32 3 = Some (Fin 20).
Proof.
  destruct (packDataPoints_layout (fun v => v) PackExamples.twoPoints)
    as (f32 & E & Hlen & _ & Hslots).
  - unfold PackDataPoints.MAX_POINTS_XY. cbn. lia.
  - intros p [<-|[<-|[]]]; reflexivity.
  - exists f32. split; [exact E|]. split; [exact Hlen|].
    exact (Hslots 1%nat (Fin 1) (Fin 20) eq_refl).
Defined.

Lemma packDataPoints_rejects_witness :
  PackDataPoints.packDataPoints (fun v => v)
    (PackDataPoints.IArray PackExamples.missingY)
  = PackDataPoints.Throw (PackDataPoints.TypeError_coordinates 1).
Proof.
  destruct (packDataPoints_rejects (fun v => v) PackExamples.missingY)
    as (_ & _ & _ & _ & _ & Hrej & _).
  destruct (Hrej ltac:(unfold PackDataPoints.MAX_POINTS_XY; cbn; lia)
              1%nat eq_refl) as (_ & _ & _ & E & _).
  exact E.
Defined.

Lemma packOHLCDataPoints_layout_witness :
  exists f32,
    PackDataPoints.packOHLCDataPoints (fun v => v)
      (PackDataPoints.IArray
         [PackExamples.candleObject; PackExamples.candleTuple])
    = PackDataPoints.Ok f32 /\
    firstn 5 (skipn 5 f32) = [Fin 1000; Fin 100; Fin 110; Fin 95; Fin 105].
Proof.
  destruct (packOHLCDataPoints_layout (fun v => v)
              [PackExamples.candleObject; PackExamples.candleTuple])
    as (f32 & E & _ & _ & _ & Htuple).
  - unfold PackDataPoints.MAX_POINTS_OHLC. cbn. lia.
  - intros p [<-|[<-|[]]]; reflexivity.
  - exists f32. split; [exact E|].
    exact (Htuple 1%nat (Fin 1000) (Fin 100) (Fin 105) (Fin 95) (Fin 110)
             eq_refl).
Defined.

Lemma packOHLCDataPoints_rejects_witness :
  PackDataPoints.packOHLCDataPoints (fun v => v)
    (PackDataPoints.IArray
       [PackExamples.candleObject;
        PackDataPoints.PArray [PackDataPoints.VNumber (Fin 1)]])
  = PackDataPoints.Throw (PackDataPoints.TypeError_tuple 1 1).
Proof.
  destruct (packOHLCDataPoints_rejects (fun v => v)
              [PackExamples.candleObject;
               PackDataPoints.PArray [PackDataPoints.VNumber (Fin 1)]])
    as (_ & _ & _ & _ & Hrej & _).
  destruct (Hrej ltac:(unfold PackDataPoints.MAX_POINTS_OHLC; cbn; lia)
              1%nat eq_refl) as (_ & _ & _ & E & _).
  exact E.
Defined.

(** * Hit testing of annotations *)

Lemma ltb_not_leb a b : (a <? b)%num = true -> (b <=? a)%num = false.
Proof.
  destruct a, b; nsimpl; intro E; try discriminate; try reflexivity.
  qprop. lra.
Qed.

Lemma ltb_leb a b : (a <? b)%num = true -> (a <=? b)%num = true.
Proof.
  destruct a, b; nsimpl; intro E; try discriminate; try reflexivity.
  qprop. lra.
Qed.

Lemma not_below_PInf a b :
  (a <? PInf)%num = false -> (b <? PInf)%num = true ->
  (a <=? b)%num = false.
Proof. destruct a, b; nsimpl; intros E1 E2; try discriminate; reflexivity. Qed.

Section HitTesterFacts.

Import AnnotationHitTester.

Lemma fold_left_flat_map {A B C : Type} (f : C -> B -> C) (g : A -> list B)
  (step : C -> A -> C) :
  (forall c a, step c a = fold_left f (g a) c) ->
  forall l c, fold_left step l c = fold_left f (flat_map g l) c.
Proof.
  intros Hstep. induction l as [|a l IH]; intro c; [reflexivity|].
  cbn [fold_left flat_map]. rewrite fold_left_app, <- Hstep. apply IH.
Qed.

Lemma testLine_offer t px py c ia :
  testLine t px py c ia = fold_left take (lineOffer t px py ia) c.
Proof.
  destruct ia as [i a]. unfold testLine, lineOffer, offer, take,
    distanceToLine.
  destruct (nth_error (boundsCache t) i) as [b|]; [|reflexivity].
  destruct a; destruct (canvasX b), (canvasY b); try reflexivity;
    match goal with
    | |- context [(?d <=? ?tol)%num] => destruct (d <=? tol)%num
    end; reflexivity.
Qed.

Lemma testText_offer t px py c ia :
  testText t px py c ia = fold_left take (textOffer t px py ia) c.
Proof.
  destruct ia as [i a]. unfold testText, textOffer, offer, take.
  destruct a; try reflexivity.
  destruct (textRectOf (textBoundsCache t) i) as [r|]; [|reflexivity].
  destruct (isInsideRect px py r (textTolerance t)); reflexivity.
Qed.

Lemma testPoint_offer t px py c ia :
  testPoint t px py c ia = fold_left take (pointOffer t px py ia) c.
Proof.
  destruct ia as [i a]. unfold testPoint, pointOffer, offer, take.
  destruct (nth_error (boundsCache t) i) as [b|]; [|reflexivity].
  destruct a; try reflexivity.
  destruct (canvasX b), (canvasY b); try reflexivity.
  match goal with
  | |- context [(?d <=? ?tol)%num] => destruct (d <=? tol)%num
  end; reflexivity.
Qed.

(** The three loops take the candidates one after the other. *)
Lemma scanHits_candidates t anns px py :
  scanHits t anns px py
  = fold_left take (candidates t anns px py) (None, PInf).
Proof.
  unfold scanHits, candidates. rewrite !fold_left_app.
  rewrite (fold_left_flat_map take (lineOffer t px py) (testLine t px py))
    by (intros; apply testLine_offer).
  rewrite (fold_left_flat_map take (textOffer t px py) (testText t px py))
    by (intros; apply testText_offer).
  rewrite (fold_left_flat_map take (pointOffer t px py) (testPoint t px py))
    by (intros; apply testPoint_offer).
  reflexivity.
Qed.

(** Taking candidates in turn keeps the first of the closest ones. *)
Lemma take_first_closest hs :
  let r := fold_left take hs (None, PInf) in
  (r = (None, PInf) /\
   forall x, In x hs -> (distanceCssPx x <? PInf)%num = false)
  \/ exists pre h post,
       hs = pre ++ h :: post /\ r = (Some h, distanceCssPx h) /\
       (distanceCssPx h <? PInf)%num = true /\
       (forall x, In x pre ->
          (distanceCssPx x <=? distanceCssPx h)%num = false) /\
       (forall x, In x post ->
          (distanceCssPx x <? distanceCssPx h)%num = false).
Proof.
  induction hs as [|y hs IH] using rev_ind.
  - left. split; [reflexivity|intros x []].
  - cbv zeta in *. rewrite fold_left_app. cbn [fold_left].
    destruct IH as [[-> Hnone]|(pre & h & post & -> & -> & Hh & Hpre & Hpost)].
    + unfold take. cbn [snd].
      destruct (distanceCssPx y <? PInf)%num eqn:Ey.
      * right. exists hs, y, []. split; [reflexivity|].
        split; [reflexivity|]. split; [exact Ey|].
        split; [|intros x []].
        intros x Hx. apply not_below_PInf; [apply Hnone; exact Hx|exact Ey].
      * left. split; [reflexivity|].
        intros x Hx. apply in_app_or in Hx.
        destruct Hx as [Hx|[<-|[]]]; [apply Hnone; exact Hx|exact Ey].
    + unfold take. cbn [snd].
      destruct (distanceCssPx y <? distanceCssPx h)%num eqn:Ey.
      * right. exists (pre ++ h :: post), y, [].
        split; [reflexivity|]. split; [reflexivity|].
        split; [exact (ltb_trans _ _ _ Ey Hh)|].
        split; [|intros x []].
        intros x Hx.
        destruct (distanceCssPx x <=? distanceCssPx y)%num eqn:Exy;
          [exfalso|reflexivity].
        pose proof (leb_ltb_trans _ _ _ Exy Ey) as Hlt.
        apply in_app_or in Hx. destruct Hx as [Hx|[<-|Hx]].
        -- pose proof (Hpre x Hx) as Hc.
           rewrite (ltb_leb _ _ Hlt) in Hc. discriminate Hc.
        -- rewrite (ltb_not_leb _ _ Ey) in Exy. discriminate Exy.
        -- pose proof (Hpost x Hx) as Hc. rewrite Hlt in Hc. discriminate Hc.
      * right. exists pre, h, (post ++ [y]).
        split; [rewrite <- app_assoc; reflexivity|].
        split; [reflexivity|]. split; [exact Hh|].
        split; [exact Hpre|].
        intros x Hx. apply in_app_or in Hx.
        destruct Hx as [Hx|[<-|[]]]; [apply Hpost; exact Hx|exact Ey].
Qed.

Variable toString : num -> string.

Lemma indexed_nth anns i a :
  In (i, a) (indexed anns) -> nth_error anns i = Some a.
Proof.
  unfold indexed. intro Hin.
  assert (Hgen : forall l k, In (i, a) (combine (seq k (length l)) l) ->
                             (k <= i)%nat /\ nth_error l (i - k) = Some a).
  { clear. induction l as [|b l IH]; intros k Hin; [destruct Hin|].
    cbn in Hin. destruct Hin as [E|Hin].
    - injection E as -> ->. rewrite Nat.sub_diag. split; [lia|reflexivity].
    - destruct (IH (S k) Hin) as [Hk Hn]. split; [lia|].
      replace (i - k)%nat with (S (i - S k)) by lia. exact Hn. }
  destruct (Hgen anns 0%nat Hin) as [_ Hn].
  rewrite Nat.sub_0_r in Hn. exact Hn.
Qed.

(** What being a candidate means. *)
Lemma candidate_sound t anns px py h :
  In h (candidates t anns px py) ->
  nth_error anns (annotationIndex h) = Some (annotation h) /\
  match hitType h, annotation h with
  | HitLine, LineX _ =>
      exists b bx,
        nth_error (boundsCache t) (annotationIndex h) = Some b /\
        canvasX b = Some bx /\
        distanceCssPx h = abs (px - bx)%num /\
        (distanceCssPx h <=? lineTolerance t)%num = true
  | HitLine, LineY _ =>
      exists b by_,
        nth_error (boundsCache t) (annotationIndex h) = Some b /\
        canvasY b = Some by_ /\
        distanceCssPx h = abs (py - by_)%num /\
        (distanceCssPx h <=? lineTolerance t)%num = true
  | HitText, Text _ =>
      exists r,
        textRectOf (textBoundsCache t) (annotationIndex h) = Some r /\
        isInsideRect px py r (textTolerance t) = true /\
        distanceCssPx h
        = distanceToPoint px py (rect_left r + rect_width r / Fin 2)%num
            (rect_top r + rect_height r / Fin 2)%num
  | HitPoint, PointMark _ _ =>
      exists b bx by_,
        nth_error (boundsCache t) (annotationIndex h) = Some b /\
        canvasX b = Some bx /\ canvasY b = Some by_ /\
        distanceCssPx h = distanceToPoint px py bx by_ /\
        (distanceCssPx h <=? pointTolerance t)%num = true
  | _, _ => False
  end.
Proof.
  unfold candidates. intro Hin.
  apply in_app_or in Hin. destruct Hin as [Hin|Hin];
    [|apply in_app_or in Hin; destruct Hin as [Hin|Hin]];
    apply in_flat_map in Hin; destruct Hin as ([i a] & Hia & Hh);
    apply indexed_nth in Hia.
  - unfold lineOffer in Hh.
    destruct (nth_error (boundsCache t) i) as [b|] eqn:Eb; [|destruct Hh].
    destruct a; destruct (canvasX b) as [bx|] eqn:Ex;
      destruct (canvasY b) as [by_|] eqn:Ey; try destruct Hh;
      (match type of Hh with
       | In _ (if ?c then _ else _) => destruct c eqn:Etol
       end; [destruct Hh as [<-|[]]|destruct Hh]);
      cbn; (split; [exact Hia|]); eauto 10.
  - unfold textOffer in Hh.
    destruct a; try destruct Hh.
    destruct (textRectOf (textBoundsCache t) i) as [r|] eqn:Er;
      [|destruct Hh].
    destruct (isInsideRect px py r (textTolerance t)) eqn:Ein;
      [|destruct Hh].
    destruct Hh as [<-|[]]. cbn. split; [exact Hia|]. eauto.
  - unfold pointOffer in Hh.
    destruct (nth_error (boundsCache t) i) as [b|] eqn:Eb; [|destruct Hh].
    destruct a; try destruct Hh.
    destruct (canvasX b) as [bx|] eqn:Ex;
      destruct (canvasY b) as [by_|] eqn:Ey; try destruct Hh.
    match type of Hh with
    | In _ (if ?c then _ else _) => destruct c eqn:Etol
    end; [|destruct Hh].
    destruct Hh as [<-|[]]. cbn. split; [exact Hia|]. eauto 10.
Qed.

(** The hit of [hitTest] and the tester it leaves, in terms of the
    candidates. *)
Lemma hitTest_candidates chart t px py :
  let anns := withDefault (annotations (options chart)) [] in
  let t' := snd (hitTest toString chart t px py) in
  fst (hitTest toString chart t px py)
  = fst (fold_left take (candidates t' anns px py) (None, PInf)).
Proof.
  cbv zeta. unfold hitTest.
  destruct (withDefault (annotations (options chart)) []) as [|a anns];
    [reflexivity|].
  cbn [length Nat.eqb fst snd]. apply f_equal, scanHits_candidates.
Qed.

(** X19: the closest candidate wins.  [hitTest] returns [null] exactly
    when no candidate has a distance below [Infinity]; otherwise it
    returns a candidate such that no candidate is strictly closer, and
    every candidate offered before it (lines before texts before points,
    and by index within a kind) is strictly farther: on a tie the
    earlier candidate is kept, so a point replaces a text or a line only
    when it is strictly closer. *)
Theorem hit_is_first_closest (chart : Chart) (t : Tester) (px py : num) :
  let anns := withDefault (annotations (options chart)) [] in
  let t' := snd (hitTest toString chart t px py) in
  let cands := candidates t' anns px py in
  match fst (hitTest toString chart t px py) with
  | None =>
      forall c, In c cands -> (distanceCssPx c <? PInf)%num = false
  | Some h =>
      (distanceCssPx h <? PInf)%num = true /\
      exists pre post,
        cands = pre ++ h :: post /\
        (forall c, In c pre ->
           (distanceCssPx c <=? distanceCssPx h)%num = false) /\
        (forall c, In c post ->
           (distanceCssPx c <? distanceCssPx h)%num = false)
  end.
Proof.
  cbv zeta. rewrite hitTest_candidates.
  destruct (take_first_closest
              (candidates (snd (hitTest toString chart t px py))
                 (withDefault (annotations (options chart)) []) px py))
    as [[-> Hnone]|(pre & h & post & E & -> & Hh & Hpre & Hpost)].
  - exact Hnone.
  - cbn [fst]. split; [exact Hh|]. exists pre, post. auto.
Qed.

(** X20: a hit is what it says.  The annotation returned is the one at
    the returned index; a ['line'] hit is a [lineX] or [lineY]
    annotation whose cached canvas coordinate is within the line
    tolerance of the pointer, the distance being the horizontal
    (vertical) offset; a ['text'] hit is a text annotation whose measured
    rectangle, padded by the text tolerance, holds the pointer, the
    distance being that to the centre of the rectangle; a ['point'] hit
    is a point annotation within the point tolerance; ['label'] is never
    returned. *)
Theorem hit_is_sound (chart : Chart) (t : Tester) (px py : num)
  (h : AnnotationHitTestResult) :
  fst (hitTest toString chart t px py) = Some h ->
  let anns := withDefault (annotations (options chart)) [] in
  let t' := snd (hitTest toString chart t px py) in
  nth_error anns (annotationIndex h) = Some (annotation h) /\
  match hitType h, annotation h with
  | HitLine, LineX _ =>
      exists b bx,
        nth_error (boundsCache t') (annotationIndex h) = Some b /\
        canvasX b = Some bx /\
        distanceCssPx h = abs (px - bx)%num /\
        (distanceCssPx h <=? lineTolerance t')%num = true
  | HitLine, LineY _ =>
      exists b by_,
        nth_error (boundsCache t') (annotationIndex h) = Some b /\
        canvasY b = Some by_ /\
        distanceCssPx h = abs (py - by_)%num /\
        (distanceCssPx h <=? lineTolerance t')%num = true
  | HitText, Text _ =>
      exists r,
        textRectOf (textBoundsCache t') (annotationIndex h) = Some r /\
        isInsideRect px py r (textTolerance t') = true /\
        distanceCssPx h
        = distanceToPoint px py (rect_left r + rect_width r / Fin 2)%num
            (rect_top r + rect_height r / Fin 2)%num
  | HitPoint, PointMark _ _ =>
      exists b bx by_,
        nth_error (boundsCache t') (annotationIndex h) = Some b /\
        canvasX b = Some bx /\ canvasY b = Some by_ /\
        distanceCssPx h = distanceToPoint px py bx by_ /\
        (distanceCssPx h <=? pointTolerance t')%num = true
  | _, _ => False
  end.
Proof.
  intros Hhit anns t'. apply (candidate_sound t' anns px py).
  rewrite hitTest_candidates in Hhit. fold anns t' in Hhit.
  destruct (take_first_closest (candidates t' anns px py))
    as [[E _]|(pre & h' & post & E & Er & _)].
  - rewrite E in Hhit. discriminate Hhit.
  - rewrite Er in Hhit. cbn [fst] in Hhit. apply Some_eq in Hhit.
    subst h'. rewrite E. apply in_or_app. right. left. reflexivity.
Qed.

(** X21: hit regions are cached until [invalidateCache()].  After a
    first hit test (which builds the cache), a hit test on a chart with
    the same annotations but any other zoom range, axes, grid, series or
    canvas size still uses the bounds computed from the first chart; once
    [invalidateCache()] has been called, the next hit test uses the
    bounds of the chart it is given. *)
Theorem cache_until_invalidated (c1 c2 : Chart) (t : Tester)
  (anns : list Annotation) (px py qx qy : num) :
  annotations (options c1) = Some anns ->
  annotations (options c2) = Some anns ->
  anns <> [] -> cacheValid t = false ->
  let t1 := snd (hitTest toString c1 t px py) in
  fst (hitTest toString c2 t1 qx qy)
  = fst (scanHits (updateCache toString c1 anns t) anns qx qy) /\
  fst (hitTest toString c2 (invalidateCache t1) qx qy)
  = fst (scanHits (updateCache toString c2 anns t) anns qx qy).
Proof.
  intros H1 H2 Hne Hinv. unfold hitTest. rewrite H1, H2, Hinv.
  cbn [withDefault].
  destruct anns as [|a anns]; [contradiction|].
  cbn [length Nat.eqb snd fst]. split; reflexivity.
Qed.

(** X22: [dispose()] clears both caches but leaves the cache marked
    valid: after a hit test on a chart with annotations, a disposed
    tester finds nothing, at any pointer position and on any chart. *)
Theorem disposed_tester_misses (c1 c2 : Chart) (t : Tester)
  (px py qx qy : num) :
  withDefault (annotations (options c1)) [] <> [] ->
  let t1 := snd (hitTest toString c1 t px py) in
  cacheValid t1 = true /\
  fst (hitTest toString c2 (dispose t1) qx qy) = None.
Proof.
  intros Hne t1.
  assert (Hvalid : cacheValid t1 = true).
  { unfold t1, hitTest.
    destruct (withDefault (annotations (options c1)) []) as [|a anns];
      [contradiction|].
    cbn [length Nat.eqb snd].
    destruct (cacheValid t) eqn:E; [exact E|reflexivity]. }
  split; [exact Hvalid|].
  rewrite hitTest_candidates.
  assert (Hsnd : snd (hitTest toString c2 (dispose t1) qx qy) = dispose t1).
  { unfold hitTest.
    destruct (withDefault (annotations (options c2)) []); [reflexivity|].
    cbn [length Nat.eqb snd dispose cacheValid]. rewrite Hvalid.
    reflexivity. }
  rewrite Hsnd.
  assert (Hnone : forall anns,
            candidates (dispose t1) anns qx qy = []).
  { intro anns. unfold candidates.
    assert (Hl : forall l, flat_map (lineOffer (dispose t1) qx qy) l = []).
    { induction l as [|[i a] l IH]; [reflexivity|]. cbn [flat_map].
      rewrite IH. unfold lineOffer. cbn [boundsCache dispose].
      destruct i; reflexivity. }
    assert (Ht : forall l, flat_map (textOffer (dispose t1) qx qy) l = []).
    { induction l as [|[i a] l IH]; [reflexivity|]. cbn [flat_map].
      rewrite IH. unfold textOffer. cbn [textBoundsCache dispose textRectOf].
      destruct a; reflexivity. }
    assert (Hp : forall l, flat_map (pointOffer (dispose t1) qx qy) l = []).
    { induction l as [|[i a] l IH]; [reflexivity|]. cbn [flat_map].
      rewrite IH. unfold pointOffer. cbn [boundsCache dispose].
      destruct i; reflexivity. }
    rewrite Hl, Ht, Hp. reflexivity. }
  rewrite Hnone. reflexivity.
Qed.

End HitTesterFacts.

(** The line at [x = 50] is drawn at 420px, the points at (420, 300) and
    (492, 300).  At (425, 300) the line and the first point are both 5px
    away: the line is returned.  At (490, 300) only the second point is
    within its tolerance. *)
Example hit_on_a_tie :
  fst (AnnotationHitTester.hitTest HitExamples.label HitExamples.chart
         HitExamples.tester (Fin 425) (Fin 300))
  = Some (AnnotationHitTester.mkHit 0
            (AnnotationHitTester.LineX (Some (Fin 50)))
            AnnotationHitTester.HitLine (Fin 5)).
Proof. vm_compute. reflexivity. Qed.

Example hit_on_a_point :
  fst (AnnotationHitTester.hitTest HitExamples.label HitExamples.chart
         HitExamples.tester (Fin 490) (Fin 300))
  = Some (AnnotationHitTester.mkHit 2
            (AnnotationHitTester.PointMark (Some (Fin 60)) (Some (Fin 50)))
            AnnotationHitTester.HitPoint (Fin 2)).
Proof. vm_compute. reflexivity. Qed.

Lemma hit_is_sound_witness :
  exists b bx,
    nth_error
      (AnnotationHitTester.boundsCache
         (snd (AnnotationHitTester.hitTest HitExamples.label
                 HitExamples.chart HitExamples.tester (Fin 425) (Fin 300))))
      0 = Some b /\
    AnnotationHitTester.canvasX b = Some bx /\
    Fin 5 = AnnotationHitTester.abs (Fin 425 - bx)%num /\
    (Fin 5 <=? Fin 20)%num = true.
Proof.
  destruct (hit_is_sound HitExamples.label HitExamples.chart
              HitExamples.tester (Fin 425) (Fin 300)
              (AnnotationHitTester.mkHit 0
                 (AnnotationHitTester.LineX (Some (Fin 50)))
                 AnnotationHitTester.HitLine (Fin 5)))
    as [_ Hline].
  - vm_compute. reflexivity.
  - exact Hline.
Defined.

Lemma cache_until_invalidated_witness :
  fst (AnnotationHitTester.hitTest HitExamples.label HitExamples.zoomed
         (snd (AnnotationHitTester.hitTest HitExamples.label
                 HitExamples.chart HitExamples.tester (Fin 0) (Fin 0)))
         (Fin 425) (Fin 300))
  = fst (AnnotationHitTester.scanHits
           (AnnotationHitTester.updateCache HitExamples.label
              HitExamples.chart HitExamples.marks HitExamples.tester)
           HitExamples.marks (Fin 425) (Fin 300)) /\
  fst (AnnotationHitTester.hitTest HitExamples.label HitExamples.zoomed
         (AnnotationHitTester.invalidateCache
            (snd (AnnotationHitTester.hitTest HitExamples.label
                    HitExamples.chart HitExamples.tester (Fin 0) (Fin 0))))
         (Fin 425) (Fin 300))
  = fst (AnnotationHitTester.scanHits
           (AnnotationHitTester.updateCache HitExamples.label
              HitExamples.zoomed HitExamples.marks HitExamples.tester)
           HitExamples.marks (Fin 425) (Fin 300)).
Proof.
  apply (cache_until_invalidated HitExamples.label HitExamples.chart
           HitExamples.zoomed HitExamples.tester HitExamples.marks);
    try reflexivity.
  discriminate.
Defined.

Lemma disposed_tester_misses_witness :
  fst (AnnotationHitTester.hitTest HitExamples.label HitExamples.chart
         (AnnotationHitTester.dispose
            (snd (AnnotationHitTester.hitTest HitExamples.label
                    HitExamples.chart HitExamples.tester (Fin 0) (Fin 0))))
         (Fin 425) (Fin 300))
  = None.
Proof.
  destruct (disposed_tester_misses HitExamples.label HitExamples.chart
              HitExamples.chart HitExamples.tester (Fin 0) (Fin 0)
              (Fin 425) (Fin 300)) as [_ Hnone].
  - discriminate.
  - exact Hnone.
Defined.

(** * The domain of the x axis and the way to the canvas *)

(** The affine maps of [dataToCanvas] on finite numbers. *)
Lemma scale_x (l r x0 x1 : Q) :
  (x0 < x1)%Q ->
  let f x :=
    (Fin l + (x - Fin x0) / Fin (Qred (x1 - x0)) * (Fin r - Fin l))%num in
  (f (Fin x0) =? Fin l)%num = true /\
  (f (Fin x1) =? Fin r)%num = true /\
  (forall x, isFinite x = true -> isFinite (f x) = true) /\
  ((l <= r)%Q -> forall u u', (u <= u')%Q ->
     (f (Fin u) <=? f (Fin u'))%num = true).
Proof.
  intros Hx f. unfold f.
  assert (Hn : Qeq_bool (Qred (x1 - x0)) 0 = false) by (qprop; lra).
  assert (Hinv : (0 < / (x1 - x0))%Q) by (apply Qinv_lt_0_compat; lra).
  split; [|split; [|split]].
  - nsimpl. rewrite Hn. nsimpl. qprop. field. lra.
  - nsimpl. rewrite Hn. nsimpl. qprop. field. lra.
  - intros [| | |u] Hu; try discriminate Hu. nsimpl. rewrite Hn. reflexivity.
  - intros Hlr u u' Hu. nsimpl. rewrite Hn. nsimpl. qprop.
    unfold Qdiv. set (k := (/ (x1 - x0) * (r - l))%Q).
    assert (Hk : (0 <= k)%Q) by (unfold k; nra).
    assert (E : forall v, ((v - x0) * / (x1 - x0) * (r - l) == (v - x0) * k)%Q)
      by (intro v; unfold k; ring).
    rewrite !E. nra.
Qed.

Lemma scale_y (t b y0 y1 : Q) :
  (y0 < y1)%Q ->
  let g y :=
    (Fin b - (y - Fin y0) / Fin (Qred (y1 - y0)) * (Fin b - Fin t))%num in
  (g (Fin y0) =? Fin b)%num = true /\
  (g (Fin y1) =? Fin t)%num = true /\
  (forall y, isFinite y = true -> isFinite (g y) = true).
Proof.
  intros Hy g. unfold g.
  assert (Hn : Qeq_bool (Qred (y1 - y0)) 0 = false) by (qprop; lra).
  split; [|split].
  - nsimpl. rewrite Hn. nsimpl. qprop. field. lra.
  - nsimpl. rewrite Hn. nsimpl. qprop. field. lra.
  - intros [| | |u] Hu; try discriminate Hu. nsimpl. rewrite Hn. reflexivity.
Qed.

Section DomainFacts.

Import AnnotationHitTester.

Lemma fold_left_map_step {A : Type} (step : num -> num -> num)
  (f : A -> num) (l : list A) : forall acc,
  fold_left (fun a p => step a (f p)) l acc = fold_left step (map f l) acc.
Proof. induction l as [|p l IH]; intro acc; [reflexivity|]. apply IH. Qed.

Lemma scan_allXs (step : num -> num -> num) ss : forall acc,
  fold_left (scanSeries getOHLCTimestamp getPointX step) ss acc
  = fold_left step (allXs ss) acc.
Proof.
  induction ss as [|s ss IH]; intro acc; [reflexivity|].
  cbn [fold_left]. unfold allXs. cbn [flat_map].
  rewrite fold_left_app. fold (allXs ss). rewrite <- IH. f_equal.
  destruct s; cbn [scanSeries seriesXs]; [reflexivity| |];
    apply fold_left_map_step.
Qed.

(** The running minimum over values that are finite or [NaN], from a
    start that is [+Infinity] or finite. *)
Lemma lower_fold xs : forall acc,
  (forall v, In v xs -> v = NaN \/ isFinite v = true) ->
  acc = PInf \/ isFinite acc = true ->
  let r := fold_left lower xs acc in
  (r = acc \/ (In r xs /\ isFinite r = true)) /\
  (r <=? acc)%num = true /\
  forall v, In v xs -> isFinite v = true -> (r <=? v)%num = true.
Proof.
  induction xs as [|x xs IH]; intros acc Hxs Hacc.
  - cbn. split; [left; reflexivity|]. split; [|intros v []].
    destruct Hacc as [->|Hf]; [reflexivity|apply leb_refl; exact Hf].
  - cbn [fold_left].
    assert (Hstep : (lower acc x = acc \/ (lower acc x = x /\ isFinite x = true))
                    /\ (lower acc x <=? acc)%num = true
                    /\ (isFinite x = true -> (lower acc x <=? x)%num = true)
                    /\ (lower acc x = PInf \/ isFinite (lower acc x) = true)).
    { unfold lower.
      destruct (Hxs x (or_introl eq_refl)) as [->|Hx].
      - destruct acc; cbn; destruct Hacc as [E|E]; try discriminate E;
          repeat split; auto; try discriminate; qprop; try lra.
      - destruct x as [| | |q]; try discriminate Hx.
        destruct Hacc as [->|Ha].
        + cbn. repeat split; auto; intros; qprop; try lra.
        + destruct acc as [| | |a]; try discriminate Ha. nsimpl.
          destruct (Qlt_bool q a) eqn:E; nsimpl; qprop;
            repeat split; auto; intros; qprop; try lra. }
    destruct Hstep as (Hwhich & Hle & Hx & Hacc').
    destruct (IH (lower acc x)) as (Hr & Hra & Hall);
      [intros v Hv; apply Hxs; right; exact Hv|exact Hacc'|].
    cbv zeta in *. split; [|split].
    + destruct Hr as [->|[Hin Hf]].
      * destruct Hwhich as [->|[-> Hf]]; [left; reflexivity|].
        right. split; [left; reflexivity|exact Hf].
      * right. split; [right; exact Hin|exact Hf].
    + exact (leb_trans _ _ _ Hra Hle).
    + intros v [<-|Hv] Hf.
      * exact (leb_trans _ _ _ Hra (Hx Hf)).
      * apply Hall; assumption.
Qed.

Lemma upper_fold xs : forall acc,
  (forall v, In v xs -> v = NaN \/ isFinite v = true) ->
  acc = NInf \/ isFinite acc = true ->
  let r := fold_left upper xs acc in
  (r = acc \/ (In r xs /\ isFinite r = true)) /\
  (acc <=? r)%num = true /\
  forall v, In v xs -> isFinite v = true -> (v <=? r)%num = true.
Proof.
  induction xs as [|x xs IH]; intros acc Hxs Hacc.
  - cbn. split; [left; reflexivity|]. split; [|intros v []].
    destruct Hacc as [->|Hf]; [reflexivity|apply leb_refl; exact Hf].
  - cbn [fold_left].
    assert (Hstep : (upper acc x = acc \/ (upper acc x = x /\ isFinite x = true))
                    /\ (acc <=? upper acc x)%num = true
                    /\ (isFinite x = true -> (x <=? upper acc x)%num = true)
                    /\ (upper acc x = NInf \/ isFinite (upper acc x) = true)).
    { unfold upper, gtb.
      destruct (Hxs x (or_introl eq_refl)) as [->|Hx].
      - destruct acc; cbn; destruct Hacc as [E|E]; try discriminate E;
          repeat split; auto; try discriminate; qprop; try lra.
      - destruct x as [| | |q]; try discriminate Hx.
        destruct Hacc as [->|Ha].
        + cbn. repeat split; auto; intros; qprop; try lra.
        + destruct acc as [| | |a]; try discriminate Ha. nsimpl.
          destruct (Qlt_bool a q) eqn:E; nsimpl; qprop;
            repeat split; auto; intros; qprop; try lra. }
    destruct Hstep as (Hwhich & Hle & Hx & Hacc').
    destruct (IH (upper acc x)) as (Hr & Hra & Hall);
      [intros v Hv; apply Hxs; right; exact Hv|exact Hacc'|].
    cbv zeta in *. split; [|split].
    + destruct Hr as [->|[Hin Hf]].
      * destruct Hwhich as [->|[-> Hf]]; [left; reflexivity|].
        right. split; [left; reflexivity|exact Hf].
      * right. split; [right; exact Hin|exact Hf].
    + exact (leb_trans _ _ _ Hle Hra).
    + intros v [<-|Hv] Hf.
      * exact (leb_trans _ _ _ (Hx Hf) Hra).
      * apply Hall; assumption.
Qed.



Variable toString : num -> string.


End DomainFacts.




(** * The size of axis titles, and the candlestick budget *)

Lemma mathRound_near (q : Q) :
  (q - (1 # 2) < inject_Z (Qfloor (q + (1 # 2))) <= q + (1 # 2))%Q.
Proof.
  pose proof (Qfloor_le (q + (1 # 2))) as Hle.
  pose proof (Qlt_floor (q + (1 # 2))) as Hlt.
  rewrite inject_Z_plus in Hlt. change (inject_Z 1) with 1%Q in Hlt.
  split; lra.
Qed.


Section BudgetFacts.

Import CandlestickBudget.

Variable MIN_TARGET_POINTS : num.

Lemma wrapInt32_range z :
  (-2147483648 <= wrapInt32 z < 2147483648)%Z.
Proof.
  unfold wrapInt32.
  pose proof (Z.mod_pos_bound (z + 2147483648) 4294967296 ltac:(lia)). lia.
Qed.

Lemma wrapInt32_small z :
  (-2147483648 <= z < 2147483648)%Z -> wrapInt32 z = z.
Proof.
  intro Hz. unfold wrapInt32. rewrite Z.mod_small by lia. lia.
Qed.

Lemma max_one_ofZ z :
  Num.max one (ofZ z) = ofZ (Z.max 1 z).
Proof.
  unfold Num.max, one, ofZ, Num.ltb, Num.Qlt_bool.
  destruct (Qle_bool (inject_Z z) 1) eqn:E; cbn [negb].
  - apply Qle_bool_iff in E. change 1%Q with (inject_Z 1) in E.
    rewrite <- Zle_Qle in E. rewrite Z.max_l by lia. reflexivity.
  - apply Qle_bool_false in E. change 1%Q with (inject_Z 1) in E.
    rewrite <- Zlt_Qlt in E. rewrite Z.max_r by lia. reflexivity.
Qed.

(** The base threshold is a positive 32-bit integer. *)
Lemma baseT_integer baseThreshold :
  exists k, baseT baseThreshold = ofZ k /\ (1 <= k <= 2147483647)%Z.
Proof.
  unfold baseT. destruct baseThreshold as [| | |q]; cbn [isFinite].
  1-3: exists 1%Z; split; [reflexivity|lia].
  cbn [toInt32]. rewrite max_one_ofZ.
  pose proof (wrapInt32_range (truncate q)).
  eexists. split; [reflexivity|]. lia.
Qed.

(** X27: the candlestick resampling budget.  Whatever the sampling
    threshold of the series is, the base threshold is an integer between
    1 and [2^31 - 1]: the integer part of the threshold when that lies in
    this range, and 1 for a threshold that is not finite or lies between
    [-2^31 - 1] and 1 (a threshold further below wraps around);
    and, [MIN_TARGET_POINTS] being a number, the upper bound handed to
    [clampInt] lies between 32 and 200,000 and is not below
    [MIN_TARGET_POINTS] when that is at most 200,000, so the interval
    [clampInt] clamps into is never empty. *)
Theorem candlestick_budget_is_bounded (baseThreshold : num) :
  MIN_TARGET_POINTS <> NaN ->
  (exists k, baseT baseThreshold = ofZ k /\ (1 <= k <= 2147483647)%Z) /\
  (forall q, baseThreshold = Fin q -> (1 <= q)%Q ->
     (q < 2147483648)%Q -> baseT baseThreshold = ofZ (Qfloor q)) /\
  (isFinite baseThreshold = false -> baseT baseThreshold = one) /\
  (forall q, baseThreshold = Fin q -> (-2147483649 < q)%Q -> (q < 1)%Q ->
     baseT baseThreshold = one) /\
  (Fin 32 <=? maxTarget MIN_TARGET_POINTS baseThreshold)%num = true /\
  (maxTarget MIN_TARGET_POINTS baseThreshold <=? Fin 200000)%num = true /\
  ((MIN_TARGET_POINTS <=? Fin 200000)%num = true ->
   (MIN_TARGET_POINTS <=? maxTarget MIN_TARGET_POINTS baseThreshold)%num
   = true).
Proof.
  intro Hmin.
  split; [apply baseT_integer|]. split; [|split; [|split]].
  - intros q -> Hlo Hhi. unfold baseT. cbn [isFinite toInt32].
    rewrite max_one_ofZ. unfold truncate.
    destruct (Num.Qlt_bool q 0) eqn:E; [qprop; lra|].
    assert (H1 : (1 <= Qfloor q)%Z).
    { apply Qfloor_lower. exact Hlo. }
    assert (H2 : (Qfloor q < 2147483648)%Z).
    { apply Z.le_lt_trans with (m := Qfloor q); [lia|].
      rewrite Zlt_Qlt. apply Qle_lt_trans with (y := q);
        [apply Qfloor_le|exact Hhi]. }
    rewrite wrapInt32_small by lia. rewrite Z.max_r by lia. reflexivity.
  - intro Hnf. unfold baseT. rewrite Hnf. reflexivity.
  - intros q -> Hlo Hlt. unfold baseT.
    cbn [isFinite toInt32]. rewrite max_one_ofZ. unfold truncate.
    destruct (Num.Qlt_bool q 0) eqn:E; qprop.
    + assert (H0 : (0 <= Qfloor (- q))%Z)
        by (apply Qfloor_lower; change (inject_Z 0) with 0%Q; lra).
      assert (H1 : (Qfloor (- q) <= 2147483648)%Z).
      { assert (Qfloor (- q) < 2147483649)%Z; [|lia].
        rewrite Zlt_Qlt. apply Qle_lt_trans with (y := (- q)%Q);
          [apply Qfloor_le|].
        change (inject_Z 2147483649) with 2147483649%Q. lra. }
      rewrite wrapInt32_small by lia. rewrite Z.max_l by lia. reflexivity.
    + assert (H0 : (0 <= Qfloor q)%Z)
        by (apply Qfloor_lower; change (inject_Z 0) with 0%Q; lra).
      assert (H1 : (Qfloor q < 1)%Z).
      { rewrite Zlt_Qlt. apply Qle_lt_trans with (y := q);
          [apply Qfloor_le|change (inject_Z 1) with 1%Q; lra]. }
      rewrite wrapInt32_small by lia. rewrite Z.max_l by lia. reflexivity.
  - destruct (baseT_integer baseThreshold) as (k & Ek & Hk).
    unfold maxTarget. rewrite Ek.
    unfold MAX_TARGET_MULTIPLIER, MAX_TARGET_POINTS_ABS, ofZ.
    assert (Hk1 : (1 <= inject_Z k)%Q).
    { change 1%Q with (inject_Z 1). rewrite <- Zle_Qle. lia. }
    destruct MIN_TARGET_POINTS as [| | |m]; [contradiction| | |];
      unfold Num.min, Num.max; nsimpl;
      repeat match goal with
      | |- context [Qlt_bool ?a ?b] => destruct (Qlt_bool a b) eqn:?; nsimpl
      end; repeat split; try reflexivity; intros; try discriminate;
      qprop; try lra; try nra.
Qed.

End BudgetFacts.

Lemma candlestick_budget_is_bounded_witness :
  CandlestickBudget.baseT (Fin (40001 # 2)) = Fin 20000 /\
  CandlestickBudget.maxTarget (Fin 100) (Fin (40001 # 2)) = Fin 200000.
Proof.
  destruct (candlestick_budget_is_bounded (Fin 100) (Fin (40001 # 2)))
    as (_ & Hfloor & _).
  - discriminate.
  - split; [|vm_compute; reflexivity].
    rewrite (Hfloor (40001 # 2) eq_refl); [reflexivity| |];
      unfold Qle, Qlt; cbn; lia.
Defined.

(** * The rate trackers *)

Section TrackerFacts.

Import WorkerStreaming.

(** The frame tracker keeps the last 60 time stamps. *)
Lemma runFPS_window stamps :
  frames (runFPS stamps) = skipn (length stamps - maxSamples) stamps.
Proof.
  unfold runFPS, updateFPS. unfold maxSamples.
  assert (Hgen : forall rest done,
            (length done <= 60)%nat ->
            frames
              (fold_left
                 (fun t now =>
                    if Nat.ltb 60 (length (frames t ++ [now]))
                    then mkFPS (tl (frames t ++ [now]))
                    else mkFPS (frames t ++ [now])) rest (mkFPS done))
            = skipn (length (done ++ rest) - 60) (done ++ rest)).
  { induction rest as [|now rest IH]; intros done Hdone.
    - cbn [fold_left frames]. rewrite app_nil_r.
      replace (length done - 60)%nat with 0%nat by lia. reflexivity.
    - cbn [fold_left frames].
      destruct (Nat.ltb_spec 60 (length (done ++ [now]))) as [Hgt|Hle].
      + rewrite length_app in Hgt. cbn [length] in Hgt.
        destruct done as [|d0 done']; [cbn in Hgt; lia|].
        cbn [app tl]. rewrite IH
          by (rewrite length_app; cbn [length] in *; lia).
        rewrite <- app_assoc. cbn [app length] in *.
        assert (Hlen : (60 <= length (done' ++ now :: rest))%nat)
          by (rewrite length_app; cbn [length]; lia).
        replace (S (length (done' ++ now :: rest)) - 60)%nat
          with (S (length (done' ++ now :: rest) - 60))%nat by lia.
        reflexivity.
      + rewrite IH by (rewrite length_app in *; cbn [length] in *; lia).
        rewrite <- app_assoc. reflexivity. }
  apply (Hgen stamps []). cbn. lia.
Qed.

Lemma evenly_frames t0 d n m :
  (1 <= m <= n)%nat ->
  let fs := skipn (n - m) (evenly t0 d n) in
  length fs = m /\
  hd NaN fs = Fin (t0 + inject_Z (Z.of_nat (n - m)) * d) /\
  last fs NaN = Fin (t0 + inject_Z (Z.of_nat (n - 1)) * d).
Proof.
  intros Hm fs. unfold fs, evenly.
  rewrite skipn_map, skipn_seq. cbn [Nat.add].
  replace (n - (n - m))%nat with m by lia.
  split; [rewrite length_map, length_seq; reflexivity|].
  destruct m as [|m]; [lia|]. split; [reflexivity|].
  rewrite seq_S, map_app. cbn [map]. rewrite last_last.
  replace (n - S m + m)%nat with (n - 1)%nat by lia. reflexivity.
Qed.



Lemma dropOld_pairs now ps :
  dropOld now (map fst ps) (map snd ps)
  = mkRate (map fst (dropWhileOld now ps)) (map snd (dropWhileOld now ps)).
Proof.
  induction ps as [|p ps IH]; [reflexivity|].
  cbn [map dropOld dropWhileOld tl].
  destruct (now - snd p >? windowMs)%num; [exact IH|reflexivity].
Qed.

Lemma old_not_young now p :
  isFinite now = true -> isFinite (snd p) = true ->
  (now - snd p >? windowMs)%num = negb (young now p).
Proof.
  unfold young, windowMs, gtb. destruct now, (snd p); try discriminate.
  intros _ _. nsimpl.
  destruct (Qle_bool (Qred (q - q0)) 1000) eqn:E; nsimpl; qprop; lra.
Qed.

(** A later clock makes fewer samples young, and along a clock that
    does not run backwards a young sample is followed by young ones. *)
Lemma young_earlier now now' p :
  isFinite now = true -> isFinite now' = true -> isFinite (snd p) = true ->
  (now <=? now')%num = true -> young now' p = true -> young now p = true.
Proof.
  unfold young, windowMs. destruct now, now', (snd p); try discriminate.
  intros _ _ _. nsimpl. intros; qprop. lra.
Qed.

Lemma young_later now p q :
  isFinite now = true -> isFinite (snd p) = true ->
  isFinite (snd q) = true ->
  (snd p <=? snd q)%num = true -> young now p = true -> young now q = true.
Proof.
  unfold young, windowMs. destruct now, (snd p), (snd q); try discriminate.
  intros _ _ _. nsimpl. intros; qprop. lra.
Qed.

Lemma clockOrdered_cons s l :
  clockOrdered (s :: l) = true ->
  isFinite (snd s) = true /\ clockOrdered l = true /\
  forall q, In q l -> (snd s <=? snd q)%num = true.
Proof.
  cbn [clockOrdered]. rewrite !andb_true_iff, forallb_forall. tauto.
Qed.

Lemma clockOrdered_finite l :
  clockOrdered l = true -> forall q, In q l -> isFinite (snd q) = true.
Proof.
  induction l as [|s l IH]; intros Ho q Hq; [destruct Hq|].
  destruct (clockOrdered_cons s l Ho) as (Hs & Hl & _).
  destruct Hq as [<-|Hq]; [exact Hs|apply IH; assumption].
Qed.

Lemma clockOrdered_filter (f : num * num -> bool) l :
  clockOrdered l = true -> clockOrdered (filter f l) = true.
Proof.
  induction l as [|s l IH]; intro Ho; [reflexivity|].
  destruct (clockOrdered_cons s l Ho) as (Hs & Hl & Hall).
  cbn [filter]. destruct (f s); [|apply IH; exact Hl].
  cbn [clockOrdered]. rewrite Hs, (IH Hl), andb_true_r. cbn [andb].
  apply forallb_forall. intros q Hq. apply filter_In in Hq.
  apply Hall. tauto.
Qed.

Lemma clockOrdered_snoc l s :
  clockOrdered (l ++ [s]) = true <->
  clockOrdered l = true /\ isFinite (snd s) = true /\
  forall q, In q l -> (snd q <=? snd s)%num = true.
Proof.
  induction l as [|a l IH].
  - cbn. rewrite !andb_true_r. split; [|tauto].
    intro Hs. split; [reflexivity|]. split; [exact Hs|intros q []].
  - cbn [app clockOrdered]. rewrite !andb_true_iff, forallb_app, IH.
    rewrite andb_true_iff. cbn [forallb]. rewrite andb_true_r. split.
    + intros ((Ha & Hall & Has) & Hl & Hs & Hq).
      repeat split; try assumption.
      intros q [<-|Hin]; [exact Has|apply Hq; exact Hin].
    + intros (((Ha & Hall) & Hl) & Hs & Hq).
      repeat split; try assumption.
      * apply Hq. left. reflexivity.
      * intros q Hin. apply Hq. right. exact Hin.
Qed.

(** On samples in time order the loop keeps exactly the young ones. *)
Lemma dropWhileOld_filter now ps :
  isFinite now = true -> clockOrdered ps = true ->
  dropWhileOld now ps = filter (young now) ps.
Proof.
  intros Hnow. induction ps as [|p ps IH]; intro Ho; [reflexivity|].
  destruct (clockOrdered_cons p ps Ho) as (Hp & Hps & Hall).
  cbn [dropWhileOld filter]. rewrite (old_not_young now p Hnow Hp).
  destruct (young now p) eqn:Ey; cbn [negb]; [|apply IH; assumption].
  f_equal. symmetry.
  assert (Hally : forall q, In q ps -> young now q = true).
  { intros q Hq. apply (young_later now p q); try assumption.
    - apply (clockOrdered_finite ps Hps). exact Hq.
    - apply Hall. exact Hq. }
  clear -Hally. induction ps as [|q ps IH]; [reflexivity|].
  cbn [filter]. rewrite (Hally q (or_introl eq_refl)). f_equal.
  apply IH. intros r Hr. apply Hally. right. exact Hr.
Qed.

Lemma filter_filter_weaker {A : Type} (f g : A -> bool) l :
  (forall a, In a l -> f a = true -> g a = true) ->
  filter f (filter g l) = filter f l.
Proof.
  induction l as [|a l IH]; intro H; [reflexivity|].
  cbn [filter]. destruct (g a) eqn:Eg.
  - cbn [filter]. destruct (f a); [f_equal|];
      apply IH; intros b Hb; apply H; right; exact Hb.
  - destruct (f a) eqn:Ef.
    + rewrite (H a (or_introl eq_refl) Ef) in Eg. discriminate Eg.
    + apply IH. intros b Hb. apply H. right. exact Hb.
Qed.

Lemma sub_eqb a b :
  isFinite b = true -> (a =? b)%num = true -> (b - a =? zero)%num = true.
Proof.
  destruct a, b; try discriminate. intros _. nsimpl. intro E. qprop. lra.
Qed.

(** The window of the data rate tracker. *)
Lemma runRate_window samples :
  clockOrdered samples = true ->
  let kept := filter (young (latest samples)) samples in
  runRate samples = mkRate (map fst kept) (map snd kept).
Proof.
  unfold runRate, latest. cbv zeta.
  induction samples as [|s samples IH] using rev_ind; intros Ho.
  - reflexivity.
  - rewrite fold_left_app. cbn [fold_left].
    apply clockOrdered_snoc in Ho. destruct Ho as (Ho & Hs & Hle).
    rewrite (IH Ho). unfold updateRate. cbn [bytes times].
    set (old := filter (young (last (map snd samples) NaN)) samples).
    replace (map fst old ++ [fst s]) with (map fst (old ++ [s]))
      by (rewrite map_app; reflexivity).
    replace (map snd old ++ [snd s]) with (map snd (old ++ [s]))
      by (rewrite map_app; reflexivity).
    rewrite dropOld_pairs.
    rewrite map_app. cbn [map]. rewrite last_last.
    assert (Hkept : dropWhileOld (snd s) (old ++ [s])
                    = filter (young (snd s)) (samples ++ [s])).
    {
      rewrite dropWhileOld_filter; [|exact Hs|].
      - rewrite !filter_app. f_equal. unfold old.
        apply filter_filter_weaker. intros q Hq Hy.
        assert (Hlast : In (last (map snd samples) NaN) (map snd samples)).
        { assert (Hne : samples <> []) by (intros ->; destruct Hq).
          destruct (exists_last Hne) as (samples' & s0 & ->).
          rewrite map_app. cbn [map]. rewrite last_last.
          apply in_or_app. right. left. reflexivity. }
        apply in_map_iff in Hlast. destruct Hlast as (s0 & E0 & Hs0).
        rewrite <- E0.
        apply (young_earlier (snd s0) (snd s) q); try assumption.
        + apply (clockOrdered_finite samples Ho). exact Hs0.
        + apply (clockOrdered_finite samples Ho). exact Hq.
        + apply Hle. exact Hs0.
      - apply clockOrdered_snoc. split; [|split; [exact Hs|]].
        + apply clockOrdered_filter. exact Ho.
        + intros q Hq. unfold old in Hq. apply filter_In in Hq.
          apply Hle. tauto. }
    rewrite Hkept. reflexivity.
Qed.

(** X29: the data rate tracker keeps exactly the samples of the last
    second.  For samples whose time stamps are finite and never
    decrease, after any number of updates the tracker holds, in order,
    the sizes and time stamps of exactly those samples that are at most
    1000 ms older than the latest one (so it is never empty after an
    update), the two arrays run in step, and the rate is reported as 0
    when fewer than two samples are held or when they all carry the
    same time stamp. *)
Theorem rate_tracker_window (samples : list (num * num)) :
  clockOrdered samples = true ->
  let kept := filter (young (latest samples)) samples in
  let t := runRate samples in
  bytes t = map fst kept /\ times t = map snd kept /\
  length (bytes t) = length (times t) /\
  (samples <> [] -> times t <> []) /\
  ((length kept < 2)%nat -> getBytesPerSecond t = zero) /\
  ((forall s, In s kept -> (snd s =? latest samples)%num = true) ->
   getBytesPerSecond t = zero).
Proof.
  intros Ho kept t.
  assert (Ht : t = mkRate (map fst kept) (map snd kept))
    by (apply runRate_window; exact Ho).
  rewrite Ht. cbn [bytes times].
  assert (Hlatest : samples <> [] ->
            exists s, In s kept /\ snd s = latest samples /\
                      last (map snd kept) NaN = latest samples).
  { intro Hne. unfold kept, latest.
    destruct (exists_last Hne) as (samples' & s & ->).
    apply clockOrdered_snoc in Ho. destruct Ho as (_ & Hs & _).
    rewrite map_app. cbn [map]. rewrite last_last.
    assert (Hy : young (snd s) s = true).
    { unfold young, windowMs. destruct (snd s); try discriminate Hs.
      nsimpl. qprop. lra. }
    exists s. rewrite filter_app. cbn [filter]. rewrite Hy.
    split; [apply in_or_app; right; left; reflexivity|].
    split; [reflexivity|]. rewrite map_app. cbn [map]. apply last_last. }
  split; [reflexivity|]. split; [reflexivity|].
  split; [rewrite !length_map; reflexivity|]. split; [|split].
  - intros Hne E. destruct (Hlatest Hne) as (s & Hin & _).
    destruct kept; [destruct Hin|discriminate E].
  - intro Hlen. unfold getBytesPerSecond. cbn [times].
    rewrite length_map.
    destruct (Nat.ltb_spec (length kept) 2); [reflexivity|lia].
  - intro Hsame. unfold getBytesPerSecond. cbn [times bytes].
    destruct (Nat.ltb (length (map snd kept)) 2) eqn:E2; [reflexivity|].
    assert (Hne : samples <> []).
    { intros ->. cbn in E2. discriminate E2. }
    destruct (Hlatest Hne) as (s & Hin & Es & Elast). rewrite Elast.
    assert (Hhd : (hd NaN (map snd kept) =? latest samples)%num = true).
    { destruct kept as [|k0 kept']; [destruct Hin|].
      cbn [map hd]. apply Hsame. left. reflexivity. }
    assert (Hfin : isFinite (latest samples) = true).
    { rewrite <- Es. apply (clockOrdered_finite samples Ho).
      unfold kept in Hin. apply filter_In in Hin. tauto. }
    rewrite (sub_eqb _ _ Hfin Hhd). reflexivity.
Qed.

Lemma rate_tracker_window_witness :
  times (runRate [(Fin 10, Fin 0); (Fin 20, Fin 600); (Fin 30, Fin 1200)])
  = [Fin 600; Fin 1200].
Proof.
  destruct (rate_tracker_window
              [(Fin 10, Fin 0); (Fin 20, Fin 600); (Fin 30, Fin 1200)]
              eq_refl) as (_ & Ht & _).
  exact Ht.
Defined.

End TrackerFacts.

(** * The point generator of the scatter examples *)

Section ScatterFacts.

Import ScatterExample.

(** The generator returns a number in [[0, 1)]. *)
Lemma nextRandom_unit a :
  exists r, snd (nextRandom a) = Fin r /\ (0 <= r < 1)%Q.
Proof.
  unfold nextRandom. cbv zeta. cbn [snd].
  match goal with
  | |- context [ofZ (uint32 ?t)] => generalize t
  end.
  intro t. unfold ofZ, uint32.
  pose proof (Z.mod_pos_bound t 4294967296 ltac:(lia)) as Hm.
  set (u := (t mod 4294967296)%Z) in *.
  nsimpl. change (Qeq_bool 4294967296 0) with false. nsimpl.
  eexists. split; [reflexivity|].
  rewrite Qred_correct.
  assert (H0 : (0 <= inject_Z u)%Q)
    by (change 0%Q with (inject_Z 0); rewrite <- Zle_Qle; lia).
  assert (H1 : (inject_Z u < 4294967296)%Q)
    by (change 4294967296%Q with (inject_Z 4294967296);
        rewrite <- Zlt_Qlt; lia).
  split; [apply Qle_shift_div_l; lra|apply Qlt_shift_div_r; lra].
Qed.

(** A value between the ends of a finite range. *)
Lemma lerp_between (lo hi : num) (r : Q) :
  isFinite lo = true -> isFinite hi = true -> (lo <=? hi)%num = true ->
  (0 <= r < 1)%Q ->
  let v := (lo + Fin r * (hi - lo))%num in
  isFinite v = true /\ (lo <=? v)%num = true /\ (v <=? hi)%num = true.
Proof.
  destruct lo as [| | |a], hi as [| | |b]; try discriminate.
  intros _ _ Hab Hr. nsimpl. qprop. repeat split; qprop; nra.
Qed.

Section Box.

Variable opts : PointOptions.
Hypothesis finite_box :
  isFinite (xMin opts) = true /\ isFinite (xMax opts) = true /\
  isFinite (yMin opts) = true /\ isFinite (yMax opts) = true.
Hypothesis ordered_box :
  (xMin opts <=? xMax opts)%num = true /\
  (yMin opts <=? yMax opts)%num = true.

(** Every point of the loop has a finite x and lies in the box. *)
Lemma makePoint_box a :
  finiteX (snd (makePoint opts a)) /\
  inBox opts (snd (makePoint opts a)) = true.
Proof.
  destruct finite_box as (Fx0 & Fx1 & Fy0 & Fy1).
  destruct ordered_box as (Ox & Oy).
  unfold makePoint. cbv zeta.
  destruct (nextRandom a) as [a1 r1] eqn:E1.
  destruct (nextRandom a1) as [a2 r2] eqn:E2.
  destruct (nextRandom_unit a) as (q1 & H1 & B1).
  destruct (nextRandom_unit a1) as (q2 & H2 & B2).
  rewrite E1 in H1. rewrite E2 in H2. cbn [snd] in H1, H2. subst r1 r2.
  destruct (lerp_between _ _ q1 Fx0 Fx1 Ox B1) as (Vx & Lx & Ux).
  destruct (lerp_between _ _ q2 Fy0 Fy1 Oy B2) as (Vy & Ly & Uy).
  unfold finiteX, inBox.
  destruct (includeSize opts); [destruct (nextRandom a2)|];
    cbn [snd pointX pointY getXY fst];
    rewrite Vx, Lx, Ux, Ly, Uy; split; reflexivity.
Qed.

Lemma makePoints_box n : forall a,
  length (makePoints opts n a) = n /\
  Forall (fun p => finiteX p /\ inBox opts p = true) (makePoints opts n a).
Proof.
  induction n as [|n IH]; intro a; cbn [makePoints].
  - split; [reflexivity|constructor].
  - pose proof (makePoint_box a) as Hp.
    destruct (makePoint opts a) as [a' p]. cbn [snd] in Hp.
    destruct (IH a') as [Hl Hf].
    split; [cbn [length]; congruence|constructor; assumption].
Qed.

End Box.

(** The sort keeps the points and puts them in the order of x. *)
Lemma insertByX_In p q l : In q (insertByX p l) <-> q = p \/ In q l.
Proof.
  induction l as [|r l IH]; cbn [insertByX].
  - cbn. intuition.
  - destruct (_ >? _)%num; cbn [In]; [|rewrite IH]; intuition.
Qed.

Lemma insertByX_length p l : length (insertByX p l) = S (length l).
Proof.
  induction l as [|r l IH]; cbn [insertByX]; [reflexivity|].
  destruct (_ >? _)%num; cbn [length]; [reflexivity|]. now rewrite IH.
Qed.

Lemma insertByX_sorted p l :
  finiteX p -> Forall finiteX l -> ascendingX l ->
  ascendingX (insertByX p l).
Proof.
  unfold ascendingX. intros Fp Fl Hs.
  induction Hs as [|q rest Hs IH Hq]; cbn [insertByX].
  - constructor; constructor.
  - inversion Fl as [|q' r' Fq Frest]; subst.
    destruct (pointX q - pointX p >? zero)%num eqn:E.
    + assert (Hpq : leX p q).
      { unfold leX, finiteX in *.
        destruct (pointX p), (pointX q); try discriminate.
        nsimpl. qprop. lra. }
      constructor; [constructor; assumption|].
      constructor; [exact Hpq|].
      eapply Forall_impl; [|exact Hq].
      intros r Hr. exact (leX_trans _ _ _ Hpq Hr).
    + assert (Hqp : leX q p).
      { unfold leX, finiteX in *.
        destruct (pointX p), (pointX q); try discriminate.
        nsimpl. qprop. lra. }
      constructor; [exact (IH Frest)|].
      apply Forall_forall. intros r Hr. apply insertByX_In in Hr.
      destruct Hr as [->|Hr]; [exact Hqp|].
      rewrite Forall_forall in Hq. exact (Hq r Hr).
Qed.

Lemma sortByX_spec (P : DataPoint -> Prop) l :
  Forall (fun p => finiteX p /\ P p) l ->
  length (sortByX l) = length l /\
  Forall (fun p => finiteX p /\ P p) (sortByX l) /\
  ascendingX (sortByX l).
Proof.
  unfold sortByX. intro Hl.
  enough (H : forall acc,
    Forall (fun p => finiteX p /\ P p) acc -> ascendingX acc ->
    let out := fold_left (fun sorted p => insertByX p sorted) l acc in
    length out = (length acc + length l)%nat /\
    Forall (fun p => finiteX p /\ P p) out /\ ascendingX out).
  { apply (H []); constructor. }
  induction Hl as [|p l Hp Hl IH]; intros acc Hacc Hs; cbn [fold_left].
  - cbn [length]. rewrite Nat.add_0_r. auto.
  - destruct (IH (insertByX p acc)) as (Hlen & Hall & Hsort).
    + apply Forall_forall. intros r Hr. apply insertByX_In in Hr.
      destruct Hr as [->|Hr]; [exact Hp|].
      rewrite Forall_forall in Hacc. exact (Hacc r Hr).
    + apply insertByX_sorted; [tauto| |exact Hs].
      eapply Forall_impl; [|exact Hacc]. cbn. tauto.
    + rewrite insertByX_length in Hlen. cbn [length].
      split; [lia|]. split; assumption.
Qed.

End ScatterFacts.


